(** * code-rag: the change ledger, the batch processor and the chunking tiers

    A shallow embedding of [file_watcher.py], [ast_chunking.py] and
    [chunking.py], with the properties that the design document states about
    them; and, after those, more of what the code itself shows, with
    [codechunk_wrapper.py] and parts of [tools.py] besides.

    Conventions.
    - A Python [str] is represented by its UTF-8 encoding, a [list byte];
      [len] counts code points, that is, the bytes that are not continuation
      bytes ([PyStr.len]).  Splitting at a newline, joining with a newline and
      counting a one-byte character are the same on the encoding as on the
      text.
    - Paths and ledger actions are dictionary keys and tags: Rocq [string]s.
    - A Python [dict] keeps insertion order, and the batch cap cuts the
      ledger by that order, so a dictionary is an association list without
      repeated keys ([PyDict]).
    - Python integers are [Z]; list slices follow Python's rules for
      negative and out-of-range bounds ([PyList.slice]). *)

From Stdlib Require Import List ZArith Lia Bool String Permutation Arith.
From Stdlib.Strings Require Import Byte.
Import ListNotations.

Local Open Scope Z_scope.

(* ===================================================================== *)
(** ** Python lists: slices *)
(* ===================================================================== *)

Module PyList.

Section Slices.
Context {A : Type}.

(** A slice bound [i] of a list of length [n]: negative bounds count from
    the end, and every bound is clamped into [0..n]. *)
Definition clamp (i : Z) (n : nat) : nat :=
  if i <? 0 then Z.to_nat (Z.max 0 (Z.of_nat n + i))
  else Nat.min (Z.to_nat i) n.

(** [l[i:]] *)
Definition slice_from (i : Z) (l : list A) : list A :=
  skipn (clamp i (List.length l)) l.

(** [l[:i]] *)
Definition slice_to (i : Z) (l : list A) : list A :=
  firstn (clamp i (List.length l)) l.

(** [l[i:j]] *)
Definition slice (i j : Z) (l : list A) : list A :=
  let lo := clamp i (List.length l) in
  let hi := clamp j (List.length l) in
  firstn (hi - lo) (skipn lo l).

Lemma clamp_nonneg (i : Z) (n : nat) :
  0 <= i -> clamp i n = Nat.min (Z.to_nat i) n.
Proof.
  intros Hi. unfold clamp.
  destruct (Z.ltb_spec i 0); [lia | reflexivity].
Qed.

Lemma clamp_le (i : Z) (n : nat) : (clamp i n <= n)%nat.
Proof.
  unfold clamp. destruct (Z.ltb_spec i 0); lia.
Qed.

Lemma slice_to_from (i : Z) (l : list A) :
  slice_to i l ++ slice_from i l = l.
Proof. apply firstn_skipn. Qed.

Lemma slice_to_nonneg (i : Z) (l : list A) :
  0 <= i -> slice_to i l = firstn (Z.to_nat i) l.
Proof.
  intros Hi. unfold slice_to. rewrite clamp_nonneg by assumption.
  destruct (Nat.le_gt_cases (Z.to_nat i) (List.length l)).
  - now rewrite Nat.min_l.
  - rewrite Nat.min_r by lia.
    now rewrite !firstn_all2 by lia.
Qed.

Lemma slice_from_nonneg (i : Z) (l : list A) :
  0 <= i -> slice_from i l = skipn (Z.to_nat i) l.
Proof.
  intros Hi. unfold slice_from. rewrite clamp_nonneg by assumption.
  destruct (Nat.le_gt_cases (Z.to_nat i) (List.length l)).
  - now rewrite Nat.min_l.
  - rewrite Nat.min_r by lia.
    now rewrite !skipn_all2 by lia.
Qed.

Lemma slice_nonneg (i j : Z) (l : list A) :
  0 <= i -> 0 <= j ->
  slice i j l = firstn (Z.to_nat j - Z.to_nat i) (skipn (Z.to_nat i) l).
Proof.
  intros Hi Hj. unfold slice. rewrite !clamp_nonneg by assumption.
  destruct (Nat.le_gt_cases (Z.to_nat i) (List.length l)) as [Hil | Hil].
  - rewrite (Nat.min_l (Z.to_nat i)) by assumption.
    destruct (Nat.le_gt_cases (Z.to_nat j) (List.length l)) as [Hjl | Hjl].
    + now rewrite Nat.min_l.
    + rewrite Nat.min_r by lia.
      rewrite !firstn_all2; try reflexivity; rewrite length_skipn; lia.
  - rewrite (Nat.min_r (Z.to_nat i)) by lia.
    rewrite !skipn_all2 by lia. now rewrite !firstn_nil.
Qed.

End Slices.

End PyList.

(* ===================================================================== *)
(** ** Python dictionaries with string keys, in insertion order *)
(* ===================================================================== *)

Module PyDict.

Section Dict.
Context {V : Type}.

Definition t := list (string * V).

Definition keys (d : t) : list string := map fst d.

(** [d.get(k)] *)
Fixpoint get (k : string) (d : t) : option V :=
  match d with
  | [] => None
  | (k', v) :: d' => if String.eqb k k' then Some v else get k d'
  end.

(** [d[k] = v]: an existing key keeps its place, a new key goes last. *)
Fixpoint set (k : string) (v : V) (d : t) : t :=
  match d with
  | [] => [(k, v)]
  | (k', v') :: d' =>
      if String.eqb k k' then (k, v) :: d' else (k', v') :: set k v d'
  end.

(** [d.update(other)], also [dict(pairs)] when [d] is empty. *)
Definition update (d : t) (other : list (string * V)) : t :=
  fold_left (fun acc kv => set (fst kv) (snd kv) acc) other d.

(** [dict(pairs)] *)
Definition of_items (l : list (string * V)) : t := update [] l.

(** [list(d.items())] *)
Definition items (d : t) : list (string * V) := d.

(** [dict(d)]: a copy, in the same order. *)
Definition copy (d : t) : t := of_items (items d).

Definition wf (d : t) : Prop := NoDup (keys d).

Lemma get_set_same k v d : get k (set k v d) = Some v.
Proof.
  induction d as [| [k' v'] d IH]; simpl.
  - now rewrite String.eqb_refl.
  - destruct (String.eqb k k') eqn:E; simpl.
    + now rewrite String.eqb_refl.
    + now rewrite E.
Qed.

Lemma get_set_other k q v d : q <> k -> get q (set k v d) = get q d.
Proof.
  intros Hne. induction d as [| [k' v'] d IH]; simpl.
  - destruct (String.eqb_spec q k); [contradiction | reflexivity].
  - destruct (String.eqb_spec k k') as [-> | Hk]; simpl.
    + destruct (String.eqb_spec q k'); [contradiction | reflexivity].
    + destruct (String.eqb_spec q k'); [reflexivity | exact IH].
Qed.

Lemma get_None_iff k d : get k d = None <-> ~ In k (keys d).
Proof.
  induction d as [| [k' v'] d IH]; simpl.
  - tauto.
  - destruct (String.eqb_spec k k') as [-> | Hk].
    + split; [discriminate | intros H; exfalso; apply H; now left].
    + rewrite IH. split.
      * intros H [E | HIn]; [now apply Hk | now apply H].
      * intros H HIn. apply H. now right.
Qed.

Lemma set_absent k v d : ~ In k (keys d) -> set k v d = d ++ [(k, v)].
Proof.
  induction d as [| [k' v'] d IH]; simpl; intros H.
  - reflexivity.
  - destruct (String.eqb_spec k k') as [-> | Hk].
    + exfalso. apply H. now left.
    + f_equal. apply IH. intros HIn. apply H. now right.
Qed.

Lemma keys_set_present k v d : In k (keys d) -> keys (set k v d) = keys d.
Proof.
  induction d as [| [k' v'] d IH]; simpl; intros H.
  - contradiction.
  - destruct (String.eqb_spec k k') as [-> | Hk]; simpl.
    + reflexivity.
    + f_equal. apply IH. destruct H as [E | H]; [now subst | exact H].
Qed.

Lemma keys_set k v d :
  keys (set k v d) = if in_dec string_dec k (keys d) then keys d else keys d ++ [k].
Proof.
  destruct (in_dec string_dec k (keys d)) as [HIn | HIn].
  - now apply keys_set_present.
  - rewrite set_absent by assumption. unfold keys. now rewrite map_app.
Qed.

Lemma wf_set k v d : wf d -> wf (set k v d).
Proof.
  unfold wf. intros Hd. rewrite keys_set.
  destruct (in_dec string_dec k (keys d)) as [HIn | HIn]; [assumption |].
  apply NoDup_app; [assumption | repeat constructor; now intros [] | ].
  intros x Hx [<- | []]. contradiction.
Qed.

Lemma length_set k v d :
  List.length (set k v d) =
  if in_dec string_dec k (keys d) then List.length d else S (List.length d).
Proof.
  rewrite <- (length_map fst (set k v d)), <- (length_map fst d).
  fold (keys (set k v d)) (keys d). rewrite keys_set.
  destruct (in_dec string_dec k (keys d)); [reflexivity |].
  rewrite length_app. simpl. lia.
Qed.

(** Inserting, one after the other, pairs with distinct keys that are not
    yet in the dictionary appends them in order. *)
Lemma update_fresh (d : t) (l : list (string * V)) :
  NoDup (keys d ++ keys l) -> update d l = d ++ l.
Proof.
  revert d. induction l as [| [k v] l IH]; intros d Hnd; simpl.
  - now rewrite app_nil_r.
  - unfold update in *. simpl.
    assert (Hk : ~ In k (keys d)).
    { intros HIn. simpl in Hnd. apply NoDup_remove_2 in Hnd.
      apply Hnd. apply in_or_app. now left. }
    rewrite set_absent by assumption.
    rewrite IH.
    + now rewrite <- app_assoc.
    + unfold keys in *. rewrite map_app, <- app_assoc. exact Hnd.
Qed.

Lemma of_items_wf (d : t) : wf d -> of_items d = d.
Proof.
  intros Hd. unfold of_items. now rewrite update_fresh.
Qed.

Lemma copy_wf (d : t) : wf d -> copy d = d.
Proof. apply of_items_wf. Qed.

Lemma wf_firstn n (d : t) : wf d -> wf (firstn n d).
Proof.
  unfold wf, keys. intros Hd. rewrite <- (firstn_skipn n d) in Hd.
  rewrite map_app in Hd. now apply NoDup_app_remove_r in Hd.
Qed.

Lemma wf_skipn n (d : t) : wf d -> wf (skipn n d).
Proof.
  unfold wf, keys. intros Hd. rewrite <- (firstn_skipn n d) in Hd.
  rewrite map_app in Hd. now apply NoDup_app_remove_l in Hd.
Qed.

End Dict.

Arguments t : clear implicits.

End PyDict.

(* ===================================================================== *)
(** ** file_watcher.py: the pending-change ledger and the batch processor *)
(* ===================================================================== *)

Module FileWatcher.

Local Open Scope string_scope.

(** The interval a timer was scheduled with: [self.debounce_seconds] or
    [self.git_settle_seconds].  The handle records which of the two
    configured intervals [loop.call_later] was given. *)
Inductive Delay : Type :=
| DebounceSeconds
| GitSettleSeconds.

(** [self.stats] *)
Record Stats : Type := mkStats {
  files_indexed : Z;
  files_deleted : Z;
  batches_processed : Z;
  stat_errors : Z
}.

(** The fields of [ProjectWatcher] that the ledger, the scheduler and the
    batch processor read and write. *)
Record ProjectWatcher : Type := mkWatcher {
  project_root : string;
  db_path : string;
  max_batch_size : Z;
  _pending_changes : PyDict.t string;
  _debounce_handle : option Delay;
  _processing : bool;
  _stopped : bool;
  stats : Stats
}.

(** [ProjectWatcher.__init__] *)
Definition new_watcher (root db : string) (cap : Z) : ProjectWatcher :=
  {| project_root := root; db_path := db; max_batch_size := cap;
     _pending_changes := []; _debounce_handle := None;
     _processing := false; _stopped := false;
     stats := mkStats 0 0 0 0 |}.

Definition with_pending (d : PyDict.t string) (w : ProjectWatcher) :=
  {| project_root := project_root w; db_path := db_path w;
     max_batch_size := max_batch_size w;
     _pending_changes := d; _debounce_handle := _debounce_handle w;
     _processing := _processing w; _stopped := _stopped w; stats := stats w |}.

Definition with_handle (h : option Delay) (w : ProjectWatcher) :=
  {| project_root := project_root w; db_path := db_path w;
     max_batch_size := max_batch_size w;
     _pending_changes := _pending_changes w; _debounce_handle := h;
     _processing := _processing w; _stopped := _stopped w; stats := stats w |}.

Definition with_processing (b : bool) (w : ProjectWatcher) :=
  {| project_root := project_root w; db_path := db_path w;
     max_batch_size := max_batch_size w;
     _pending_changes := _pending_changes w; _debounce_handle := _debounce_handle w;
     _processing := b; _stopped := _stopped w; stats := stats w |}.

Definition with_stopped (b : bool) (w : ProjectWatcher) :=
  {| project_root := project_root w; db_path := db_path w;
     max_batch_size := max_batch_size w;
     _pending_changes := _pending_changes w; _debounce_handle := _debounce_handle w;
     _processing := _processing w; _stopped := b; stats := stats w |}.

Definition with_stats (s : Stats) (w : ProjectWatcher) :=
  {| project_root := project_root w; db_path := db_path w;
     max_batch_size := max_batch_size w;
     _pending_changes := _pending_changes w; _debounce_handle := _debounce_handle w;
     _processing := _processing w; _stopped := _stopped w; stats := s |}.

(** [_reset_debounce]: cancel the current timer and schedule a new one for
    the debounce interval. *)
Definition _reset_debounce (w : ProjectWatcher) : ProjectWatcher :=
  with_handle (Some DebounceSeconds) w.

(** [existing == 'deleted'], where [existing] may be [None]. *)
Definition is_deleted (existing : option string) : bool :=
  match existing with
  | Some a => String.eqb a "deleted"
  | None => false
  end.

(** The merge of one event into the ledger, the body of the loop of
    [_drain_queue]. *)
Definition merge (action path : string) (pending : PyDict.t string) : PyDict.t string :=
  let existing := PyDict.get path pending in
  if String.eqb action "deleted" then PyDict.set path "deleted" pending
  else if is_deleted existing then PyDict.set path "modified" pending
  else PyDict.set path action pending.

(** One turn of the loop of [_drain_queue], for the event [(action, path)]
    taken from the queue. *)
Definition drain_event (ev : string * string) (w : ProjectWatcher) : ProjectWatcher :=
  let '(action, path) := ev in
  _reset_debounce (with_pending (merge action path (_pending_changes w)) w).

(** [_drain_queue] on the events delivered so far, in arrival order. *)
Definition _drain_queue (evs : list (string * string)) (w : ProjectWatcher) : ProjectWatcher :=
  fold_left (fun acc ev => drain_event ev acc) evs w.

(** *** The ledger after a run of events *)

Lemma pending_drain_event ev w :
  _pending_changes (drain_event ev w) = merge (fst ev) (snd ev) (_pending_changes w).
Proof. destruct ev as [action path]. reflexivity. Qed.

Lemma drain_queue_app evs1 evs2 w :
  _drain_queue (evs1 ++ evs2) w = _drain_queue evs2 (_drain_queue evs1 w).
Proof. unfold _drain_queue. apply fold_left_app. Qed.

Lemma merge_get_same action path pending :
  PyDict.get path (merge action path pending) =
  Some (if String.eqb action "deleted" then "deleted"
        else if is_deleted (PyDict.get path pending) then "modified"
        else action).
Proof.
  unfold merge.
  destruct (String.eqb action "deleted");
    [| destruct (is_deleted (PyDict.get path pending))];
    apply PyDict.get_set_same.
Qed.

Lemma merge_get_other action path q pending :
  q <> path -> PyDict.get q (merge action path pending) = PyDict.get q pending.
Proof.
  intros Hq. unfold merge.
  destruct (String.eqb action "deleted");
    [| destruct (is_deleted (PyDict.get path pending))];
    now apply PyDict.get_set_other.
Qed.

Lemma merge_wf action path pending :
  PyDict.wf pending -> PyDict.wf (merge action path pending).
Proof.
  intros Hwf. unfold merge.
  destruct (String.eqb action "deleted");
    [| destruct (is_deleted (PyDict.get path pending))];
    now apply PyDict.wf_set.
Qed.

Lemma drain_queue_wf evs w :
  PyDict.wf (_pending_changes w) -> PyDict.wf (_pending_changes (_drain_queue evs w)).
Proof.
  revert w. induction evs as [| ev evs IH]; intros w Hwf; simpl.
  - exact Hwf.
  - apply IH. rewrite pending_drain_event. now apply merge_wf.
Qed.

(** Events on other paths leave the entry of [path] alone. *)
Lemma drain_queue_others evs path w :
  Forall (fun ev => snd ev <> path) evs ->
  PyDict.get path (_pending_changes (_drain_queue evs w)) =
  PyDict.get path (_pending_changes w).
Proof.
  revert w. induction evs as [| ev evs IH]; intros w Hall; simpl.
  - reflexivity.
  - inversion Hall as [| ? ? Hev Hevs]; subst.
    rewrite IH by assumption. rewrite pending_drain_event.
    apply merge_get_other. congruence.
Qed.

(** *** Exceptions and the batch monad

    The batch processor calls the index store and the file system, each of
    which may raise, and it keeps going after a failure with whatever it had
    already written.  A computation therefore returns a value or an
    exception together with the state it reached. *)

Inductive exn : Type :=
| OSError
| OtherException.

Inductive result (A : Type) : Type :=
| Ok (a : A)
| Raise (e : exn).

Arguments Ok {A} a.
Arguments Raise {A} e.

(** The local counters of [_process_batch]. *)
Record Counters : Type := mkCounters {
  indexed : Z;
  deleted : Z;
  skipped : Z;
  errors : Z
}.

Definition zero_counters : Counters := mkCounters 0 0 0 0.

(** The size above which a file is not indexed, [1024 * 1024] bytes. *)
Definition size_ceiling : Z := 1024 * 1024.

#[global] Opaque size_ceiling.

Definition total (c : Counters) : Z := indexed c + deleted c + skipped c + errors c.

Section Batch.

(** The index store and the file system.  [World] is whatever state they
    keep; the store's calls may change it, the file-system probes only read
    it.  All of them may raise. *)
Variable World : Type.
Variable delete_by_path_async : string -> string -> World -> result Z * World.
Variable add_file_async : string -> string -> World -> result Z * World.
Variable path_exists : string -> World -> result bool.
Variable path_is_dir : string -> World -> result bool.
Variable path_stat_size : string -> World -> result Z.
(** [Path(a) / b] *)
Variable joinpath : string -> string -> string.
(** The order in which a Python [set] built from the given insertions is
    iterated. *)
Variable set_iter : list string -> list string.

(** What [_process_batch] runs on: the watcher, the world, and its local
    counters. *)
Record Frame : Type := mkFrame {
  self : ProjectWatcher;
  world : World;
  counts : Counters
}.

Definition M (A : Type) : Type := Frame -> result A * Frame.

Definition ret {A : Type} (a : A) : M A := fun f => (Ok a, f).

Definition bind {A B : Type} (m : M A) (k : A -> M B) : M B :=
  fun f =>
    match m f with
    | (Ok a, f') => k a f'
    | (Raise e, f') => (Raise e, f')
    end.

(** [try: m except Exception: h] *)
Definition try_except {A : Type} (m : M A) (h : exn -> M A) : M A :=
  fun f =>
    match m f with
    | (Ok a, f') => (Ok a, f')
    | (Raise e, f') => h e f'
    end.

(** [try: m except OSError: h] *)
Definition try_except_OSError {A : Type} (m : M A) (h : M A) : M A :=
  fun f =>
    match m f with
    | (Ok a, f') => (Ok a, f')
    | (Raise OSError, f') => h f'
    | (Raise e, f') => (Raise e, f')
    end.

(** [try: m finally: fin], for a [fin] that returns nothing. *)
Definition try_finally {A : Type} (m : M A) (fin : M unit) : M A :=
  fun f =>
    match m f with
    | (r, f') =>
        match fin f' with
        | (Ok _, f'') => (r, f'')
        | (Raise e, f'') => (Raise e, f'')
        end
    end.

Notation "x <- m ;; k" := (bind m (fun x => k))
  (at level 61, m at next level, right associativity).
Notation "m ;;; k" := (bind m (fun _ => k))
  (at level 61, right associativity).

(** [for x in l: body(x)] *)
Fixpoint for_each (l : list string) (body : string -> M unit) : M unit :=
  match l with
  | [] => ret tt
  | x :: xs => body x ;;; for_each xs body
  end.

Definition modify_counts (g : Counters -> Counters) : M unit :=
  fun f => (Ok tt, mkFrame (self f) (world f) (g (counts f))).

Definition modify_self (g : ProjectWatcher -> ProjectWatcher) : M unit :=
  fun f => (Ok tt, mkFrame (g (self f)) (world f) (counts f)).

Definition incr_indexed : M unit :=
  modify_counts (fun c => mkCounters (indexed c + 1) (deleted c) (skipped c) (errors c)).
Definition incr_deleted : M unit :=
  modify_counts (fun c => mkCounters (indexed c) (deleted c + 1) (skipped c) (errors c)).
Definition incr_skipped : M unit :=
  modify_counts (fun c => mkCounters (indexed c) (deleted c) (skipped c + 1) (errors c)).
Definition incr_errors : M unit :=
  modify_counts (fun c => mkCounters (indexed c) (deleted c) (skipped c) (errors c + 1)).

(** [await rag_milvus.delete_by_path_async(path, self.db_path)] *)
Definition call_delete (path : string) : M Z :=
  fun f =>
    let '(r, w') := delete_by_path_async path (db_path (self f)) (world f) in
    (r, mkFrame (self f) w' (counts f)).

(** [await rag_milvus.add_file_async(path, force=False, db_path=self.db_path)] *)
Definition call_add_file (path : string) : M Z :=
  fun f =>
    let '(r, w') := add_file_async path (db_path (self f)) (world f) in
    (r, mkFrame (self f) w' (counts f)).

(** [Path(path).exists()] *)
Definition call_exists (path : string) : M bool :=
  fun f => (path_exists path (world f), f).

(** [Path(path).stat().st_size] *)
Definition call_stat_size (path : string) : M Z :=
  fun f => (path_stat_size path (world f), f).

(** Phase 1, the body of [for path in deletes].  (The log line of the
    handler is not modelled.) *)
Definition delete_one (path : string) : M unit :=
  try_except
    (count <- call_delete path ;;
     if count >? 0 then incr_deleted else incr_skipped)
    (fun _ => incr_errors).

(** The size re-check of phase 2: [true] when the file is to be indexed,
    [false] when the loop goes on to the next path ([continue]). *)
Definition size_recheck (path : string) : M bool :=
  try_except_OSError
    (size <- call_stat_size path ;;
     if size >? size_ceiling then (incr_skipped ;;; ret false) else ret true)
    (incr_skipped ;;; ret false).

(** Phase 2, the body of [for path in upserts].  ([await asyncio.sleep(0)]
    only yields to the event loop.) *)
Definition upsert_one (path : string) : M unit :=
  present <- call_exists path ;;
  if negb present then incr_skipped
  else
    go <- size_recheck path ;;
    if negb go then ret tt
    else
      try_except
        (chunks <- call_add_file path ;;
         if chunks >? 0 then incr_indexed else incr_skipped)
        (fun _ => incr_errors).

(** The snapshot, the clearing of the ledger and the cap: the batch to
    process now, and the ledger that holds the overflow. *)
Definition snapshot_and_cap (w : ProjectWatcher) : PyDict.t string * ProjectWatcher :=
  let batch := PyDict.copy (_pending_changes w) in
  let w1 := with_pending [] w in
  if Z.of_nat (List.length batch) >? max_batch_size w then
    let items := PyDict.items batch in
    let overflow := PyDict.of_items (PyList.slice_from (max_batch_size w) items) in
    let batch' := PyDict.of_items (PyList.slice_to (max_batch_size w) items) in
    (batch', with_pending (PyDict.update (_pending_changes w1) overflow) w1)
  else (batch, w1).

(** [{p for p, a in batch.items() if a == 'deleted'}], as iterated. *)
Definition deletes_of (batch : PyDict.t string) : list string :=
  set_iter (map fst (filter (fun pa => String.eqb (snd pa) "deleted") batch)).

(** [{p for p, a in batch.items() if a != 'deleted'}], as iterated. *)
Definition upserts_of (batch : PyDict.t string) : list string :=
  set_iter (map fst (filter (fun pa => negb (String.eqb (snd pa) "deleted")) batch)).

(** The four updates of [self.stats] after the two phases.  (The cache
    clean-up before them swallows its own failures and touches nothing
    modelled here; the summary log line is not modelled.) *)
Definition update_stats : M unit :=
  fun f =>
    let s := stats (self f) in
    let c := counts f in
    (Ok tt,
     mkFrame
       (with_stats (mkStats (files_indexed s + indexed c)
                            (files_deleted s + deleted c)
                            (batches_processed s + 1)
                            (stat_errors s + errors c)) (self f))
       (world f) c).

(** The body of the outer [try]. *)
Definition phases (deletes upserts : list string) : M unit :=
  for_each deletes delete_one ;;;
  for_each upserts upsert_one ;;;
  update_stats.

(** The outer handler: [self.stats['errors'] += 1]. *)
Definition on_batch_error : M unit :=
  modify_self (fun w =>
    let s := stats w in
    with_stats (mkStats (files_indexed s) (files_deleted s)
                        (batches_processed s) (stat_errors s + 1)) w).

(** The [finally] block. *)
Definition finalizer : M unit :=
  modify_self (fun w =>
    let w1 := with_processing false w in
    match _pending_changes w1 with
    | [] => w1
    | _ :: _ => _reset_debounce w1
    end).

(** [_process_batch], run without any other task of the loop in between. *)
Definition _process_batch (w : ProjectWatcher) (env : World) : result unit * Frame :=
  match _pending_changes w with
  | [] => (Ok tt, mkFrame w env zero_counters)
  | _ :: _ =>
      let w1 := with_processing true w in
      let '(batch, w2) := snapshot_and_cap w1 in
      try_finally
        (try_except (phases (deletes_of batch) (upserts_of batch))
                    (fun _ => on_batch_error))
        finalizer
        (mkFrame w2 env zero_counters)
  end.

(** *** The scheduler and the tasks of the event loop

    The watcher's coroutines run on one cooperative loop: a coroutine runs
    alone from one [await] to the next.  [System] is the watcher together
    with the batches that are suspended at an [await] inside
    [_process_batch]; an [event] is one stretch of one coroutine.  The
    visit of one path by a batch is taken as one stretch: what may run
    between its [await]s writes the ledger and the timer, which the visit
    neither reads nor writes.  A timer callback may run at any time,
    whatever [_debounce_handle] holds. *)

(** [_is_git_active] *)
Definition _is_git_active (w : ProjectWatcher) (env : World) : result bool :=
  let git_dir := joinpath (project_root w) ".git" in
  match path_is_dir git_dir env with
  | Raise e => Raise e
  | Ok false => Ok false
  | Ok true => path_exists (joinpath git_dir "index.lock") env
  end.

(** A batch suspended inside the outer [try] of [_process_batch]: the paths
    its two loops still have to visit, and its local counters. *)
Record Task : Type := mkTask {
  t_deletes : list string;
  t_upserts : list string;
  t_counts : Counters
}.

Record System : Type := mkSystem {
  watcher : ProjectWatcher;
  env : World;
  in_flight : list Task
}.

Definition initial (root db : string) (cap : Z) (e : World) : System :=
  mkSystem (new_watcher root db cap) e [].

(** [_process_batch] from its first line up to the loops. *)
Definition start_batch (s : System) : System :=
  match _pending_changes (watcher s) with
  | [] => s
  | _ :: _ =>
      let '(batch, w2) := snapshot_and_cap (with_processing true (watcher s)) in
      mkSystem w2 (env s)
        (in_flight s ++ [mkTask (deletes_of batch) (upserts_of batch) zero_counters])
  end.

(** [_trigger_processing], the coroutine the timer callback starts.  When
    [_is_git_active] raises, the coroutine ends there. *)
Definition _trigger_processing (s : System) : System :=
  if _stopped (watcher s) then s
  else
    match _is_git_active (watcher s) (env s) with
    | Raise _ => s
    | Ok true =>
        mkSystem (with_handle (Some GitSettleSeconds) (watcher s)) (env s) (in_flight s)
    | Ok false =>
        if _processing (watcher s)
        then mkSystem (_reset_debounce (watcher s)) (env s) (in_flight s)
        else start_batch s
    end.

(** What is left of [_process_batch] once the loops are over ([r] is [Ok])
    or were left by an exception ([r] is [Raise]): the statistics or the
    outer handler, then the [finally] block. *)
Definition close_batch (r : result unit) : M unit :=
  try_finally
    (try_except (match r with Ok _ => update_stats | Raise e => fun f => (Raise e, f) end)
                (fun _ => on_batch_error))
    finalizer.

(** A suspended batch resumes and runs to its next [await], or to its end:
    it visits one path, or finishes. *)
Definition advance (t : Task) (w : ProjectWatcher) (e : World)
  : option Task * ProjectWatcher * World :=
  let f := mkFrame w e (t_counts t) in
  match t_deletes t, t_upserts t with
  | p :: ds, _ =>
      match delete_one p f with
      | (Ok _, f') => (Some (mkTask ds (t_upserts t) (counts f')), self f', world f')
      | (Raise x, f') =>
          let f'' := snd (close_batch (Raise x) f') in (None, self f'', world f'')
      end
  | [], p :: us =>
      match upsert_one p f with
      | (Ok _, f') => (Some (mkTask [] us (counts f')), self f', world f')
      | (Raise x, f') =>
          let f'' := snd (close_batch (Raise x) f') in (None, self f'', world f'')
      end
  | [], [] =>
      let f'' := snd (close_batch (Ok tt) f) in (None, self f'', world f'')
  end.

(** Replace or drop the [i]-th element of a list. *)
Fixpoint put_nth {A : Type} (i : nat) (x : option A) (l : list A) : list A :=
  match l, i with
  | [], _ => []
  | _ :: l', O => match x with Some y => y :: l' | None => l' end
  | a :: l', S j => a :: put_nth j x l'
  end.

Inductive event : Type :=
| Change (action path : string)   (* the drain loop takes an event off the queue *)
| TimerFired                      (* a [call_later] callback runs *)
| Resume (i : nat)                (* the [i]-th suspended batch resumes *)
| Stop                            (* [stop()] *)
| Env (e : World).                (* the file system or the store changes *)

Definition step (s : System) (ev : event) : System :=
  match ev with
  | Change action path =>
      if _stopped (watcher s) then s
      else mkSystem (drain_event (action, path) (watcher s)) (env s) (in_flight s)
  | TimerFired => _trigger_processing s
  | Resume i =>
      match nth_error (in_flight s) i with
      | None => s
      | Some t =>
          let '(t', w', e') := advance t (watcher s) (env s) in
          mkSystem w' e' (put_nth i t' (in_flight s))
      end
  | Stop =>
      mkSystem (with_handle None (with_stopped true (watcher s))) (env s) (in_flight s)
  | Env e => mkSystem (watcher s) e (in_flight s)
  end.

Definition run (s : System) (evs : list event) : System := fold_left step evs s.

(** The states the loop can be in. *)
Inductive reachable (root db : string) (cap : Z) : System -> Prop :=
| reach_init e : reachable root db cap (initial root db cap e)
| reach_step s ev : reachable root db cap s -> reachable root db cap (step s ev).

(** The scheduler's guarantee: the flag is up exactly while one batch is
    suspended, and there is never a second one. *)
Definition one_batch (s : System) : Prop :=
  (_processing (watcher s) = true /\ List.length (in_flight s) = 1%nat) \/
  (_processing (watcher s) = false /\ in_flight s = []).

(** *** One path at a time *)

(** Whether the store raises when asked to delete [path]. *)
Definition delete_raises (path : string) (f : Frame) : bool :=
  match fst (delete_by_path_async path (db_path (self f)) (world f)) with
  | Raise _ => true
  | Ok _ => false
  end.

(** Whether visiting [path] in phase 2 reaches the store and the store
    raises. *)
Definition add_file_raises (path : string) (f : Frame) : bool :=
  match path_exists path (world f), path_stat_size path (world f) with
  | Ok true, Ok size =>
      if size >? size_ceiling then false
      else match fst (add_file_async path (db_path (self f)) (world f)) with
           | Raise _ => true
           | Ok _ => false
           end
  | _, _ => false
  end.

(** The paths of a loop on which [raises] held when they were visited. *)
Fixpoint failures (raises : string -> Frame -> bool) (body : string -> M unit)
    (paths : list string) (f : Frame) : list string :=
  match paths with
  | [] => []
  | p :: ps =>
      (if raises p f then [p] else []) ++ failures raises body ps (snd (body p f))
  end.

(** The probes of phase 2 behave when [exists()] returns and [stat()]
    raises nothing but [OSError]. *)
Definition probes_behave : Prop :=
  forall path e,
    (exists b, path_exists path e = Ok b) /\
    path_stat_size path e <> Raise OtherException.

(** Iterating a set visits each of its elements once. *)
Definition set_iter_sound : Prop :=
  forall l, NoDup l -> Permutation (set_iter l) l.

Definition bump (b : bool) : Z := if b then 1 else 0.

(** Visiting a path to delete never raises, leaves the watcher alone and
    counts the path once, as an error exactly when the store raised. *)
Lemma delete_one_spec path f :
  exists f',
    delete_one path f = (Ok tt, f') /\
    self f' = self f /\
    total (counts f') = total (counts f) + 1 /\
    errors (counts f') = errors (counts f) + bump (delete_raises path f).
Proof.
  unfold delete_raises, delete_one, try_except, bind, call_delete.
  destruct (delete_by_path_async path (db_path (self f)) (world f)) as [[count | e] w'];
    simpl.
  - destruct (count >? 0); eexists; (split; [reflexivity |]); simpl;
      unfold total; simpl; repeat split; lia.
  - eexists; (split; [reflexivity |]); simpl; unfold total; simpl; repeat split; lia.
Qed.

Lemma upsert_one_self path f : self (snd (upsert_one path f)) = self f.
Proof.
  unfold upsert_one, bind, call_exists, size_recheck, try_except_OSError, bind,
    call_stat_size, try_except, call_add_file.
  destruct (path_exists path (world f)) as [[|] | e]; simpl; try reflexivity.
  destruct (path_stat_size path (world f)) as [size | [|]]; simpl; try reflexivity.
  destruct (size >? size_ceiling); simpl; try reflexivity.
  destruct (add_file_async path (db_path (self f)) (world f)) as [[chunks | e] w'];
    simpl; try reflexivity.
  destruct (chunks >? 0); reflexivity.
Qed.

(** Visiting a path to index, when the probes behave, does not raise and
    counts the path once, as an error exactly when the store raised. *)
Lemma upsert_one_spec path f :
  probes_behave ->
  exists f',
    upsert_one path f = (Ok tt, f') /\
    self f' = self f /\
    total (counts f') = total (counts f) + 1 /\
    errors (counts f') = errors (counts f) + bump (add_file_raises path f).
Proof.
  intros Hp. destruct (Hp path (world f)) as [[b Hb] Hstat].
  unfold add_file_raises.
  unfold upsert_one, bind, call_exists, size_recheck, try_except_OSError, bind,
    call_stat_size, try_except, call_add_file.
  rewrite Hb. destruct b; simpl.
  2: { eexists; (split; [reflexivity |]); unfold total; simpl; repeat split; lia. }
  destruct (path_stat_size path (world f)) as [size | [|]]; simpl.
  - destruct (size >? size_ceiling); simpl.
    + eexists; (split; [reflexivity |]); unfold total; simpl; repeat split; lia.
    + destruct (add_file_async path (db_path (self f)) (world f)) as [[chunks | e] w'];
        simpl.
      * destruct (chunks >? 0); eexists; (split; [reflexivity |]);
          unfold total; simpl; repeat split; lia.
      * eexists; (split; [reflexivity |]); unfold total; simpl; repeat split; lia.
  - eexists; (split; [reflexivity |]); unfold total; simpl; repeat split; lia.
  - congruence.
Qed.

(** An [OSError] of the size re-check is caught and counts the path as
    skipped, not as an error. *)
Lemma upsert_one_stat_OSError path f :
  path_exists path (world f) = Ok true ->
  path_stat_size path (world f) = Raise OSError ->
  upsert_one path f =
    (Ok tt,
     mkFrame (self f) (world f)
       (mkCounters (indexed (counts f)) (deleted (counts f))
                   (skipped (counts f) + 1) (errors (counts f)))).
Proof.
  intros He Hs.
  unfold upsert_one, bind, call_exists, size_recheck, try_except_OSError, bind,
    call_stat_size.
  rewrite He. simpl. rewrite Hs. reflexivity.
Qed.

(** An exception of [exists()] is caught by no handler of the loop. *)
Lemma upsert_one_exists_raises path f x :
  path_exists path (world f) = Raise x ->
  upsert_one path f = (Raise x, f).
Proof.
  intros He. unfold upsert_one, bind, call_exists. now rewrite He.
Qed.

(** *** The two loops *)

Lemma for_each_delete_spec paths f :
  exists f',
    for_each paths delete_one f = (Ok tt, f') /\
    self f' = self f /\
    total (counts f') = total (counts f) + Z.of_nat (List.length paths) /\
    errors (counts f') =
      errors (counts f) +
      Z.of_nat (List.length (failures delete_raises delete_one paths f)).
Proof.
  revert f. induction paths as [| p paths IH]; intros f.
  - exists f. simpl. unfold ret. repeat split; lia.
  - destruct (delete_one_spec p f) as (f1 & H1 & Hs1 & Ht1 & He1).
    destruct (IH f1) as (f2 & H2 & Hs2 & Ht2 & He2).
    exists f2. cbn [for_each failures]. unfold bind at 1. rewrite H1.
    split; [exact H2 |]. split; [congruence |]. split.
    + rewrite Ht2, Ht1. cbn [List.length]. lia.
    + rewrite He2, He1. cbn [snd]. rewrite length_app.
      destruct (delete_raises p f); cbn [bump List.length]; lia.
Qed.

Lemma for_each_upsert_spec paths f :
  probes_behave ->
  exists f',
    for_each paths upsert_one f = (Ok tt, f') /\
    self f' = self f /\
    total (counts f') = total (counts f) + Z.of_nat (List.length paths) /\
    errors (counts f') =
      errors (counts f) +
      Z.of_nat (List.length (failures add_file_raises upsert_one paths f)).
Proof.
  intros Hp. revert f. induction paths as [| p paths IH]; intros f.
  - exists f. simpl. unfold ret. repeat split; lia.
  - destruct (upsert_one_spec p f Hp) as (f1 & H1 & Hs1 & Ht1 & He1).
    destruct (IH f1) as (f2 & H2 & Hs2 & Ht2 & He2).
    exists f2. cbn [for_each failures]. unfold bind at 1. rewrite H1.
    split; [exact H2 |]. split; [congruence |]. split.
    + rewrite Ht2, Ht1. cbn [List.length]. lia.
    + rewrite He2, He1. cbn [snd]. rewrite length_app.
      destruct (add_file_raises p f); cbn [bump List.length]; lia.
Qed.

(** Whatever happens in the loops, they leave the watcher alone. *)
Lemma for_each_delete_self paths f :
  self (snd (for_each paths delete_one f)) = self f.
Proof.
  destruct (for_each_delete_spec paths f) as (f' & H & Hs & _).
  now rewrite H.
Qed.

Lemma for_each_upsert_self paths f :
  self (snd (for_each paths upsert_one f)) = self f.
Proof.
  revert f. induction paths as [| p paths IH]; intros f.
  - reflexivity.
  - cbn [for_each]. unfold bind at 1.
    pose proof (upsert_one_self p f) as Hs.
    destruct (upsert_one p f) as [[[] | e] f1]; simpl in *.
    + now rewrite IH.
    + exact Hs.
Qed.

(** *** The snapshot and the cap *)

Lemma snapshot_and_cap_under w :
  PyDict.wf (_pending_changes w) ->
  Z.of_nat (List.length (_pending_changes w)) <= max_batch_size w ->
  snapshot_and_cap w = (_pending_changes w, with_pending [] w).
Proof.
  intros Hwf Hle. unfold snapshot_and_cap.
  rewrite PyDict.copy_wf by assumption.
  destruct (Z.gtb_spec (Z.of_nat (List.length (_pending_changes w))) (max_batch_size w));
    [lia | reflexivity].
Qed.

Lemma snapshot_and_cap_over w :
  PyDict.wf (_pending_changes w) ->
  0 <= max_batch_size w < Z.of_nat (List.length (_pending_changes w)) ->
  snapshot_and_cap w =
    (firstn (Z.to_nat (max_batch_size w)) (_pending_changes w),
     with_pending (skipn (Z.to_nat (max_batch_size w)) (_pending_changes w)) w).
Proof.
  intros Hwf Hcap. unfold snapshot_and_cap.
  rewrite PyDict.copy_wf by assumption.
  destruct (Z.gtb_spec (Z.of_nat (List.length (_pending_changes w))) (max_batch_size w));
    [| lia].
  unfold PyDict.items.
  rewrite PyList.slice_to_nonneg, PyList.slice_from_nonneg by lia.
  rewrite !PyDict.of_items_wf
    by (apply PyDict.wf_firstn || apply PyDict.wf_skipn; assumption).
  cbn [_pending_changes with_pending].
  fold (PyDict.of_items (skipn (Z.to_nat (max_batch_size w)) (_pending_changes w))).
  rewrite PyDict.of_items_wf by (apply PyDict.wf_skipn; assumption).
  reflexivity.
Qed.

Lemma filter_split_perm {A : Type} (p : A -> bool) (l : list A) :
  Permutation (filter p l ++ filter (fun x => negb (p x)) l) l.
Proof.
  induction l as [| a l IH]; simpl.
  - constructor.
  - destruct (p a); simpl.
    + now constructor.
    + symmetry. apply Permutation_cons_app. now symmetry.
Qed.

Lemma keys_filter_NoDup (p : string * string -> bool) (d : PyDict.t string) :
  PyDict.wf d -> NoDup (map fst (filter p d)).
Proof.
  unfold PyDict.wf, PyDict.keys.
  induction d as [| a d IH]; simpl; intros Hnd.
  - constructor.
  - inversion Hnd as [| ? ? Hnotin Hd]; subst.
    destruct (p a); simpl; [| now apply IH].
    constructor; [| now apply IH].
    intros HIn. apply Hnotin.
    apply in_map_iff in HIn. destruct HIn as (x & Hx & HIn).
    apply filter_In in HIn. apply in_map_iff. exists x. tauto.
Qed.

(** The two loops visit, between them, every path of the batch once. *)
Lemma deletes_upserts_partition (batch : PyDict.t string) :
  set_iter_sound -> PyDict.wf batch ->
  Permutation (deletes_of batch ++ upserts_of batch) (PyDict.keys batch).
Proof.
  intros Hset Hwf. unfold deletes_of, upserts_of, PyDict.keys.
  rewrite (Hset _ (keys_filter_NoDup _ _ Hwf)).
  rewrite (Hset _ (keys_filter_NoDup _ _ Hwf)).
  rewrite <- map_app. apply Permutation_map. apply filter_split_perm.
Qed.

(** *** The whole batch *)

(** The loops and the statistics may only change [self.stats]. *)
Lemma phases_self deletes upserts f :
  exists st, self (snd (phases deletes upserts f)) = with_stats st (self f).
Proof.
  unfold phases. unfold bind at 1.
  pose proof (for_each_delete_self deletes f) as Hd.
  destruct (for_each deletes delete_one f) as [[[] | e] f1]; cbn [snd] in *.
  - unfold bind at 1.
    pose proof (for_each_upsert_self upserts f1) as Hu.
    destruct (for_each upserts upsert_one f1) as [[[] | e] f2]; cbn [snd] in *.
    + unfold update_stats. cbn [snd self]. rewrite Hu, Hd. eexists. reflexivity.
    + exists (stats (self f)). rewrite Hu, Hd. now destruct (self f).
  - exists (stats (self f)). rewrite Hd. now destruct (self f).
Qed.

(** However the loops end, [_process_batch] returns normally with the flag
    down, and it has not touched the ledger. *)
Lemma batch_body_closes deletes upserts f :
  exists f',
    try_finally (try_except (phases deletes upserts) (fun _ => on_batch_error))
      finalizer f = (Ok tt, f') /\
    _pending_changes (self f') = _pending_changes (self f) /\
    _processing (self f') = false /\
    _stopped (self f') = _stopped (self f) /\
    max_batch_size (self f') = max_batch_size (self f).
Proof.
  destruct (phases_self deletes upserts f) as [st Hst].
  unfold try_finally, try_except.
  destruct (phases deletes upserts f) as [[[] | e] f1]; cbn [snd] in Hst.
  - unfold finalizer, modify_self. eexists. split; [reflexivity |].
    cbn [self]. rewrite Hst. destruct (self f) as [? ? ? pc ? ? ? ?]. cbn.
    destruct pc; cbn; repeat split.
  - unfold on_batch_error, finalizer, modify_self. eexists. split; [reflexivity |].
    cbn [self]. rewrite Hst. destruct (self f) as [? ? ? pc ? ? ? ?]. cbn.
    destruct pc; cbn; repeat split.
Qed.

(** When the probes behave, both loops run to their end: every path of the
    batch is counted once, the errors are the paths on which the store
    raised, and the statistics are updated. *)
Lemma phases_spec deletes upserts f :
  probes_behave ->
  exists f',
    phases deletes upserts f = (Ok tt, f') /\
    total (counts f') =
      total (counts f) + Z.of_nat (List.length deletes) + Z.of_nat (List.length upserts) /\
    errors (counts f') =
      errors (counts f) +
      Z.of_nat (List.length (failures delete_raises delete_one deletes f)) +
      Z.of_nat (List.length (failures add_file_raises upsert_one upserts
                               (snd (for_each deletes delete_one f)))) /\
    self f' =
      with_stats
        (mkStats (files_indexed (stats (self f)) + indexed (counts f'))
                 (files_deleted (stats (self f)) + deleted (counts f'))
                 (batches_processed (stats (self f)) + 1)
                 (stat_errors (stats (self f)) + errors (counts f')))
        (self f).
Proof.
  intros Hp.
  destruct (for_each_delete_spec deletes f) as (f1 & H1 & Hs1 & Ht1 & He1).
  destruct (for_each_upsert_spec upserts f1 Hp) as (f2 & H2 & Hs2 & Ht2 & He2).
  unfold phases. unfold bind at 1. rewrite H1. unfold bind at 1. rewrite H2.
  unfold update_stats. eexists. split; [reflexivity |].
  cbn [counts self snd]. rewrite Hs2, Hs1. repeat split; lia.
Qed.

Lemma update_is_wf (d : PyDict.t string) (l : list (string * string)) :
  PyDict.wf d -> PyDict.wf (PyDict.update d l).
Proof.
  revert d. induction l as [| [k v] l IH]; intros d Hd.
  - exact Hd.
  - unfold PyDict.update in *. simpl. apply IH. now apply PyDict.wf_set.
Qed.

Lemma of_items_is_wf (l : list (string * string)) : PyDict.wf (PyDict.of_items l).
Proof. apply update_is_wf. constructor. Qed.

(** The batch that is cut out of the ledger never holds a path twice. *)
Lemma snapshot_batch_wf w : PyDict.wf (fst (snapshot_and_cap w)).
Proof.
  unfold snapshot_and_cap.
  destruct (Z.of_nat (List.length (PyDict.copy (_pending_changes w))) >? max_batch_size w);
    cbn [fst]; apply of_items_is_wf.
Qed.

Lemma snapshot_keeps_flags w :
  _processing (snd (snapshot_and_cap w)) = _processing w /\
  _stopped (snd (snapshot_and_cap w)) = _stopped w /\
  stats (snd (snapshot_and_cap w)) = stats w /\
  max_batch_size (snd (snapshot_and_cap w)) = max_batch_size w.
Proof.
  unfold snapshot_and_cap.
  destruct (Z.of_nat (List.length (PyDict.copy (_pending_changes w))) >? max_batch_size w);
    cbn; repeat split.
Qed.

Lemma batch_visits_all (batch : PyDict.t string) :
  set_iter_sound -> PyDict.wf batch ->
  (List.length (deletes_of batch) + List.length (upserts_of batch))%nat =
  List.length batch.
Proof.
  intros Hset Hwf.
  rewrite <- length_app.
  rewrite (Permutation_length (deletes_upserts_partition batch Hset Hwf)).
  unfold PyDict.keys. apply length_map.
Qed.

(** [_process_batch] always returns normally: at once when the ledger is
    empty, and otherwise with the flag down and the ledger exactly as the
    snapshot and the cap left it. *)
Lemma process_batch_returns w e :
  exists f',
    _process_batch w e = (Ok tt, f') /\
    (_pending_changes w = [] -> self f' = w) /\
    (_pending_changes w <> [] ->
     _processing (self f') = false /\
     _pending_changes (self f') =
     _pending_changes (snd (snapshot_and_cap (with_processing true w)))).
Proof.
  unfold _process_batch.
  destruct (_pending_changes w) as [| kv rest] eqn:Hpend.
  - eexists. split; [reflexivity |]. cbn. split; [reflexivity | congruence].
  - destruct (snapshot_and_cap (with_processing true w)) as [batch w2] eqn:Hsnap.
    destruct (batch_body_closes (deletes_of batch) (upserts_of batch)
                (mkFrame w2 e zero_counters)) as (f' & Hrun & Hp & Hflag & _).
    exists f'. split; [exact Hrun |]. split; [congruence |].
    intros _. split; [exact Hflag | exact Hp].
Qed.

(** When the probes behave, the batch completes: every path of the batch
    is counted once; the errors are the paths on which the store raised
    when they were visited, and they are added to the lifetime counter. *)
Lemma process_batch_spec w e :
  probes_behave -> set_iter_sound ->
  _pending_changes w <> [] ->
  let snap := snapshot_and_cap (with_processing true w) in
  let start := mkFrame (snd snap) e zero_counters in
  exists f',
    _process_batch w e = (Ok tt, f') /\
    total (counts f') = Z.of_nat (List.length (fst snap)) /\
    errors (counts f') =
      Z.of_nat (List.length
        (failures delete_raises delete_one (deletes_of (fst snap)) start)) +
      Z.of_nat (List.length
        (failures add_file_raises upsert_one (upserts_of (fst snap))
           (snd (for_each (deletes_of (fst snap)) delete_one start)))) /\
    stat_errors (stats (self f')) = stat_errors (stats w) + errors (counts f') /\
    batches_processed (stats (self f')) = batches_processed (stats w) + 1 /\
    _processing (self f') = false.
Proof.
  intros Hp Hset Hne. cbv zeta.
  pose proof (snapshot_batch_wf (with_processing true w)) as Hwf.
  pose proof (snapshot_keeps_flags (with_processing true w)) as (_ & _ & Hstats & _).
  unfold _process_batch.
  destruct (_pending_changes w) as [| kv rest] eqn:Hpend; [congruence |].
  destruct (snapshot_and_cap (with_processing true w)) as [batch w2].
  cbn [fst snd] in *.
  set (start := mkFrame w2 e zero_counters).
  destruct (phases_spec (deletes_of batch) (upserts_of batch) start Hp)
    as (f1 & Hrun & Ht & He & Hself).
  unfold try_finally, try_except. rewrite Hrun.
  unfold finalizer, modify_self. eexists. split; [reflexivity |].
  cbn [counts self]. rewrite Hself.
  split.
  { rewrite Ht. cbn. pose proof (batch_visits_all batch Hset Hwf). lia. }
  split.
  { rewrite He. cbn. lia. }
  subst start. cbn [self] in *. cbn in Hstats.
  destruct w2 as [? ? ? pc ? ? ? st2]. cbn in *. subst st2.
  destruct pc; cbn; repeat split.
Qed.

(** *** The scheduler keeps one batch in flight *)

Lemma close_batch_spec r f :
  exists f',
    close_batch r f = (Ok tt, f') /\
    _processing (self f') = false /\
    _pending_changes (self f') = _pending_changes (self f).
Proof.
  unfold close_batch, try_finally, try_except.
  destruct r as [[] | x].
  - unfold update_stats, finalizer, modify_self. eexists. split; [reflexivity |].
    cbn [self]. destruct (self f) as [? ? ? pc ? ? ? ?]. cbn.
    destruct pc; cbn; split; reflexivity.
  - unfold on_batch_error, finalizer, modify_self. eexists. split; [reflexivity |].
    cbn [self]. destruct (self f) as [? ? ? pc ? ? ? ?]. cbn.
    destruct pc; cbn; split; reflexivity.
Qed.

(** A resumed batch either stays in flight and leaves the watcher alone, or
    ends with the flag down. *)
Lemma advance_spec t w e :
  match advance t w e with
  | (Some _, w', _) => w' = w
  | (None, w', _) => _processing w' = false
  end.
Proof.
  unfold advance.
  destruct (t_deletes t) as [| p ds].
  - destruct (t_upserts t) as [| p us].
    + destruct (close_batch_spec (Ok tt) (mkFrame w e (t_counts t))) as (f' & H & Hf & _).
      rewrite H. exact Hf.
    + pose proof (upsert_one_self p (mkFrame w e (t_counts t))) as Hs.
      destruct (upsert_one p (mkFrame w e (t_counts t))) as [[[] | x] f1];
        cbn [snd self] in Hs.
      * exact Hs.
      * destruct (close_batch_spec (Raise x) f1) as (f' & H & Hf & _).
        rewrite H. exact Hf.
  - destruct (delete_one_spec p (mkFrame w e (t_counts t))) as (f1 & H1 & Hs & _).
    rewrite H1. exact Hs.
Qed.

Lemma start_batch_spec s :
  _processing (watcher s) = false -> in_flight s = [] -> one_batch (start_batch s).
Proof.
  intros Hflag Hnone. unfold start_batch.
  destruct (_pending_changes (watcher s)) as [| kv rest].
  - right. split; assumption.
  - pose proof (snapshot_keeps_flags (with_processing true (watcher s))) as (Hp & _).
    destruct (snapshot_and_cap (with_processing true (watcher s))) as [batch w2].
    left. cbn [watcher in_flight snd] in *. rewrite Hnone. split; [exact Hp | reflexivity].
Qed.

Lemma one_batch_transfer s s' :
  _processing (watcher s') = _processing (watcher s) ->
  in_flight s' = in_flight s ->
  one_batch s -> one_batch s'.
Proof.
  unfold one_batch. intros -> ->. tauto.
Qed.

Lemma step_one_batch s ev : one_batch s -> one_batch (step s ev).
Proof.
  intros Hinv. destruct ev as [action path | | i | | e]; cbn [step].
  - destruct (_stopped (watcher s)); [exact Hinv |].
    apply one_batch_transfer with (s := s); [reflexivity | reflexivity | exact Hinv].
  - unfold _trigger_processing.
    destruct (_stopped (watcher s)); [exact Hinv |].
    destruct (_is_git_active (watcher s) (env s)) as [[|] | x]; try exact Hinv.
    destruct (_processing (watcher s)) eqn:Hflag.
    + apply one_batch_transfer with (s := s); [cbn; congruence | reflexivity | exact Hinv].
    + destruct Hinv as [[Hf Hl] | [Hf Hl]]; [congruence |].
      now apply start_batch_spec.
  - destruct (nth_error (in_flight s) i) as [t |] eqn:Hnth; [| exact Hinv].
    destruct Hinv as [[Hf Hl] | [Hf Hl]].
    2: { rewrite Hl in Hnth. destruct i; discriminate. }
    destruct (in_flight s) as [| t0 [| t1 rest]] eqn:Htasks; try discriminate.
    destruct i as [| i]; [| destruct i; discriminate].
    cbn in Hnth. injection Hnth as ->.
    pose proof (advance_spec t (watcher s) (env s)) as Hadv.
    destruct (advance t (watcher s) (env s)) as [[[t' |] w'] e']; cbn.
    + left. subst w'. split; [exact Hf | reflexivity].
    + right. split; [exact Hadv | reflexivity].
  - apply one_batch_transfer with (s := s); [reflexivity | reflexivity | exact Hinv].
  - apply one_batch_transfer with (s := s); [reflexivity | reflexivity | exact Hinv].
Qed.

Lemma reachable_one_batch root db cap s :
  reachable root db cap s -> one_batch s.
Proof.
  induction 1 as [e | s ev Hs IH].
  - right. split; reflexivity.
  - now apply step_one_batch.
Qed.

(** The timer firing while the flag is up starts nothing. *)
Lemma trigger_while_processing s :
  _processing (watcher s) = true ->
  in_flight (_trigger_processing s) = in_flight s /\
  _processing (watcher (_trigger_processing s)) = true /\
  env (_trigger_processing s) = env s /\
  _pending_changes (watcher (_trigger_processing s)) = _pending_changes (watcher s).
Proof.
  intros Hflag. unfold _trigger_processing.
  destruct (_stopped (watcher s)); [now repeat split |].
  destruct (_is_git_active (watcher s) (env s)) as [[|] | x]; try now repeat split.
  rewrite Hflag. now repeat split.
Qed.

(** *** A batch resumed path by path is [_process_batch] *)

(** Resume the first suspended batch [n] times in a row. *)
Definition drive (n : nat) (s : System) : System := run s (repeat (Resume 0) n).

Definition body_of (deletes upserts : list string) : M unit :=
  try_finally (try_except (phases deletes upserts) (fun _ => on_batch_error)) finalizer.

Lemma frame_eta f : mkFrame (self f) (world f) (counts f) = f.
Proof. now destruct f. Qed.

Lemma drive_idle n w e : drive n (mkSystem w e []) = mkSystem w e [].
Proof.
  unfold drive. induction n as [| n IH]; [reflexivity | exact IH].
Qed.

Lemma phases_cons_delete p ds us f f1 :
  delete_one p f = (Ok tt, f1) -> phases (p :: ds) us f = phases ds us f1.
Proof.
  intros H. unfold phases. cbn [for_each]. unfold bind. now rewrite H.
Qed.

Lemma phases_cons_upsert p us f f1 :
  upsert_one p f = (Ok tt, f1) -> phases [] (p :: us) f = phases [] us f1.
Proof.
  intros H. unfold phases. cbn [for_each]. unfold bind, ret. now rewrite H.
Qed.

Lemma phases_upsert_raises p us f f1 x :
  upsert_one p f = (Raise x, f1) -> phases [] (p :: us) f = (Raise x, f1).
Proof.
  intros H. unfold phases. cbn [for_each]. unfold bind, ret. now rewrite H.
Qed.

Lemma drive_upserts us : forall c w e,
  drive (List.length us + 1) (mkSystem w e [mkTask [] us c]) =
  let f' := snd (body_of [] us (mkFrame w e c)) in
  mkSystem (self f') (world f') [].
Proof.
  induction us as [| p us IH]; intros c w e.
  - reflexivity.
  - cbn [List.length Nat.add]. unfold drive. cbn [repeat run fold_left].
    cbn [step in_flight nth_error advance t_deletes t_upserts t_counts watcher env].
    destruct (upsert_one p (mkFrame w e c)) as [[[] | x] f1] eqn:Hup.
    + cbn [put_nth]. fold (run (mkSystem (self f1) (world f1) [mkTask [] us (counts f1)])
                             (repeat (Resume 0) (List.length us + 1))).
      fold (drive (List.length us + 1)
              (mkSystem (self f1) (world f1) [mkTask [] us (counts f1)])).
      rewrite IH. rewrite frame_eta. cbv zeta. unfold body_of, try_finally, try_except.
      now rewrite phases_cons_upsert with (f1 := f1) by exact Hup.
    + cbn [put_nth].
      fold (run (mkSystem (self (snd (close_batch (Raise x) f1)))
                          (world (snd (close_batch (Raise x) f1))) [])
                (repeat (Resume 0) (List.length us + 1))).
      fold (drive (List.length us + 1)
              (mkSystem (self (snd (close_batch (Raise x) f1)))
                        (world (snd (close_batch (Raise x) f1))) [])).
      rewrite drive_idle. cbv zeta.
      unfold body_of, close_batch, try_finally, try_except.
      now rewrite phases_upsert_raises with (f1 := f1) (x := x) by exact Hup.
Qed.

Lemma drive_task ds : forall us c w e,
  drive (List.length ds + (List.length us + 1)) (mkSystem w e [mkTask ds us c]) =
  let f' := snd (body_of ds us (mkFrame w e c)) in
  mkSystem (self f') (world f') [].
Proof.
  induction ds as [| p ds IH]; intros us c w e.
  - apply drive_upserts.
  - cbn [List.length Nat.add]. unfold drive. cbn [repeat run fold_left].
    cbn [step in_flight nth_error advance t_deletes t_upserts t_counts watcher env].
    destruct (delete_one_spec p (mkFrame w e c)) as (f1 & H1 & _).
    rewrite H1. cbn [put_nth].
    fold (run (mkSystem (self f1) (world f1) [mkTask ds us (counts f1)])
              (repeat (Resume 0) (List.length ds + (List.length us + 1)))).
    fold (drive (List.length ds + (List.length us + 1))
            (mkSystem (self f1) (world f1) [mkTask ds us (counts f1)])).
    rewrite IH. rewrite frame_eta. cbv zeta. unfold body_of, try_finally, try_except.
    now rewrite phases_cons_delete with (f1 := f1) by exact H1.
Qed.

(** From a state with no batch in flight, starting a batch and resuming it
    until it ends, with nothing in between, does to the watcher and to the
    world what [_process_batch] does. *)
Lemma start_and_drive s :
  in_flight s = [] ->
  exists n,
    let s' := drive n (start_batch s) in
    let f' := snd (_process_batch (watcher s) (env s)) in
    watcher s' = self f' /\ env s' = world f' /\ in_flight s' = [].
Proof.
  intros Hnone. unfold start_batch, _process_batch.
  destruct (_pending_changes (watcher s)) as [| kv rest].
  - exists 0%nat. cbn. repeat split. exact Hnone.
  - destruct (snapshot_and_cap (with_processing true (watcher s))) as [batch w2].
    exists (List.length (deletes_of batch) + (List.length (upserts_of batch) + 1))%nat.
    rewrite Hnone. cbn [app]. rewrite drive_task. cbv zeta.
    unfold body_of. repeat split.
Qed.

(** *** The batch cap *)

(** C2.  A ledger of [M] entries, more than the cap: the batch is the
    first [cap] entries of the ledger in its iteration order, the two loops
    visit exactly the paths of those entries, and, with no event arriving
    while the batch runs, [_process_batch] returns with the other
    [M - cap] entries in the ledger.  When the probes behave, each of the
    [cap] entries has been counted once. *)
Theorem process_batch_cap (w : ProjectWatcher) (e : World) (cap M : nat) :
  set_iter_sound ->
  PyDict.wf (_pending_changes w) ->
  max_batch_size w = Z.of_nat cap ->
  List.length (_pending_changes w) = M ->
  (cap < M)%nat ->
  let batch := fst (snapshot_and_cap (with_processing true w)) in
  batch = firstn cap (_pending_changes w) /\
  List.length batch = cap /\
  Permutation (deletes_of batch ++ upserts_of batch)
              (PyDict.keys (firstn cap (_pending_changes w))) /\
  exists f',
    _process_batch w e = (Ok tt, f') /\
    _pending_changes (self f') = skipn cap (_pending_changes w) /\
    List.length (_pending_changes (self f')) = (M - cap)%nat /\
    (probes_behave -> total (counts f') = Z.of_nat cap).
Proof.
  intros Hset Hwf Hcap HM Hlt. cbv zeta.
  assert (Hsnap : snapshot_and_cap (with_processing true w) =
                  (firstn cap (_pending_changes w),
                   with_pending (skipn cap (_pending_changes w)) (with_processing true w))).
  { rewrite snapshot_and_cap_over; cbn [_pending_changes max_batch_size with_processing].
    - now rewrite Hcap, Nat2Z.id.
    - exact Hwf.
    - lia. }
  assert (Hne : _pending_changes w <> []).
  { intros Hnil. rewrite Hnil in HM. simpl in HM. lia. }
  rewrite Hsnap. cbn [fst].
  split; [reflexivity |].
  split; [rewrite length_firstn; lia |].
  split; [apply deletes_upserts_partition; [exact Hset | now apply PyDict.wf_firstn] |].
  destruct (process_batch_returns w e) as (f' & Hrun & _ & Hdone).
  destruct (Hdone Hne) as [_ Hpend]. rewrite Hsnap in Hpend. cbn in Hpend.
  exists f'. split; [exact Hrun |]. split; [exact Hpend |].
  split; [rewrite Hpend, length_skipn; lia |].
  intros Hp.
  destruct (process_batch_spec w e Hp Hset Hne) as (f'' & Hrun' & Ht & _).
  rewrite Hrun in Hrun'. injection Hrun' as <-.
  rewrite Ht, Hsnap. cbn [fst]. rewrite length_firstn. lia.
Qed.

(** *** Failures stay with their path *)

(** What the handlers inside the loops do isolate.  An exception of the
    index store while a path is visited, in either phase, is caught and
    counted as an error, and the loop goes on; an [OSError] of the size
    re-check is caught too, and counts the path as skipped.  So, when
    [exists()] returns and [stat()] raises nothing else, every batch
    completes: each of its paths is counted once, the errors are the paths
    on which the store raised, and they are added to the lifetime
    counter. *)
Theorem batch_failure_isolation (w : ProjectWatcher) (e : World) :
  probes_behave -> set_iter_sound ->
  _pending_changes w <> [] ->
  let snap := snapshot_and_cap (with_processing true w) in
  let start := mkFrame (snd snap) e zero_counters in
  (forall path f, exists f',
      delete_one path f = (Ok tt, f') /\
      errors (counts f') = errors (counts f) + bump (delete_raises path f)) /\
  (forall path f, exists f',
      upsert_one path f = (Ok tt, f') /\
      errors (counts f') = errors (counts f) + bump (add_file_raises path f)) /\
  (forall path f,
      path_exists path (world f) = Ok true ->
      path_stat_size path (world f) = Raise OSError ->
      exists f',
        upsert_one path f = (Ok tt, f') /\
        skipped (counts f') = skipped (counts f) + 1 /\
        errors (counts f') = errors (counts f)) /\
  exists f',
    _process_batch w e = (Ok tt, f') /\
    total (counts f') = Z.of_nat (List.length (fst snap)) /\
    errors (counts f') =
      Z.of_nat (List.length
        (failures delete_raises delete_one (deletes_of (fst snap)) start)) +
      Z.of_nat (List.length
        (failures add_file_raises upsert_one (upserts_of (fst snap))
           (snd (for_each (deletes_of (fst snap)) delete_one start)))) /\
    stat_errors (stats (self f')) = stat_errors (stats w) + errors (counts f') /\
    batches_processed (stats (self f')) = batches_processed (stats w) + 1 /\
    _processing (self f') = false.
Proof.
  intros Hp Hset Hne. cbv zeta.
  split.
  { intros path f. destruct (delete_one_spec path f) as (f' & H & _ & _ & He).
    exists f'. split; assumption. }
  split.
  { intros path f. destruct (upsert_one_spec path f Hp) as (f' & H & _ & _ & He).
    exists f'. split; assumption. }
  split.
  { intros path f Hex Hst. rewrite (upsert_one_stat_OSError path f Hex Hst).
    eexists. split; [reflexivity |]. split; reflexivity. }
  exact (process_batch_spec w e Hp Hset Hne).
Qed.

(** *** One batch at a time *)

(** C8 (as amended).  In every state the loop can reach, the processing
    flag is up exactly while one batch is in flight, and there is never a
    second one.  When the timer fires with the flag up, no batch is
    started: a stopped watcher does nothing, a git operation in progress
    reschedules for the git-settle interval, and otherwise the timer is
    rescheduled for the debounce interval. *)
Theorem one_batch_in_flight (root db : string) (cap : Z) (s : System) :
  reachable root db cap s ->
  one_batch s /\
  (_processing (watcher s) = true ->
   in_flight (step s TimerFired) = in_flight s /\
   _processing (watcher (step s TimerFired)) = true /\
   (_stopped (watcher s) = true -> step s TimerFired = s) /\
   (_stopped (watcher s) = false ->
    _is_git_active (watcher s) (env s) = Ok true ->
    step s TimerFired =
      mkSystem (with_handle (Some GitSettleSeconds) (watcher s)) (env s) (in_flight s)) /\
   (_stopped (watcher s) = false ->
    _is_git_active (watcher s) (env s) = Ok false ->
    step s TimerFired = mkSystem (_reset_debounce (watcher s)) (env s) (in_flight s))).
Proof.
  intros Hreach. split; [now apply reachable_one_batch with (root := root) (db := db) (cap := cap) |].
  intros Hflag. cbn [step].
  destruct (trigger_while_processing s Hflag) as (Hin & Hp & _).
  split; [exact Hin |]. split; [exact Hp |].
  unfold _trigger_processing. repeat split.
  - intros ->. reflexivity.
  - intros -> ->. reflexivity.
  - intros -> ->. now rewrite Hflag.
Qed.

End Batch.

Arguments mkFrame {World} self world counts.
Arguments self {World} f.
Arguments world {World} f.
Arguments counts {World} f.
Arguments mkSystem {World} watcher env in_flight.
Arguments watcher {World} s.
Arguments env {World} s.
Arguments in_flight {World} s.

(** *** The merge rule *)

(** C1.  One event [(action, path)] leaves in the ledger, for [path],
    [deleted] when the action is [deleted], [modified] when the ledger held
    [deleted] for it, and the action itself otherwise, and it leaves every
    other path as it was.  So after any events that end with the deletion
    of [path] the ledger holds [deleted] for it, and after a deletion of
    [path] followed (with events on other paths in between or not, and no
    batch) by any other action on [path] it holds [modified]. *)
Theorem drain_queue_merge_rule (w : ProjectWatcher) :
  (forall action path,
      PyDict.get path (_pending_changes (drain_event (action, path) w)) =
      Some (if String.eqb action "deleted" then "deleted"
            else if is_deleted (PyDict.get path (_pending_changes w)) then "modified"
            else action)) /\
  (forall action path q,
      q <> path ->
      PyDict.get q (_pending_changes (drain_event (action, path) w)) =
      PyDict.get q (_pending_changes w)) /\
  (forall evs path,
      PyDict.get path (_pending_changes (_drain_queue (evs ++ [("deleted", path)]) w)) =
      Some "deleted") /\
  (forall evs others action path,
      action <> "deleted" ->
      Forall (fun ev => snd ev <> path) others ->
      PyDict.get path
        (_pending_changes
           (_drain_queue (evs ++ [("deleted", path)] ++ others ++ [(action, path)]) w)) =
      Some "modified").
Proof.
  split; [| split; [| split]].
  - intros action path. rewrite pending_drain_event. apply merge_get_same.
  - intros action path q Hq. rewrite pending_drain_event. now apply merge_get_other.
  - intros evs path. rewrite drain_queue_app. cbn [_drain_queue fold_left].
    rewrite pending_drain_event. cbn [fst snd]. rewrite merge_get_same.
    reflexivity.
  - intros evs others action path Hact Hothers.
    rewrite !drain_queue_app. cbn [_drain_queue fold_left].
    rewrite pending_drain_event. cbn [fst snd]. rewrite merge_get_same.
    destruct (String.eqb_spec action "deleted") as [-> | _]; [congruence |].
    fold (_drain_queue others (drain_event ("deleted", path) (_drain_queue evs w))).
    rewrite drain_queue_others by assumption.
    rewrite pending_drain_event. cbn [fst snd]. rewrite merge_get_same.
    reflexivity.
Qed.

(** *** A small world for the examples

    The world is one bit: whether a git operation holds the index lock.
    The store fails on two paths, and one file vanishes between the
    existence check and the size check. *)

Definition demo_delete (path db : string) (lock : bool) : result Z * bool :=
  (if String.eqb path "src/Gone.java" then Raise OtherException else Ok 2, lock).

Definition demo_add_file (path db : string) (lock : bool) : result Z * bool :=
  (if String.eqb path "src/Bad.java" then Raise OtherException else Ok 3, lock).

Definition demo_exists (path : string) (lock : bool) : result bool := Ok true.

Definition demo_is_dir (path : string) (lock : bool) : result bool := Ok lock.

Definition demo_stat_size (path : string) (lock : bool) : result Z :=
  if String.eqb path "src/Vanished.java" then Raise OSError else Ok 512.

Definition demo_joinpath (a b : string) : string := a ++ "/" ++ b.

Definition demo_set_iter (l : list string) : list string := l.

Definition demo_process_batch (w : ProjectWatcher) (lock : bool) :=
  _process_batch bool demo_delete demo_add_file demo_exists demo_stat_size
    demo_set_iter w lock.

Definition demo_step (s : System bool) (ev : event bool) : System bool :=
  step bool demo_delete demo_add_file demo_exists demo_is_dir demo_stat_size
    demo_joinpath demo_set_iter s ev.

Definition demo_run (s : System bool) (evs : list (event bool)) : System bool :=
  fold_left demo_step evs s.

Definition demo_initial : System bool := initial bool "proj" "db" 100 false.

(** A watcher with the given cap, after the given events. *)
Definition demo_watcher (cap : Z) (evs : list (string * string)) : ProjectWatcher :=
  _drain_queue evs (new_watcher "proj" "db" cap).

Lemma demo_set_iter_sound : set_iter_sound demo_set_iter.
Proof. intros l _. apply Permutation_refl. Qed.

Lemma demo_probes_behave : probes_behave bool demo_exists demo_stat_size.
Proof.
  intros path lock. split.
  - exists true. reflexivity.
  - unfold demo_stat_size. destruct (String.eqb path "src/Vanished.java"); discriminate.
Qed.

Lemma demo_watcher_wf cap evs : PyDict.wf (_pending_changes (demo_watcher cap evs)).
Proof. apply drain_queue_wf. constructor. Qed.

(** Five events on five paths; the third is a deletion on which the store
    fails, the fourth a creation on which it fails, the fifth a file that
    vanishes before its size is read. *)
Definition demo_events : list (string * string) :=
  [("created", "src/A.java"); ("modified", "src/B.java");
   ("deleted", "src/Gone.java"); ("created", "src/Bad.java");
   ("modified", "src/Vanished.java")].

(** The merge rule at work: created, deleted, created again is [modified]. *)
Lemma drain_queue_merge_rule_witness :
  PyDict.get "src/A.java"
    (_pending_changes
       (_drain_queue
          ([("created", "src/A.java")] ++ [("deleted", "src/A.java")] ++
           [("modified", "src/B.java")] ++ [("created", "src/A.java")])
          (new_watcher "proj" "db" 100))) = Some "modified".
Proof.
  apply (proj2 (proj2 (proj2 (drain_queue_merge_rule (new_watcher "proj" "db" 100))))).
  - discriminate.
  - repeat constructor. discriminate.
Defined.

(** Five pending entries and a cap of two: two are processed, three stay. *)
Lemma process_batch_cap_witness :
  exists f',
    demo_process_batch (demo_watcher 2 demo_events) false = (Ok tt, f') /\
    _pending_changes (self f') =
      [("src/Gone.java", "deleted"); ("src/Bad.java", "created");
       ("src/Vanished.java", "modified")] /\
    total (counts f') = 2.
Proof.
  destruct (process_batch_cap bool demo_delete demo_add_file demo_exists
              demo_stat_size demo_set_iter (demo_watcher 2 demo_events) false 2 5
              demo_set_iter_sound (demo_watcher_wf 2 demo_events)
              eq_refl eq_refl (le_S _ _ (le_S _ _ (le_n 3))))
    as (_ & _ & _ & f' & Hrun & Hpend & _ & Htotal).
  exists f'. split; [exact Hrun |]. split; [exact Hpend |].
  exact (Htotal demo_probes_behave).
Defined.

(** A negative cap is not a count: Python's slices then count from the end
    of the ledger, and with a cap of [-1] all entries but the last are
    processed. *)
Lemma negative_cap_counts_from_the_end :
  snapshot_and_cap (demo_watcher (-1) demo_events) =
    (firstn 4 (_pending_changes (demo_watcher (-1) demo_events)),
     with_pending [("src/Vanished.java", "modified")] (demo_watcher (-1) demo_events)).
Proof. reflexivity. Qed.

(** The five entries in one batch: the two store failures are the two
    errors, the vanished file is skipped, and the other two are indexed. *)
Lemma batch_failure_isolation_witness :
  exists f',
    demo_process_batch (demo_watcher 100 demo_events) false = (Ok tt, f') /\
    total (counts f') = 5 /\
    stat_errors (stats (self f')) = 0 + errors (counts f') /\
    batches_processed (stats (self f')) = 0 + 1.
Proof.
  destruct (batch_failure_isolation bool demo_delete demo_add_file demo_exists
              demo_stat_size demo_set_iter (demo_watcher 100 demo_events) false
              demo_probes_behave demo_set_iter_sound
              ltac:(discriminate))
    as (_ & _ & _ & f' & Hrun & Htotal & _ & Herr & Hdone & _).
  exists f'. split; [exact Hrun |]. split; [exact Htotal |].
  split; [exact Herr | exact Hdone].
Defined.

(** An [OSError] raised by the size re-check while a path is handled is
    caught, but it is counted as a skipped path, and the lifetime error
    counter does not move. *)
Lemma stat_failure_is_not_counted_as_error :
  demo_exists "src/Vanished.java" false = Ok true /\
  demo_stat_size "src/Vanished.java" false = Raise OSError /\
  demo_process_batch (demo_watcher 100 [("modified", "src/Vanished.java")]) false =
    (Ok tt,
     mkFrame
       (mkWatcher "proj" "db" 100 [] (Some DebounceSeconds) false false
                  (mkStats 0 0 1 0))
       false
       (mkCounters 0 0 1 0)).
Proof. repeat split. Qed.

(** *** A failure that is not isolated *)

(** An index store that keeps the calls that reached it.  Deleting takes
    one entry away, except for one path on which the store fails; indexing
    gives three chunks, except for the path in [broken]. *)
Definition logged_delete (path db : string) (calls : list string)
  : result Z * list string :=
  (if String.eqb path "src/Gone.java" then Raise OtherException else Ok 1,
   (calls ++ [("delete " ++ path)%string])%list).

Definition logged_add_file (broken : string) (path db : string) (calls : list string)
  : result Z * list string :=
  (if String.eqb path broken then Raise OtherException else Ok 3,
   (calls ++ [("add " ++ path)%string])%list).

(** A file system in which every file is there and has 512 bytes, and one
    in which [exists()] fails on the path in [unreadable], as it does with
    a [PermissionError] on a directory that may not be searched. *)
Definition readable_exists (path : string) (calls : list string) : result bool :=
  Ok true.

Definition guarded_exists (unreadable : string) (path : string) (calls : list string)
  : result bool :=
  if String.eqb path unreadable then Raise OSError else Ok true.

Definition small_stat_size (path : string) (calls : list string) : result Z := Ok 512.

(** One deletion on which the store fails, and three files to index. *)
Definition mixed_events : list (string * string) :=
  [("deleted", "src/Gone.java"); ("created", "src/A.java");
   ("created", "src/Bad.java"); ("modified", "src/C.java")].

(** C9.  A batch of four paths, on the first of which the store fails
    while it deletes.  When indexing the third path fails inside the
    store, the handler of the loop catches it: the fourth path is indexed,
    the batch is counted and both errors reach the lifetime counters.  When
    instead [exists()] raises on the third path, no handler of the loop is
    around it: the outer handler ends the batch.  The fourth path never
    reaches the store, the batch is not counted, the file that was indexed
    and the error of the deletion are left out of the lifetime counters,
    and one error is recorded for the whole batch. *)
Theorem existence_check_failure_aborts_batch :
  _pending_changes (demo_watcher 100 mixed_events) =
    [("src/Gone.java", "deleted"); ("src/A.java", "created");
     ("src/Bad.java", "created"); ("src/C.java", "modified")] /\
  _process_batch (list string) logged_delete (logged_add_file "src/Bad.java")
    readable_exists small_stat_size demo_set_iter
    (demo_watcher 100 mixed_events) [] =
    (Ok tt,
     mkFrame
       (mkWatcher "proj" "db" 100 [] (Some DebounceSeconds) false false
                  (mkStats 2 0 1 2))
       ["delete src/Gone.java"; "add src/A.java"; "add src/Bad.java";
        "add src/C.java"]
       (mkCounters 2 0 0 2)) /\
  guarded_exists "src/Bad.java" "src/Bad.java" ["delete src/Gone.java"; "add src/A.java"] =
    Raise OSError /\
  _process_batch (list string) logged_delete (logged_add_file "")
    (guarded_exists "src/Bad.java") small_stat_size demo_set_iter
    (demo_watcher 100 mixed_events) [] =
    (Ok tt,
     mkFrame
       (mkWatcher "proj" "db" 100 [] (Some DebounceSeconds) false false
                  (mkStats 0 0 0 1))
       ["delete src/Gone.java"; "add src/A.java"]
       (mkCounters 1 0 0 1)).
Proof. repeat split. Qed.

(** A batch is in flight after one event and one firing of the timer. *)
Definition demo_busy : System bool :=
  demo_run demo_initial [Change bool "created" "src/A.java"; TimerFired bool].

Lemma demo_busy_reachable :
  reachable bool demo_delete demo_add_file demo_exists demo_is_dir demo_stat_size
    demo_joinpath demo_set_iter "proj" "db" 100 demo_busy.
Proof.
  unfold demo_busy, demo_run. cbn [fold_left].
  do 2 apply reach_step. apply reach_init.
Qed.

(** With a batch in flight, no git operation and the watcher running, the
    timer is rescheduled for the debounce interval and the batch in flight
    stays the only one. *)
Lemma one_batch_in_flight_witness :
  List.length (in_flight demo_busy) = 1%nat /\
  demo_step demo_busy (TimerFired bool) =
    mkSystem (_reset_debounce (watcher demo_busy)) (env demo_busy) (in_flight demo_busy).
Proof.
  destruct (one_batch_in_flight bool demo_delete demo_add_file demo_exists demo_is_dir
              demo_stat_size demo_joinpath demo_set_iter "proj" "db" 100 demo_busy
              demo_busy_reachable) as [_ Hfire].
  destruct (Hfire eq_refl) as (_ & _ & _ & _ & Hdebounce).
  split; [reflexivity |].
  exact (Hdebounce eq_refl eq_refl).
Defined.

(** The claim as it was stated fails: with a batch in flight, the timer
    firing during a git operation is rescheduled for the git-settle
    interval, not the debounce interval, and on a stopped watcher it is not
    rescheduled at all. *)
Lemma timer_while_processing_not_always_debounce :
  _processing (watcher demo_busy) = true /\
  _debounce_handle
    (watcher (demo_run demo_busy [Env bool true; TimerFired bool])) =
    Some GitSettleSeconds /\
  _debounce_handle
    (watcher (demo_run demo_busy [Stop bool; TimerFired bool])) = None.
Proof. repeat split. Qed.

End FileWatcher.

(* ===================================================================== *)
(** ** Python strings, as UTF-8 *)
(* ===================================================================== *)

Module PyStr.

Definition str : Type := list byte.

Definition newline : byte := x0a.

(** A continuation byte of a multi-byte character, [10xxxxxx]. *)
Definition is_continuation (b : byte) : bool :=
  (128 <=? Byte.to_N b)%N && (Byte.to_N b <? 192)%N.

(** [len(s)]: the number of code points. *)
Definition len (s : str) : Z :=
  Z.of_nat (List.length (filter (fun b => negb (is_continuation b)) s)).

(** [s.count(c)] for a one-byte character [c]. *)
Definition count (c : byte) (s : str) : Z :=
  Z.of_nat (List.length (filter (Byte.eqb c) s)).

(** [s.split('\n')] *)
Fixpoint split_lines (s : str) : list str :=
  match s with
  | [] => [[]]
  | b :: s' =>
      if Byte.eqb b newline then [] :: split_lines s'
      else match split_lines s' with
           | l :: ls => (b :: l) :: ls
           | [] => [[b]]
           end
  end.

(** ['\n'.join(lines)] *)
Fixpoint join_lines (lines : list str) : str :=
  match lines with
  | [] => []
  | [l] => l
  | l :: ls => l ++ newline :: join_lines ls
  end.

(** [c * n] for a one-byte character [c]. *)
Definition letters (b : byte) (n : nat) : str := repeat b n.

(** [len(lines)] for a list. *)
Definition llen {A : Type} (l : list A) : Z := Z.of_nat (List.length l).

Lemma len_nil : len [] = 0.
Proof. reflexivity. Qed.

Lemma len_nonneg s : 0 <= len s.
Proof. unfold len. lia. Qed.

Lemma len_app s t : len (s ++ t) = len s + len t.
Proof. unfold len. rewrite filter_app, length_app. lia. Qed.

Lemma len_cons_le b s : len s <= len (b :: s) <= len s + 1.
Proof.
  unfold len. simpl. destruct (negb (is_continuation b)); simpl; lia.
Qed.

Lemma len_firstn_le n s : len (firstn n s) <= len s.
Proof.
  rewrite <- (firstn_skipn n s) at 2. rewrite len_app.
  pose proof (len_nonneg (skipn n s)). lia.
Qed.

Lemma len_skipn_le n s : len (skipn n s) <= len s.
Proof.
  rewrite <- (firstn_skipn n s) at 2. rewrite len_app.
  pose proof (len_nonneg (firstn n s)). lia.
Qed.

Lemma len_repeat_ascii b n :
  is_continuation b = false -> len (repeat b n) = Z.of_nat n.
Proof.
  intros Hb. unfold len. induction n as [| n IH]; simpl.
  - reflexivity.
  - rewrite Hb. simpl. lia.
Qed.

Lemma split_lines_nonempty s : split_lines s <> [].
Proof.
  destruct s as [| b s]; simpl.
  - discriminate.
  - destruct (Byte.eqb b newline); [discriminate |].
    destruct (split_lines s); discriminate.
Qed.

Lemma llen_split_lines_pos s : 1 <= llen (split_lines s).
Proof.
  pose proof (split_lines_nonempty s). unfold llen.
  destruct (split_lines s); [congruence | simpl; lia].
Qed.

Lemma join_lines_cons a l ls :
  join_lines (a :: l :: ls) = a ++ newline :: join_lines (l :: ls).
Proof. reflexivity. Qed.

(** Splitting at the newlines and joining again gives the text back. *)
Lemma join_split_lines s : join_lines (split_lines s) = s.
Proof.
  induction s as [| b s IH]; simpl.
  - reflexivity.
  - pose proof (split_lines_nonempty s) as Hne.
    destruct (split_lines s) as [| l ls]; [congruence |].
    destruct (Byte.eqb b newline) eqn:E.
    + apply byte_dec_bl in E. subst b.
      rewrite join_lines_cons, IH. reflexivity.
    + destruct ls as [| l' ls].
      * simpl in *. now rewrite IH.
      * rewrite join_lines_cons. rewrite join_lines_cons in IH.
        cbn [app]. now f_equal.
Qed.

End PyStr.

(* ===================================================================== *)
(** ** ast_chunking.py: the syntax-tree tier *)
(* ===================================================================== *)

Module AstChunking.

Import PyStr.

Local Open Scope string_scope.
Local Open Scope list_scope.

#[local] Unset Elimination Schemes.

(** What the chunker reads of a tree-sitter node. *)
Inductive Node : Type :=
  mkNode { type : string; start_byte : nat; end_byte : nat; children : list Node }.

#[local] Set Elimination Schemes.

(** Induction on a tree, with the property known for every child. *)
Fixpoint Node_ind (P : Node -> Prop)
    (step : forall t s e cs, Forall P cs -> P (mkNode t s e cs)) (n : Node) : P n :=
  match n with
  | mkNode t s e cs =>
      step t s e cs
        ((fix all (l : list Node) : Forall P l :=
            match l with
            | [] => Forall_nil P
            | c :: l' => Forall_cons c (Node_ind P step c) (all l')
            end) cs)
  end.

(** A chunk of this tier: a dictionary with these four keys. *)
Record Chunk : Type := mkChunk {
  content : str;
  start_line : Z;
  end_line : Z;
  node_type : string
}.

(** The grammars [get_parser] knows. *)
Inductive Grammar : Type :=
| Java
| Python
| TypeScript
| Tsx.

(** [get_parser]: the grammar for a language, or [None]. *)
Definition get_parser (language : string) : option Grammar :=
  if String.eqb language "java" then Some Java
  else if String.eqb language "python" then Some Python
  else if String.eqb language "typescript" || String.eqb language "javascript"
       then Some TypeScript
  else if String.eqb language "tsx" then Some Tsx
  else None.

(** The node types that become chunks, by language. *)
Definition chunk_types (language : string) : list string :=
  if String.eqb language "java" then
    ["method_declaration"; "class_declaration"; "interface_declaration";
     "enum_declaration"]
  else if String.eqb language "python" then
    ["function_definition"; "class_definition"]
  else if String.eqb language "typescript" then
    ["function_declaration"; "method_definition"; "class_declaration";
     "interface_declaration"; "type_alias_declaration"; "enum_declaration"]
  else if String.eqb language "javascript" then
    ["function_declaration"; "method_definition"; "class_declaration"]
  else [].

(** [x in l] for a list of strings. *)
Definition mem (x : string) (l : list string) : bool :=
  existsb (String.eqb x) l.

(** What a function returns that ends in [return None] or [return chunks]. *)
Inductive returned : Type :=
| ReturnsNone
| Returns (chunks : list Chunk).

(** The number of nodes of a tree. *)
Fixpoint node_count (n : Node) : nat :=
  match n with
  | mkNode _ _ _ cs => S (list_sum (map node_count cs))
  end.

(** The nodes of a tree, parents before children, children left to right. *)
Fixpoint preorder (n : Node) : list Node :=
  match n with
  | mkNode _ _ _ cs => n :: flat_map preorder cs
  end.

(** The proper descendants of a node. *)
Definition descendants (n : Node) : list Node := flat_map preorder (children n).

(** The byte range of every node lies within that of its parent, as in a
    syntax tree. *)
Fixpoint nested (n : Node) : Prop :=
  match n with
  | mkNode _ s e cs =>
      (fix all (l : list Node) : Prop :=
         match l with
         | [] => True
         | c :: l' =>
             (s <= start_byte c /\ end_byte c <= e)%nat /\ nested c /\ all l'
         end) cs
  end.

Section Chunker.

(** The tree-sitter parser of a grammar. *)
Variable parse : Grammar -> list byte -> Node.

Section WithSource.

Variable source_bytes : list byte.
Variable types : list string.
Variable max_size : Z.

(** [extract_node_text] *)
Definition extract_node_text (node : Node) : str :=
  PyList.slice (Z.of_nat (start_byte node)) (Z.of_nat (end_byte node)) source_bytes.

(** [get_line_number] *)
Definition get_line_number (byte_offset : nat) : Z :=
  count newline (PyList.slice_to (Z.of_nat byte_offset) source_bytes) + 1.

(** The dictionary built for a node. *)
Definition chunk_of (node : Node) : Chunk :=
  {| content := extract_node_text node;
     start_line := get_line_number (start_byte node);
     end_line := get_line_number (end_byte node);
     node_type := type node |}.

(** A node that may become a chunk: its type is listed and its text has at
    least 50 characters. *)
Definition qualifies (node : Node) : bool :=
  mem (type node) types && (len (extract_node_text node) >=? 50).

(** The chunks of the listed children of at least 50 characters. *)
Definition child_chunks (node : Node) : list Chunk :=
  flat_map (fun child => if qualifies child then [chunk_of child] else [])
           (children node).

(** What one turn of the loop appends to [chunks] for the node it popped. *)
Definition emit (node : Node) : list Chunk :=
  if mem (type node) types then
    let text := extract_node_text node in
    if len text >=? 50 then
      if len text >? max_size then
        match child_chunks node with
        | [] => [chunk_of node]
        | cs => cs
        end
      else [chunk_of node]
    else []
  else [].

(** The loop [while stack].  The stack is written with its top first, so
    [stack.pop()] takes the head and [stack.extend(reversed(node.children))]
    puts the children in front, the first child on top.  [None]: the fuel ran
    out before the stack was empty. *)
Fixpoint traverse (fuel : nat) (stack : list Node) (chunks : list Chunk)
  : option (list Chunk) :=
  match stack with
  | [] => Some chunks
  | node :: rest =>
      match fuel with
      | O => None
      | S fuel' => traverse fuel' (children node ++ rest) (chunks ++ emit node)
      end
  end.

End WithSource.

(** [chunk_with_ast].  The loop is given as many turns as the tree has
    nodes. *)
Definition chunk_with_ast (content : str) (language : string) (path : string)
    (max_size : Z) : option returned :=
  match get_parser language with
  | None => Some ReturnsNone
  | Some parser =>
      let source_bytes := content in
      let root := parse parser source_bytes in
      match traverse source_bytes (chunk_types language) max_size
              (node_count root) [root] [] with
      | None => None
      | Some [] => Some ReturnsNone
      | Some chunks => Some (Returns chunks)
      end
  end.

(** [chunk_code_ast]: [max_size] is left at its default. *)
Definition chunk_code_ast (content : str) (language : string) (path : string)
  : option returned :=
  if negb (mem language ["java"; "python"; "typescript"; "javascript"])
  then Some ReturnsNone
  else chunk_with_ast content language path 2000.

(** *** The loop visits every node once, in preorder *)

Definition stack_count (stack : list Node) : nat := list_sum (map node_count stack).

Lemma stack_count_app s1 s2 : stack_count (s1 ++ s2) = (stack_count s1 + stack_count s2)%nat.
Proof. unfold stack_count. now rewrite map_app, list_sum_app. Qed.

Lemma node_count_children n : node_count n = S (stack_count (children n)).
Proof. now destruct n. Qed.

Lemma preorder_children n : preorder n = n :: flat_map preorder (children n).
Proof. now destruct n. Qed.

Lemma stack_count_cons n s : stack_count (n :: s) = S (stack_count (children n) + stack_count s).
Proof. unfold stack_count at 1. cbn [map list_sum fold_right]. now rewrite node_count_children. Qed.

Lemma traverse_complete source_bytes types max_size fuel : forall stack chunks,
  (stack_count stack <= fuel)%nat ->
  traverse source_bytes types max_size fuel stack chunks =
  Some (chunks ++ flat_map (emit source_bytes types max_size) (flat_map preorder stack)).
Proof.
  induction fuel as [| fuel IH]; intros stack chunks Hfuel.
  - destruct stack as [| node rest].
    + simpl. now rewrite app_nil_r.
    + rewrite stack_count_cons in Hfuel. lia.
  - destruct stack as [| node rest].
    + simpl. now rewrite app_nil_r.
    + rewrite stack_count_cons in Hfuel. cbn [traverse]. rewrite IH.
      * cbn [flat_map]. rewrite preorder_children. cbn [app flat_map].
        rewrite !flat_map_app, <- !app_assoc. reflexivity.
      * rewrite stack_count_app. lia.
Qed.

(** [chunk_with_ast] always returns: [None] when there is no parser or no
    chunk, and otherwise what the nodes of the tree emit, in preorder. *)
Lemma chunk_with_ast_returns content language path max_size :
  chunk_with_ast content language path max_size =
  Some
    match get_parser language with
    | None => ReturnsNone
    | Some parser =>
        match flat_map (emit content (chunk_types language) max_size)
                (preorder (parse parser content)) with
        | [] => ReturnsNone
        | chunks => Returns chunks
        end
    end.
Proof.
  unfold chunk_with_ast. destruct (get_parser language) as [parser |]; [| reflexivity].
  rewrite traverse_complete.
  - cbn [app flat_map]. rewrite app_nil_r.
    now destruct (flat_map _ (preorder (parse parser content))).
  - unfold stack_count. cbn. lia.
Qed.

(** *** What a node emits *)

Section Emit.

Variable source_bytes : list byte.
Variable types : list string.
Variable max_size : Z.

#[local] Abbreviation text := (extract_node_text source_bytes).
#[local] Abbreviation chunk := (chunk_of source_bytes).
#[local] Abbreviation ok := (qualifies source_bytes types).
#[local] Abbreviation kids := (child_chunks source_bytes types).
#[local] Abbreviation out := (emit source_bytes types max_size).

Lemma emit_within node :
  ok node = true -> len (text node) <= max_size ->
  out node = [chunk node].
Proof.
  unfold qualifies, emit. intros Hq Hle.
  apply andb_true_iff in Hq. destruct Hq as [-> ->].
  destruct (Z.gtb_spec (len (text node)) max_size); [lia | reflexivity].
Qed.

Lemma emit_oversized node :
  ok node = true -> max_size < len (text node) ->
  out node = match kids node with
              | [] => [chunk node]
              | cs => cs
              end.
Proof.
  unfold qualifies, emit. intros Hq Hlt.
  apply andb_true_iff in Hq. destruct Hq as [-> ->].
  destruct (Z.gtb_spec (len (text node)) max_size); [reflexivity | lia].
Qed.

Lemma emit_unqualified node : ok node = false -> out node = [].
Proof.
  unfold qualifies, emit. intros Hq.
  destruct (mem (type node) types); [| reflexivity].
  cbn [andb] in Hq. now rewrite Hq.
Qed.

Lemma in_child_chunks c node :
  In c (kids node) <->
  exists child, In child (children node) /\ ok child = true /\ c = chunk child.
Proof.
  unfold child_chunks. rewrite in_flat_map. split.
  - intros (child & HIn & Hc). exists child.
    destruct (ok child); [| contradiction].
    destruct Hc as [<- | []]. auto.
  - intros (child & HIn & Hq & ->). exists child. rewrite Hq. split; [assumption | now left].
Qed.

(** Every chunk a node emits is the chunk of a qualifying node: the node
    itself, when it is within the maximum size or has no qualifying child,
    or one of its qualifying children when it is above the maximum size. *)
Lemma in_emit c node :
  In c (out node) ->
  (c = chunk node /\ ok node = true /\
   (len (text node) <= max_size \/ kids node = [])) \/
  (ok node = true /\ max_size < len (text node) /\
   exists child,
     In child (children node) /\ ok child = true /\ c = chunk child).
Proof.
  intros HIn. destruct (ok node) eqn:Hq.
  2: { rewrite emit_unqualified in HIn by assumption. contradiction. }
  destruct (Z.le_gt_cases (len (text node)) max_size) as [Hle | Hgt].
  - rewrite emit_within in HIn by assumption.
    destruct HIn as [<- | []]. left. auto.
  - rewrite emit_oversized in HIn by (assumption || lia).
    destruct (kids node) as [| c0 cs] eqn:Hcs.
    + destruct HIn as [<- | []]. left. auto.
    + right. split; [reflexivity |]. split; [lia |].
      apply in_child_chunks. now rewrite Hcs.
Qed.

Lemma qualifies_len node : ok node = true -> 50 <= len (text node).
Proof.
  unfold qualifies. intros Hq. apply andb_true_iff in Hq.
  destruct Hq as [_ Hq]. lia.
Qed.

End Emit.

(** *** Nodes inside nodes *)

Lemma in_preorder_self n : In n (preorder n).
Proof. rewrite preorder_children. now left. Qed.

Lemma in_preorder_trans n : forall m d,
  In m (preorder n) -> In d (preorder m) -> In d (preorder n).
Proof.
  induction n as [t s e cs IH] using Node_ind. intros m d Hm Hd.
  cbn [preorder] in Hm. destruct Hm as [<- | Hm]; [exact Hd |].
  cbn [preorder]. right.
  apply in_flat_map in Hm. destruct Hm as (c & Hc & Hm).
  apply in_flat_map. exists c. split; [exact Hc |].
  rewrite Forall_forall in IH. now apply (IH c Hc m d).
Qed.

Lemma in_descendants_preorder n d : In d (descendants n) -> In d (preorder n).
Proof. intros H. rewrite preorder_children. now right. Qed.

Lemma nested_children n c :
  nested n -> In c (children n) ->
  (start_byte n <= start_byte c /\ end_byte c <= end_byte n)%nat /\ nested c.
Proof.
  destruct n as [t s e cs]. cbn [nested children start_byte end_byte].
  induction cs as [| c0 cs IH]; intros Hn HIn.
  - contradiction.
  - destruct Hn as (Hr & Hc0 & Hrest). destruct HIn as [<- | HIn].
    + split; assumption.
    + now apply IH.
Qed.

(** In a nested tree, the byte range of a node contains the range of each
    node below it. *)
Lemma nested_preorder n : forall d,
  nested n -> In d (preorder n) ->
  nested d /\ (start_byte n <= start_byte d /\ end_byte d <= end_byte n \/ d = n)%nat.
Proof.
  induction n as [t s e cs IH] using Node_ind. intros d Hn Hd.
  cbn [preorder] in Hd. destruct Hd as [<- | Hd].
  - split; [exact Hn | now right].
  - apply in_flat_map in Hd. destruct Hd as (c & Hc & Hd).
    destruct (nested_children (mkNode t s e cs) c Hn Hc) as [Hr Hnc].
    rewrite Forall_forall in IH.
    destruct (IH c Hc d Hnc Hd) as [Hnd Hrange].
    split; [exact Hnd |]. left. cbn [start_byte end_byte] in *.
    destruct Hrange as [Hrange | ->]; lia.
Qed.

(** A slice within a slice has no more characters. *)
Lemma len_slice_within (l : list byte) (a b c d : nat) :
  (a <= c)%nat -> (d <= b)%nat ->
  len (PyList.slice (Z.of_nat c) (Z.of_nat d) l) <=
  len (PyList.slice (Z.of_nat a) (Z.of_nat b) l).
Proof.
  intros Hac Hdb. rewrite !PyList.slice_nonneg by lia. rewrite !Nat2Z.id.
  destruct (Nat.le_gt_cases d c) as [Hdc | Hcd].
  - replace (d - c)%nat with 0%nat by lia. cbn [firstn]. apply len_nonneg.
  - replace c with ((c - a) + a)%nat at 2 by lia. rewrite <- skipn_skipn.
    rewrite firstn_skipn_comm.
    replace (c - a + (d - c))%nat with (d - a)%nat by lia.
    etransitivity; [apply len_skipn_le |].
    replace (firstn (d - a) (skipn a l))
      with (firstn (d - a) (firstn (b - a) (skipn a l))).
    + apply len_firstn_le.
    + rewrite firstn_firstn. f_equal. lia.
Qed.

Lemma text_len_nested source_bytes n d :
  nested n -> In d (preorder n) ->
  len (extract_node_text source_bytes d) <= len (extract_node_text source_bytes n).
Proof.
  intros Hn Hd. destruct (nested_preorder n d Hn Hd) as [_ [[H1 H2] | ->]].
  - unfold extract_node_text. now apply len_slice_within.
  - lia.
Qed.

(** *** Which chunks come out *)

(** A qualifying node within the maximum size is emitted as its own chunk,
    wherever it sits in the tree. *)
Lemma within_node_emitted source_bytes types max_size root d :
  In d (preorder root) ->
  qualifies source_bytes types d = true ->
  len (extract_node_text source_bytes d) <= max_size ->
  In (chunk_of source_bytes d)
     (flat_map (emit source_bytes types max_size) (preorder root)).
Proof.
  intros Hd Hq Hle. apply in_flat_map. exists d. split; [exact Hd |].
  rewrite emit_within by assumption. now left.
Qed.

(** Every chunk that comes out is the chunk of a qualifying node of the
    tree, and that node is within the maximum size, or has no qualifying
    child, or is a qualifying child of a node above the maximum size. *)
Lemma emitted_chunk_origin source_bytes types max_size root c :
  In c (flat_map (emit source_bytes types max_size) (preorder root)) ->
  exists d,
    In d (preorder root) /\ c = chunk_of source_bytes d /\
    qualifies source_bytes types d = true /\
    (len (extract_node_text source_bytes d) <= max_size \/
     child_chunks source_bytes types d = [] \/
     exists p,
       In p (preorder root) /\ In d (children p) /\
       qualifies source_bytes types p = true /\
       max_size < len (extract_node_text source_bytes p)).
Proof.
  intros HIn. apply in_flat_map in HIn. destruct HIn as (n & Hn & Hc).
  apply in_emit in Hc.
  destruct Hc as [(-> & Hq & Hsize) | (Hq & Hbig & child & Hchild & Hqc & ->)].
  - exists n. repeat split; try assumption. tauto.
  - exists child. split.
    + apply in_preorder_trans with (m := n); [exact Hn |].
      apply in_descendants_preorder. unfold descendants.
      apply in_flat_map. exists child. split; [exact Hchild | apply in_preorder_self].
    + repeat split; try assumption. right. right. exists n. auto.
Qed.

(** A qualifying node above the maximum size, when the loop pops it: its
    qualifying children are emitted, each as its own chunk, and if it has
    none the node is kept whole. *)
Lemma oversized_node_resplit source_bytes types max_size root n :
  In n (preorder root) ->
  qualifies source_bytes types n = true ->
  max_size < len (extract_node_text source_bytes n) ->
  (forall child,
      In child (children n) -> qualifies source_bytes types child = true ->
      emit source_bytes types max_size n = child_chunks source_bytes types n /\
      In (chunk_of source_bytes child)
         (flat_map (emit source_bytes types max_size) (preorder root))) /\
  (child_chunks source_bytes types n = [] ->
   emit source_bytes types max_size n = [chunk_of source_bytes n] /\
   In (chunk_of source_bytes n)
      (flat_map (emit source_bytes types max_size) (preorder root))).
Proof.
  intros Hn Hq Hbig.
  pose proof (emit_oversized source_bytes types max_size n Hq Hbig) as Hemit.
  split.
  - intros child Hchild Hqc.
    assert (HIn : In (chunk_of source_bytes child) (child_chunks source_bytes types n)).
    { apply in_child_chunks. exists child. auto. }
    destruct (child_chunks source_bytes types n) as [| c0 cs] eqn:Hcs; [contradiction |].
    split; [exact Hemit |].
    apply in_flat_map. exists n. split; [exact Hn |]. now rewrite Hemit.
  - intros Hnone. rewrite Hnone in Hemit. split; [exact Hemit |].
    apply in_flat_map. exists n. split; [exact Hn |]. rewrite Hemit. now left.
Qed.

(** The same, for what [chunk_with_ast] returns. *)
Lemma ast_chunk_origin (src : str) (language path : string) (max_size : Z)
    (chunks : list Chunk) (c : Chunk) :
  chunk_with_ast src language path max_size = Some (Returns chunks) ->
  In c chunks ->
  exists parser d,
    get_parser language = Some parser /\
    In d (preorder (parse parser src)) /\ c = chunk_of src d /\
    qualifies src (chunk_types language) d = true /\
    (len (content c) <= max_size \/
     child_chunks src (chunk_types language) d = [] \/
     exists p,
       In p (preorder (parse parser src)) /\ In d (children p) /\
       qualifies src (chunk_types language) p = true /\
       max_size < len (extract_node_text src p)).
Proof.
  rewrite chunk_with_ast_returns. intros H Hc. injection H as H.
  destruct (get_parser language) as [parser |]; [| discriminate].
  assert (HIn : In c (flat_map (emit src (chunk_types language) max_size)
                        (preorder (parse parser src)))).
  { destruct (flat_map _ (preorder (parse parser src))); [discriminate |].
    injection H as <-. exact Hc. }
  apply emitted_chunk_origin in HIn.
  destruct HIn as (d & Hd & -> & Hq & Hsize).
  exists parser, d. repeat split; assumption.
Qed.

(** *** The minimum size of this tier *)

(** C4 (as amended).  Whatever the input, no chunk of the syntax-tree tier
    has fewer than 50 characters: the threshold is the constant 50 written in
    [chunk_with_ast], not the configured minimum chunk size. *)
Theorem ast_chunks_at_least_50 (src : str) (language path : string) (max_size : Z)
    (chunks : list Chunk) :
  chunk_with_ast src language path max_size = Some (Returns chunks) ->
  Forall (fun c => 50 <= len (content c)) chunks.
Proof.
  rewrite chunk_with_ast_returns. intros H. injection H as H.
  destruct (get_parser language) as [parser |]; [| discriminate].
  apply Forall_forall. intros c Hc.
  assert (HIn : In c (flat_map (emit src (chunk_types language) max_size)
                        (preorder (parse parser src)))).
  { destruct (flat_map _ (preorder (parse parser src))); [discriminate |].
    injection H as <-. exact Hc. }
  apply emitted_chunk_origin in HIn.
  destruct HIn as (d & _ & -> & Hq & _).
  cbn [content chunk_of]. now apply qualifies_len with (types := chunk_types language).
Qed.

End Chunker.

(** *** Trees for the examples *)

(** Four lines of 59 letters: a class whose block holds one method on the
    second and third line. *)
Definition nested_source : str :=
  join_lines [letters "a" 59; letters "b" 59; letters "c" 59; letters "d" 59].

Definition nested_method : Node := mkNode "function_definition" 60 179 [].

Definition nested_class : Node :=
  mkNode "class_definition" 0 239 [mkNode "block" 60 239 [nested_method]].

Definition nested_tree : Node := mkNode "module" 0 239 [nested_class].

(** A class of 5000 characters with three methods of 500, 600 and 800
    characters as its children. *)
Definition big_class_source : str := letters "x" 5000.

Definition method_1 : Node := mkNode "method_declaration" 100 600 [].
Definition method_2 : Node := mkNode "method_declaration" 700 1300 [].
Definition method_3 : Node := mkNode "method_declaration" 1400 2200 [].

Definition big_class : Node :=
  mkNode "class_declaration" 0 5000 [method_1; method_2; method_3].

Definition big_class_tree : Node := mkNode "program" 0 5000 [big_class].

(** The same class as the Java grammar shapes it, with the methods under
    the class body. *)
Definition big_class_with_body : Node :=
  mkNode "class_declaration" 0 5000
    [mkNode "class_body" 50 5000 [method_1; method_2; method_3]].

Definition big_class_with_body_tree : Node :=
  mkNode "program" 0 5000 [big_class_with_body].

(** One method of 60 characters. *)
Definition short_method_source : str := letters "m" 60.

Definition short_method_tree : Node :=
  mkNode "program" 0 60 [mkNode "method_declaration" 0 60 []].

(** *** An oversized class *)

(** C3, on the class of 5000 characters with three methods of 500, 600
    and 800 characters.  With the methods as children of the class, the
    class chunk is not emitted and the three method chunks are, but each of
    them twice, six chunks in all: the loop pushes the children of every
    node it pops, so the methods are visited again after the class was
    split.  With the methods under a class body, as the Java grammar has
    them, no child of the class qualifies: the class of 5000 characters is
    kept whole, and the three methods follow. *)
Theorem oversized_class_emits_methods_twice :
  let m1 := chunk_of big_class_source method_1 in
  let m2 := chunk_of big_class_source method_2 in
  let m3 := chunk_of big_class_source method_3 in
  chunk_with_ast (fun _ _ => big_class_tree) big_class_source "java" "Big.java" 2000 =
    Some (Returns [m1; m2; m3; m1; m2; m3]) /\
  chunk_with_ast (fun _ _ => big_class_with_body_tree) big_class_source
    "java" "Big.java" 2000 =
    Some (Returns [chunk_of big_class_source big_class_with_body; m1; m2; m3]) /\
  len (content m1) = 500 /\ len (content m2) = 600 /\ len (content m3) = 800 /\
  len (extract_node_text big_class_source big_class) = 5000 /\
  len (content (chunk_of big_class_source big_class_with_body)) = 5000.
Proof. vm_compute. repeat split. Qed.

(** *** A container and its members *)

(** C10.  The loop descends into a node that it has emitted.  In a tree
    whose byte ranges are nested, a qualifying node within the maximum size
    and every qualifying node below it are all emitted, each as its own
    chunk; and there are inputs for which two of the emitted chunks have
    overlapping line ranges. *)
Theorem container_and_members_both_emitted :
  (forall parse (src : str) (language path : string) (parser : Grammar)
          (max_size : Z) (n d : Node),
      get_parser language = Some parser ->
      nested (parse parser src) ->
      In n (preorder (parse parser src)) ->
      In d (descendants n) ->
      qualifies src (chunk_types language) n = true ->
      len (extract_node_text src n) <= max_size ->
      qualifies src (chunk_types language) d = true ->
      exists chunks,
        chunk_with_ast parse src language path max_size = Some (Returns chunks) /\
        In (chunk_of src n) chunks /\
        In (chunk_of src d) chunks) /\
  (exists parse (src : str) (language path : string) (max_size : Z)
          (chunks : list Chunk) (c1 c2 : Chunk),
      chunk_with_ast parse src language path max_size = Some (Returns chunks) /\
      In c1 chunks /\ In c2 chunks /\ c1 <> c2 /\
      start_line c1 <= start_line c2 /\ start_line c2 <= end_line c1).
Proof.
  split.
  - intros parse src language path parser max_size n d Hparser Hnested Hn Hd Hqn Hle Hqd.
    rewrite chunk_with_ast_returns, Hparser.
    set (root := parse parser src) in *.
    set (out := flat_map (emit src (chunk_types language) max_size) (preorder root)).
    assert (Hdn : In d (preorder n)) by now apply in_descendants_preorder.
    assert (Hnn : nested n) by now apply (nested_preorder root n).
    assert (H1 : In (chunk_of src n) out) by now apply within_node_emitted.
    assert (H2 : In (chunk_of src d) out).
    { apply within_node_emitted; [| assumption |].
      - now apply in_preorder_trans with (m := n).
      - pose proof (text_len_nested src n d Hnn Hdn). lia. }
    destruct out as [| c0 cs]; [contradiction |].
    exists (c0 :: cs). auto.
  - exists (fun _ _ => nested_tree), nested_source, "python", "a.py", 2000.
    exists [chunk_of nested_source nested_class; chunk_of nested_source nested_method].
    exists (chunk_of nested_source nested_class), (chunk_of nested_source nested_method).
    split; [vm_compute; reflexivity |].
    split; [now left |]. split; [right; now left |].
    split; [| vm_compute; split; discriminate].
    intros H. apply (f_equal start_line) in H. vm_compute in H. discriminate.
Qed.

(** The class and its method in the four-line source. *)
Lemma container_and_members_witness :
  exists chunks,
    chunk_with_ast (fun _ _ => nested_tree) nested_source "python" "a.py" 2000 =
      Some (Returns chunks) /\
    In (chunk_of nested_source nested_class) chunks /\
    In (chunk_of nested_source nested_method) chunks.
Proof.
  apply (proj1 container_and_members_both_emitted
           (fun _ _ => nested_tree) nested_source "python" "a.py" Python 2000
           nested_class nested_method).
  - reflexivity.
  - cbn. repeat split; lia.
  - right. left. reflexivity.
  - right. left. reflexivity.
  - vm_compute. reflexivity.
  - vm_compute. discriminate.
  - vm_compute. reflexivity.
Defined.

(** The method of 60 characters is a chunk. *)
Lemma ast_chunks_at_least_50_witness :
  Forall (fun c => 50 <= len (content c))
    [chunk_of short_method_source (mkNode "method_declaration" 0 60 [])].
Proof.
  apply (ast_chunks_at_least_50 (fun _ _ => short_method_tree) short_method_source
           "java" "M.java" 2000).
  vm_compute. reflexivity.
Defined.

End AstChunking.

(* ===================================================================== *)
(** ** chunking.py: the pattern tier for Java and the fixed-size tier *)
(* ===================================================================== *)

Module Chunking.

Import PyStr.

Local Open Scope string_scope.
Local Open Scope list_scope.
Local Open Scope Z_scope.

(** [MAX_CHUNK_SIZE] and [MIN_CHUNK_SIZE], read from the environment when
    the module is loaded. *)
Record Config : Type := mkConfig {
  MAX_CHUNK_SIZE : Z;
  MIN_CHUNK_SIZE : Z
}.

(** The defaults, ["2000"] and ["100"]. *)
Definition default_config : Config := mkConfig 2000 100.

(** A chunk of these tiers: a dictionary that always has [content],
    [start_line] and [end_line]; the other keys are there when the chunker
    sets them ([class_name] may be set to [None]). *)
Record Chunk : Type := mkChunk {
  content : str;
  start_line : Z;
  end_line : Z;
  class_name : option (option str);
  path : option string;
  language : option string;
  file_type : option string
}.

Definition lang_map : PyDict.t string :=
  [(".java", "java"); (".js", "javascript"); (".jsx", "javascript");
   (".ts", "typescript"); (".tsx", "typescript"); (".json", "json");
   (".xml", "xml"); (".yaml", "yaml"); (".yml", "yaml"); (".md", "markdown");
   (".properties", "properties"); (".gradle", "gradle")].

(** [detect_type] *)
Definition detect_type (path : string) (language : string) : string :=
  if existsb (String.eqb language) ["yaml"; "markdown"] then "documentation"
  else if existsb (String.eqb language) ["json"; "xml"; "properties"; "gradle"]
       then "config"
  else "code".

Section Tiers.

Variable cfg : Config.
(** [Path(path).suffix.lower()] *)
Variable suffix_lower : string -> string.
(** [class_pattern.search(line)]: the class name, group 4, of a line that
    declares a class, an interface or an enum. *)
Variable class_pattern_search : str -> option str.

(** [detect_language] *)
Definition detect_language (path : string) : string :=
  match PyDict.get (suffix_lower path) lang_map with
  | Some lang => lang
  | None => "unknown"
  end.

(** [_add_metadata] *)
Definition _add_metadata (chunks : list Chunk) (path : string) : list Chunk :=
  let lang := detect_language path in
  let file_type := detect_type path lang in
  map (fun c => mkChunk (content c) (start_line c) (end_line c) (class_name c)
                        (Some path) (Some lang) (Some file_type))
      chunks.

(** *** The fixed-size chunker, as the module defines it last *)

(** The dictionary with the three keys. *)
Definition plain_chunk (text : str) (first last : Z) : Chunk :=
  mkChunk text first last None None None None.

(** The loop [while start < len(lines)] of [chunk_default].  [None]: the
    fuel ran out before the loop ended. *)
Fixpoint default_loop (lines : list str) (chunk_size : Z) (fuel : nat)
    (start : Z) (chunks : list Chunk) : option (list Chunk) :=
  if start <? llen lines then
    match fuel with
    | O => None
    | S fuel' =>
        let end_ := Z.min (start + chunk_size) (llen lines) in
        let chunk_lines := PyList.slice start end_ lines in
        let chunk := plain_chunk (join_lines chunk_lines) (start + 1) end_ in
        let overlap := 10 in
        default_loop lines chunk_size fuel'
          (if end_ <? llen lines then end_ - overlap else end_)
          (chunks ++ [chunk])
    end
  else Some chunks.

(** [chunk_default], the definition in force (the second one of the
    module). *)
Definition chunk_default (fuel : nat) (text : str) (path : string)
  : option (list Chunk) :=
  let lines := split_lines text in
  if len text <=? MAX_CHUNK_SIZE cfg then
    Some [plain_chunk text 1 (llen lines)]
  else
    let chunk_size := MAX_CHUNK_SIZE cfg / 10 in
    default_loop lines chunk_size fuel 0 [].

(** [chunk_default] returns [chunks]. *)
Definition chunk_default_returns (text : str) (path : string) (chunks : list Chunk) : Prop :=
  exists fuel, chunk_default fuel text path = Some chunks.

(** *** The fixed-size chunker that the later definition replaces *)

Definition full_chunk (text : str) (path : string) (first last : Z) : Chunk :=
  let lang := detect_language path in
  mkChunk text first last None (Some path) (Some lang) (Some (detect_type path lang)).

(** The variables of the loop [for i, line in enumerate(lines, 1)]. *)
Record SizeLoop : Type := mkSizeLoop {
  sl_chunks : list Chunk;
  sl_current_chunk : list str;
  sl_current_size : Z;
  sl_start_line : Z
}.

Definition size_step (path : string) (st : SizeLoop) (i : Z) (line : str) : SizeLoop :=
  let current_chunk := sl_current_chunk st ++ [line] in
  let current_size := sl_current_size st + len line in
  if current_size >=? MAX_CHUNK_SIZE cfg then
    mkSizeLoop
      (sl_chunks st ++ [full_chunk (join_lines current_chunk) path (sl_start_line st) i])
      [] 0 (i + 1)
  else mkSizeLoop (sl_chunks st) current_chunk current_size (sl_start_line st).

(** [enumerate(l, first)] consumed by a loop. *)
Fixpoint for_enumerate {S A : Type} (body : S -> Z -> A -> S) (l : list A)
    (i : Z) (st : S) : S :=
  match l with
  | [] => st
  | x :: l' => for_enumerate body l' (i + 1) (body st i x)
  end.

(** The first [chunk_default] of the module, which no caller reaches once
    the second is defined. *)
Definition chunk_default_shadowed (text : str) (path : string) : list Chunk :=
  if len text <=? MAX_CHUNK_SIZE cfg then
    [full_chunk text path 1 (count newline text + 1)]
  else
    let lines := split_lines text in
    let st := for_enumerate (size_step path) lines 1 (mkSizeLoop [] [] 0 1) in
    match sl_current_chunk st with
    | [] => sl_chunks st
    | _ :: _ =>
        let chunk_content := join_lines (sl_current_chunk st) in
        if len chunk_content >=? MIN_CHUNK_SIZE cfg then
          sl_chunks st ++ [full_chunk chunk_content path (sl_start_line st) (llen lines)]
        else sl_chunks st
    end.

(** *** The pattern chunker for Java *)

(** The variables of the loop [for i, line in enumerate(lines)]. *)
Record JavaLoop : Type := mkJavaLoop {
  jl_chunks : list Chunk;
  jl_current_chunk : list str;
  jl_chunk_start : Z;
  jl_current_class : option str;
  jl_brace_count : Z;
  jl_in_class : bool
}.

Definition java_chunk (lines : list str) (first last : Z) (cls : option str) : Chunk :=
  mkChunk (join_lines lines) first last (Some cls) None None None.

Definition is_empty {A : Type} (l : list A) : bool :=
  match l with [] => true | _ :: _ => false end.

Definition java_step (st : JavaLoop) (i : Z) (line : str) : JavaLoop :=
  let brace_count := jl_brace_count st + (count "{"%byte line - count "}"%byte line) in
  match class_pattern_search line with
  | Some name =>
      let chunks :=
        if negb (is_empty (jl_current_chunk st))
           && (len (join_lines (jl_current_chunk st)) >=? MIN_CHUNK_SIZE cfg)
        then jl_chunks st ++
             [java_chunk (jl_current_chunk st) (jl_chunk_start st + 1) i
                         (jl_current_class st)]
        else jl_chunks st in
      mkJavaLoop chunks [line] i (Some name) brace_count true
  | None =>
      let current_chunk := jl_current_chunk st ++ [line] in
      if jl_in_class st && (brace_count =? 0) && negb (is_empty current_chunk)
         && (len (join_lines current_chunk) >=? MAX_CHUNK_SIZE cfg)
      then mkJavaLoop
             (jl_chunks st ++
              [java_chunk current_chunk (jl_chunk_start st + 1) (i + 1)
                          (jl_current_class st)])
             [] (i + 1) (jl_current_class st) brace_count false
      else mkJavaLoop (jl_chunks st) current_chunk (jl_chunk_start st)
                      (jl_current_class st) brace_count (jl_in_class st)
  end.

(** [chunk_java].  Its fallback is the fixed-size chunker, hence the
    fuel. *)
Definition chunk_java (fuel : nat) (text : str) (path : string) : option (list Chunk) :=
  let lines := split_lines text in
  let st := for_enumerate java_step lines 0 (mkJavaLoop [] [] 0 None 0 false) in
  let chunks :=
    if negb (is_empty (jl_current_chunk st))
    then jl_chunks st ++
         [java_chunk (jl_current_chunk st) (jl_chunk_start st + 1) (llen lines)
                     (jl_current_class st)]
    else jl_chunks st in
  if is_empty chunks then chunk_default fuel text path
  else Some (_add_metadata chunks path).

(** *** The fixed-size chunker: when it returns, and what *)

Lemma default_loop_done lines chunk_size fuel start chunks :
  llen lines <= start ->
  default_loop lines chunk_size fuel start chunks = Some chunks.
Proof.
  intros Hge. destruct fuel; cbn [default_loop];
    destruct (Z.ltb_spec start (llen lines)); (lia || reflexivity).
Qed.

Lemma default_loop_step lines chunk_size fuel start chunks :
  start < llen lines ->
  default_loop lines chunk_size (S fuel) start chunks =
  let end_ := Z.min (start + chunk_size) (llen lines) in
  default_loop lines chunk_size fuel
    (if end_ <? llen lines then end_ - 10 else end_)
    (chunks ++ [plain_chunk (join_lines (PyList.slice start end_ lines)) (start + 1) end_]).
Proof.
  intros Hlt. cbn [default_loop].
  destruct (Z.ltb_spec start (llen lines)); [reflexivity | lia].
Qed.

Lemma default_loop_out_of_fuel lines chunk_size start chunks :
  start < llen lines ->
  default_loop lines chunk_size 0 start chunks = None.
Proof.
  intros Hlt. cbn [default_loop].
  destruct (Z.ltb_spec start (llen lines)); [reflexivity | lia].
Qed.

(** More fuel does not change what the loop returns. *)
Lemma default_loop_more_fuel lines chunk_size fuel : forall fuel' start chunks out,
  default_loop lines chunk_size fuel start chunks = Some out ->
  (fuel <= fuel')%nat ->
  default_loop lines chunk_size fuel' start chunks = Some out.
Proof.
  induction fuel as [| fuel IH]; intros fuel' start chunks out Hrun Hle.
  - destruct (Z.lt_ge_cases start (llen lines)) as [Hlt | Hge].
    + rewrite default_loop_out_of_fuel in Hrun by assumption. discriminate.
    + rewrite default_loop_done in Hrun by assumption.
      now rewrite default_loop_done.
  - destruct (Z.lt_ge_cases start (llen lines)) as [Hlt | Hge].
    + destruct fuel' as [| fuel']; [lia |].
      rewrite default_loop_step in Hrun |- * by assumption. cbv zeta in *.
      apply IH; [exact Hrun | lia].
    + rewrite default_loop_done in Hrun by assumption.
      now rewrite default_loop_done.
Qed.

(** So [chunk_default] returns at most one list of chunks. *)
Lemma chunk_default_returns_once text path chunks chunks' :
  chunk_default_returns text path chunks ->
  chunk_default_returns text path chunks' ->
  chunks = chunks'.
Proof.
  intros [fuel Hrun] [fuel' Hrun']. unfold chunk_default in *.
  destruct (len text <=? MAX_CHUNK_SIZE cfg); [congruence |].
  apply default_loop_more_fuel with (fuel' := Nat.max fuel fuel') in Hrun; [| lia].
  apply default_loop_more_fuel with (fuel' := Nat.max fuel fuel') in Hrun'; [| lia].
  congruence.
Qed.

(** A segment of the file: the lines [first .. last], at most [chunk_size]
    of them, joined. *)
Definition segment (lines : list str) (chunk_size : Z) (c : Chunk) : Prop :=
  exists first last,
    1 <= first <= last /\ last <= llen lines /\
    last - first + 1 <= chunk_size /\
    c = plain_chunk (join_lines (PyList.slice (first - 1) last lines)) first last.

(** With more than ten lines to a segment, every turn of the loop moves
    on, and the loop ends within [len(lines) - start] turns. *)
Lemma default_loop_terminates lines chunk_size :
  10 < chunk_size ->
  forall fuel start chunks,
    0 <= start ->
    (Z.to_nat (llen lines - start) <= fuel)%nat ->
    exists out,
      default_loop lines chunk_size fuel start chunks = Some (chunks ++ out) /\
      (start < llen lines -> out <> []) /\
      Forall (segment lines chunk_size) out.
Proof.
  intros Hsize. induction fuel as [| fuel IH]; intros start chunks Hstart Hfuel.
  - exists []. rewrite app_nil_r. split; [apply default_loop_done; lia |].
    split; [lia | constructor].
  - destruct (Z.lt_ge_cases start (llen lines)) as [Hlt | Hge].
    2: { exists []. rewrite app_nil_r. split; [apply default_loop_done; lia |].
         split; [lia | constructor]. }
    rewrite default_loop_step by assumption. cbv zeta.
    set (end_ := Z.min (start + chunk_size) (llen lines)).
    set (next := if end_ <? llen lines then end_ - 10 else end_).
    assert (Hnext : 0 <= next /\ (Z.to_nat (llen lines - next) <= fuel)%nat).
    { subst next. destruct (Z.ltb_spec end_ (llen lines)); subst end_; lia. }
    destruct Hnext as [Hnext0 Hnextfuel].
    destruct (IH next
                (chunks ++ [plain_chunk (join_lines (PyList.slice start end_ lines))
                                        (start + 1) end_])
                Hnext0 Hnextfuel) as (out & Hrun & _ & Hsegs).
    eexists (_ :: out). rewrite Hrun, <- app_assoc. split; [reflexivity |].
    split; [discriminate |].
    constructor; [| exact Hsegs].
    exists (start + 1), end_. replace (start + 1 - 1) with start by lia.
    subst end_. repeat split; lia.
Qed.

(** With at most ten lines to a segment, the loop never gets past the
    tenth line of a longer file. *)
Lemma default_loop_stuck lines chunk_size :
  chunk_size <= 10 -> 10 < llen lines ->
  forall fuel start chunks,
    start <= 0 -> default_loop lines chunk_size fuel start chunks = None.
Proof.
  intros Hsize Hlines. induction fuel as [| fuel IH]; intros start chunks Hstart.
  - apply default_loop_out_of_fuel. lia.
  - rewrite default_loop_step by lia. cbv zeta. apply IH.
    destruct (Z.ltb_spec (Z.min (start + chunk_size) (llen lines)) (llen lines)); lia.
Qed.

(** A file within the maximum size is one chunk, itself, whatever the
    minimum size. *)
Lemma chunk_default_small fuel text path :
  len text <= MAX_CHUNK_SIZE cfg ->
  chunk_default fuel text path = Some [plain_chunk text 1 (llen (split_lines text))].
Proof.
  intros Hle. unfold chunk_default.
  destruct (Z.leb_spec (len text) (MAX_CHUNK_SIZE cfg)); [reflexivity | lia].
Qed.

(** When the maximum size gives more than ten lines to a segment, the
    chunker returns, with at least one chunk: the file itself when it is
    within the maximum size, and otherwise segments of at most
    [MAX_CHUNK_SIZE // 10] lines. *)
Lemma chunk_default_total text path :
  10 < MAX_CHUNK_SIZE cfg / 10 ->
  exists chunks,
    chunk_default (List.length (split_lines text)) text path = Some chunks /\
    chunks <> [] /\
    (len text <= MAX_CHUNK_SIZE cfg ->
     chunks = [plain_chunk text 1 (llen (split_lines text))]) /\
    (MAX_CHUNK_SIZE cfg < len text ->
     Forall (segment (split_lines text) (MAX_CHUNK_SIZE cfg / 10)) chunks).
Proof.
  intros Hsize.
  destruct (Z.le_gt_cases (len text) (MAX_CHUNK_SIZE cfg)) as [Hle | Hgt].
  - eexists. split; [now apply chunk_default_small |].
    split; [discriminate |]. split; [reflexivity | lia].
  - unfold chunk_default.
    destruct (Z.leb_spec (len text) (MAX_CHUNK_SIZE cfg)); [lia |].
    destruct (default_loop_terminates (split_lines text) _ Hsize
                (List.length (split_lines text)) 0 [])
      as (out & Hrun & Hne & Hsegs); [lia | unfold llen; lia |].
    exists out. cbn [app] in Hrun. split; [exact Hrun |].
    split; [apply Hne; pose proof (llen_split_lines_pos text); lia |].
    split; [lia | intros _; exact Hsegs].
Qed.

(** When it gives at most ten, the chunker does not return on a file above
    the maximum size that has more than ten lines. *)
Lemma chunk_default_diverges text path :
  MAX_CHUNK_SIZE cfg / 10 <= 10 ->
  MAX_CHUNK_SIZE cfg < len text ->
  10 < llen (split_lines text) ->
  forall fuel, chunk_default fuel text path = None.
Proof.
  intros Hsize Hbig Hlines fuel. unfold chunk_default.
  destruct (Z.leb_spec (len text) (MAX_CHUNK_SIZE cfg)); [lia |].
  apply default_loop_stuck; (assumption || lia).
Qed.

(** *** The Java chunker on a file without declarations *)

Lemma java_no_match (lines : list str) :
  Forall (fun line => class_pattern_search line = None) lines ->
  forall i seen braces,
    exists braces',
      for_enumerate java_step lines i (mkJavaLoop [] seen 0 None braces false) =
      mkJavaLoop [] (seen ++ lines) 0 None braces' false.
Proof.
  induction 1 as [| line lines Hline Hlines IH]; intros i seen braces.
  - exists braces. cbn. now rewrite app_nil_r.
  - cbn [for_enumerate]. unfold java_step at 2. rewrite Hline. cbn.
    destruct (IH (i + 1) (seen ++ [line])
                (braces + (count "{"%byte line - count "}"%byte line)))
      as (braces' & Hrun).
    exists braces'. rewrite Hrun. now rewrite <- app_assoc.
Qed.

(** A file in which no line declares a class, an interface or an enum comes
    out of the Java chunker as one chunk, whatever its size. *)
Lemma chunk_java_no_declaration fuel text path :
  Forall (fun line => class_pattern_search line = None) (split_lines text) ->
  chunk_java fuel text path =
  Some (_add_metadata
          [mkChunk text 1 (llen (split_lines text)) (Some None) None None None] path).
Proof.
  intros Hnone. unfold chunk_java.
  destruct (java_no_match (split_lines text) Hnone 0 [] 0) as (braces' & Hrun).
  rewrite Hrun. cbn [jl_current_chunk jl_chunks jl_chunk_start jl_current_class app].
  pose proof (split_lines_nonempty text) as Hne.
  destruct (split_lines text) as [| l ls] eqn:Hsplit; [congruence |].
  cbn [is_empty negb app]. unfold java_chunk.
  rewrite <- Hsplit, join_split_lines. reflexivity.
Qed.

End Tiers.

(** *** Files for the examples *)

(** 250 lines of 20 letters. *)
Definition many_lines : str := join_lines (repeat (letters "a" 20) 250).

(** 189 one-letter lines, one line of 2000 letters, and eleven one-letter
    lines. *)
Definition short_tail : str :=
  join_lines (repeat (letters "b" 1) 189 ++ [letters "a" 2000] ++
              repeat (letters "b" 1) 11).

(** Twelve lines of ten letters. *)
Definition twelve_lines : str := join_lines (repeat (letters "a" 10) 12).

(** A configuration with a maximum of 100 characters. *)
Definition small_config : Config := mkConfig 100 100.

(** *** How large a chunk can be *)

(** The claim of C5 as it was stated fails: with the default sizes, the
    fixed-size chunker cuts the 250 lines of 20 letters into two segments,
    and the first one, lines 1 to 200, has 4199 characters, above the
    maximum of 2000. *)
Lemma fixed_size_chunk_above_maximum :
  let lines := split_lines many_lines in
  chunk_default default_config 2 many_lines "notes.txt" =
    Some [plain_chunk (join_lines (PyList.slice 0 200 lines)) 1 200;
          plain_chunk (join_lines (PyList.slice 190 250 lines)) 191 250] /\
  len (join_lines (PyList.slice 0 200 lines)) = 4199 /\
  MAX_CHUNK_SIZE default_config = 2000.
Proof. vm_compute. repeat split. Qed.

(** C5 (as amended).  A chunk of the syntax-tree tier is within the
    maximum size of that tier unless it is a whole qualifying node with no
    qualifying child, or a qualifying child that the re-split of a node
    above the maximum size emitted; the fixed-size tier, when the maximum
    size gives more than ten lines to a segment, returns the file itself
    when it is within the maximum size, and otherwise segments of at most
    [MAX_CHUNK_SIZE // 10] lines, whatever their length in characters; the
    Java pattern tier returns a file without a declaration line as one
    chunk, whatever its size. *)
Theorem chunk_size_bounds :
  (forall parse (src : str) (language path : string) (max_size : Z)
          (chunks : list AstChunking.Chunk) (c : AstChunking.Chunk),
      AstChunking.chunk_with_ast parse src language path max_size =
        Some (AstChunking.Returns chunks) ->
      In c chunks ->
      exists parser d,
        AstChunking.get_parser language = Some parser /\
        In d (AstChunking.preorder (parse parser src)) /\
        c = AstChunking.chunk_of src d /\
        AstChunking.qualifies src (AstChunking.chunk_types language) d = true /\
        (len (AstChunking.content c) <= max_size \/
         AstChunking.child_chunks src (AstChunking.chunk_types language) d = [] \/
         exists p,
           In p (AstChunking.preorder (parse parser src)) /\
           In d (AstChunking.children p) /\
           AstChunking.qualifies src (AstChunking.chunk_types language) p = true /\
           max_size < len (AstChunking.extract_node_text src p))) /\
  (forall (cfg : Config) (text : str) (path : string),
      10 < MAX_CHUNK_SIZE cfg / 10 ->
      exists chunks,
        chunk_default_returns cfg text path chunks /\
        chunks <> [] /\
        (len text <= MAX_CHUNK_SIZE cfg ->
         chunks = [plain_chunk text 1 (llen (split_lines text))]) /\
        (MAX_CHUNK_SIZE cfg < len text ->
         Forall (segment (split_lines text) (MAX_CHUNK_SIZE cfg / 10)) chunks)) /\
  (forall (cfg : Config) suffix_lower class_pattern_search (fuel : nat)
          (text : str) (path : string),
      Forall (fun line => class_pattern_search line = None) (split_lines text) ->
      exists c,
        chunk_java cfg suffix_lower class_pattern_search fuel text path = Some [c] /\
        content c = text).
Proof.
  split; [| split].
  - intros parse src language path max_size chunks c.
    apply AstChunking.ast_chunk_origin.
  - intros cfg text path Hsize.
    destruct (chunk_default_total cfg text path Hsize) as (chunks & Hrun & Hrest).
    exists chunks. split; [| exact Hrest].
    exists (List.length (split_lines text)). exact Hrun.
  - intros cfg suffix_lower class_pattern_search fuel text path Hnone.
    rewrite chunk_java_no_declaration by assumption.
    eexists. split; reflexivity.
Qed.

(** The default sizes at work on the 250 lines: segments of at most 200
    lines. *)
Lemma chunk_size_bounds_witness :
  exists chunks,
    chunk_default_returns default_config many_lines "notes.txt" chunks /\
    chunks <> [] /\
    Forall (segment (split_lines many_lines) (MAX_CHUNK_SIZE default_config / 10))
           chunks.
Proof.
  destruct (proj1 (proj2 chunk_size_bounds) default_config many_lines "notes.txt")
    as (chunks & Hrun & Hne & _ & Hsegs).
  - vm_compute. reflexivity.
  - exists chunks. split; [exact Hrun |]. split; [exact Hne |].
    apply Hsegs. vm_compute. reflexivity.
Defined.

(** The claim of C4 as it was stated fails: with the default minimum of
    100, the syntax-tree tier returns the method of 60 characters. *)
Lemma ast_chunk_below_configured_minimum :
  AstChunking.chunk_code_ast (fun _ _ => AstChunking.short_method_tree)
    AstChunking.short_method_source "java" "M.java" =
    Some (AstChunking.Returns
            [AstChunking.chunk_of AstChunking.short_method_source
               (AstChunking.mkNode "method_declaration" 0 60 [])]) /\
  len AstChunking.short_method_source = 60 /\
  MIN_CHUNK_SIZE default_config = 100.
Proof. vm_compute. repeat split. Qed.

(** *** The last segment *)

(** C6, on a file of 201 lines whose last eleven lines have one letter
    each: the chunker in force returns the last segment, lines 191 to 201,
    21 characters, below the minimum of 100, after a first chunk; the
    definition it replaces drops that remainder. *)
Theorem small_trailing_segment_is_emitted :
  let lines := split_lines short_tail in
  chunk_default default_config 2 short_tail "notes.txt" =
    Some [plain_chunk (join_lines (PyList.slice 0 200 lines)) 1 200;
          plain_chunk (join_lines (PyList.slice 190 201 lines)) 191 201] /\
  len (join_lines (PyList.slice 190 201 lines)) = 21 /\
  MIN_CHUNK_SIZE default_config = 100 /\
  chunk_default_shadowed default_config (fun _ => ".txt") short_tail "notes.txt" =
    [full_chunk (fun _ => ".txt") (join_lines (PyList.slice 0 190 lines))
       "notes.txt" 1 190].
Proof. vm_compute. repeat split. Qed.

(** *** Termination *)

(** C7, with a maximum size of 100 and twelve lines of ten letters: the
    loop of the fixed-size chunker starts every turn at the first line, and
    the chunker never returns. *)
Theorem chunk_default_loops_forever :
  forall fuel : nat,
    chunk_default small_config fuel twelve_lines "notes.txt" = None.
Proof.
  apply chunk_default_diverges; vm_compute; (reflexivity || discriminate).
Qed.

End Chunking.

(* ===================================================================== *)
(** ** More on the ledger *)
(* ===================================================================== *)

Module LedgerProps.

Import FileWatcher.

Local Open Scope string_scope.
Local Open Scope list_scope.

(** The keys of the ledger after one merge: the path is added at the end
    when it is new, and nothing else changes. *)
Lemma keys_merge action path pending :
  PyDict.keys (merge action path pending) =
  if in_dec string_dec path (PyDict.keys pending)
  then PyDict.keys pending
  else PyDict.keys pending ++ [path].
Proof.
  unfold merge.
  destruct (String.eqb action "deleted");
    [| destruct (is_deleted (PyDict.get path pending))];
    apply PyDict.keys_set.
Qed.

Lemma in_keys_merge action path pending q :
  In q (PyDict.keys (merge action path pending)) <->
  In q (PyDict.keys pending) \/ q = path.
Proof.
  rewrite keys_merge.
  destruct (in_dec string_dec path (PyDict.keys pending)) as [HIn | HIn].
  - split; [tauto |]. intros [H | ->]; assumption.
  - rewrite in_app_iff. cbn. intuition (subst; auto).
Qed.

Lemma length_merge action path pending :
  List.length (merge action path pending) =
  if in_dec string_dec path (PyDict.keys pending)
  then List.length pending
  else S (List.length pending).
Proof.
  unfold merge.
  destruct (String.eqb action "deleted");
    [| destruct (is_deleted (PyDict.get path pending))];
    apply PyDict.length_set.
Qed.

(** X1.  Draining never loses a path and never holds one twice: after any
    events, the paths of the ledger are those it had and those of the
    events, and the ledger has grown by at most one entry per event. *)
Theorem drain_queue_keeps_every_path (w : ProjectWatcher) (evs : list (string * string)) :
  (forall path,
      In path (PyDict.keys (_pending_changes (_drain_queue evs w))) <->
      In path (PyDict.keys (_pending_changes w)) \/ In path (map snd evs)) /\
  (List.length (_pending_changes w) <=
   List.length (_pending_changes (_drain_queue evs w)) <=
   List.length (_pending_changes w) + List.length evs)%nat /\
  (PyDict.wf (_pending_changes w) ->
   PyDict.wf (_pending_changes (_drain_queue evs w))).
Proof.
  split; [| split].
  - revert w. induction evs as [| [action p] evs IH]; intros w path.
    + cbn. tauto.
    + cbn [_drain_queue fold_left]. fold (_drain_queue evs (drain_event (action, p) w)).
      rewrite IH, pending_drain_event. cbn [fst snd map In].
      rewrite in_keys_merge. intuition congruence.
  - revert w. induction evs as [| [action p] evs IH]; intros w.
    + cbn. lia.
    + cbn [_drain_queue fold_left]. fold (_drain_queue evs (drain_event (action, p) w)).
      specialize (IH (drain_event (action, p) w)).
      rewrite pending_drain_event in IH. cbn [fst snd] in IH.
      rewrite length_merge in IH. cbn [List.length].
      destruct (in_dec string_dec p (PyDict.keys (_pending_changes w))); lia.
  - apply drain_queue_wf.
Qed.

(** The value that one event on [path] leaves is [deleted] exactly when the
    event is a deletion. *)
Lemma is_deleted_after_merge action path pending :
  is_deleted (PyDict.get path (merge action path pending)) =
  String.eqb action "deleted".
Proof.
  rewrite merge_get_same.
  destruct (String.eqb action "deleted") eqn:E; [reflexivity |].
  destruct (is_deleted (PyDict.get path pending)); cbn; [reflexivity | exact E].
Qed.

(** X2.  The merge remembers one event.  After two events on a path, with
    events on other paths before, between and after them, the ledger holds
    for that path [deleted] when the second is a deletion, [modified] when
    the first is a deletion and the second is not, and the second action
    otherwise, whatever came earlier.  So a deletion, a creation and
    another creation leave [created]. *)
Theorem merge_remembers_one_event (w : ProjectWatcher)
    (evs between after : list (string * string)) (a1 a2 path : string) :
  Forall (fun ev => snd ev <> path) between ->
  Forall (fun ev => snd ev <> path) after ->
  PyDict.get path
    (_pending_changes
       (_drain_queue (evs ++ [(a1, path)] ++ between ++ [(a2, path)] ++ after) w)) =
  Some (if String.eqb a2 "deleted" then "deleted"%string
        else if String.eqb a1 "deleted" then "modified"%string
        else a2).
Proof.
  intros Hbetween Hafter.
  rewrite !drain_queue_app. rewrite drain_queue_others by assumption.
  cbn [_drain_queue fold_left].
  rewrite pending_drain_event. cbn [fst snd]. rewrite merge_get_same.
  fold (_drain_queue between (drain_event (a1, path) (_drain_queue evs w))).
  rewrite drain_queue_others by assumption.
  rewrite pending_drain_event. cbn [fst snd]. now rewrite is_deleted_after_merge.
Qed.

(** A deletion, a creation and a second creation. *)
Lemma merge_remembers_one_event_witness :
  PyDict.get "src/A.java"
    (_pending_changes
       (_drain_queue
          ([("deleted", "src/A.java")] ++ [("created", "src/A.java")] ++
           [("modified", "src/B.java")] ++ [("created", "src/A.java")] ++ [])
          (new_watcher "proj" "db" 100))) = Some "created"%string.
Proof.
  apply (merge_remembers_one_event (new_watcher "proj" "db" 100)
           [("deleted", "src/A.java")%string] [("modified", "src/B.java")%string] []
           "created" "created" "src/A.java").
  - repeat constructor. discriminate.
  - constructor.
Defined.

End LedgerProps.

(* ===================================================================== *)
(** ** More on the batch processor *)
(* ===================================================================== *)

Module BatchProps.

Import FileWatcher.

Local Open Scope string_scope.
Local Open Scope list_scope.
Local Open Scope Z_scope.

(** What the [finally] block of [_process_batch] leaves of a watcher. *)
Definition finalized (w : ProjectWatcher) : ProjectWatcher :=
  let w1 := with_processing false w in
  match _pending_changes w1 with
  | [] => w1
  | _ :: _ => _reset_debounce w1
  end.

(** The lifetime counters after a batch that ran to its end. *)
Definition counted (s : Stats) (c : Counters) : Stats :=
  mkStats (files_indexed s + indexed c) (files_deleted s + deleted c)
          (batches_processed s + 1) (stat_errors s + errors c).

(** The lifetime counters after a batch that the outer handler ended. *)
Definition failed (s : Stats) : Stats :=
  mkStats (files_indexed s) (files_deleted s) (batches_processed s)
          (stat_errors s + 1).

(** No counter has gone down. *)
Definition grows (c c' : Counters) : Prop :=
  indexed c <= indexed c' /\ deleted c <= deleted c' /\
  skipped c <= skipped c' /\ errors c <= errors c'.

Lemma grows_refl c : grows c c.
Proof. unfold grows. lia. Qed.

Lemma grows_trans c1 c2 c3 : grows c1 c2 -> grows c2 c3 -> grows c1 c3.
Proof. unfold grows. lia. Qed.

Lemma in_get_wf (d : PyDict.t string) (k v : string) :
  PyDict.wf d -> (In (k, v) d <-> PyDict.get k d = Some v).
Proof.
  unfold PyDict.wf, PyDict.keys.
  induction d as [| [k' v'] d IH]; cbn [PyDict.get In map]; intros Hwf.
  - split; [contradiction | discriminate].
  - inversion Hwf as [| ? ? Hnotin Hd]; subst.
    destruct (String.eqb_spec k k') as [-> | Hk].
    + split.
      * intros [E | HIn]; [congruence |].
        exfalso. apply Hnotin. apply in_map_iff. now exists (k', v).
      * intros E. left. congruence.
    + rewrite <- (IH Hd). split.
      * intros [E | HIn]; [congruence | exact HIn].
      * intros HIn. now right.
Qed.

Section Oracles.

Variable World : Type.
Variable delete_by_path_async : string -> string -> World -> result Z * World.
Variable add_file_async : string -> string -> World -> result Z * World.
Variable path_exists : string -> World -> result bool.
Variable path_stat_size : string -> World -> result Z.
Variable set_iter : list string -> list string.

#[local] Abbreviation delete_step := (delete_one World delete_by_path_async).
#[local] Abbreviation upsert_step :=
  (upsert_one World add_file_async path_exists path_stat_size).
#[local] Abbreviation both_phases :=
  (phases World delete_by_path_async add_file_async path_exists path_stat_size).
#[local] Abbreviation run_batch :=
  (_process_batch World delete_by_path_async add_file_async path_exists
     path_stat_size set_iter).

(** *** The counters of a batch only grow *)

Lemma delete_one_grows path (f : Frame World) :
  grows (counts f) (counts (snd (delete_step path f))).
Proof.
  unfold delete_one, try_except, bind, call_delete.
  destruct (delete_by_path_async path (db_path (self f)) (world f)) as [[count | x] w'];
    simpl.
  - destruct (count >? 0); simpl; unfold grows; simpl; lia.
  - unfold grows; simpl; lia.
Qed.

Lemma upsert_one_grows path (f : Frame World) :
  grows (counts f) (counts (snd (upsert_step path f))).
Proof.
  unfold upsert_one, bind, call_exists, size_recheck, try_except_OSError, bind,
    call_stat_size, try_except, call_add_file.
  destruct (path_exists path (world f)) as [[|] | x]; simpl;
    try (unfold grows; simpl; lia).
  destruct (path_stat_size path (world f)) as [size | [|]]; simpl;
    try (unfold grows; simpl; lia).
  destruct (size >? size_ceiling); simpl; try (unfold grows; simpl; lia).
  destruct (add_file_async path (db_path (self f)) (world f)) as [[chunks | x] w'];
    simpl; try (unfold grows; simpl; lia).
  destruct (chunks >? 0); simpl; unfold grows; simpl; lia.
Qed.

Lemma for_each_grows (body : string -> M World unit) :
  (forall p f, self (snd (body p f)) = self f /\
               grows (counts f) (counts (snd (body p f)))) ->
  forall paths f,
    self (snd (for_each World paths body f)) = self f /\
    grows (counts f) (counts (snd (for_each World paths body f))).
Proof.
  intros Hbody. induction paths as [| p paths IH]; intros f.
  - cbn. split; [reflexivity | apply grows_refl].
  - cbn [for_each]. unfold bind.
    destruct (Hbody p f) as [Hs Hg].
    destruct (body p f) as [[[] | x] f1]; cbn [snd] in *.
    + destruct (IH f1) as [Hs' Hg']. split; [congruence |].
      exact (grows_trans _ _ _ Hg Hg').
    + split; assumption.
Qed.

Lemma delete_one_keeps path (f : Frame World) :
  self (snd (delete_step path f)) = self f /\
  grows (counts f) (counts (snd (delete_step path f))).
Proof.
  split; [| apply delete_one_grows].
  destruct (delete_one_spec World delete_by_path_async path f) as (f' & H & Hs & _).
  now rewrite H.
Qed.

Lemma upsert_one_keeps path (f : Frame World) :
  self (snd (upsert_step path f)) = self f /\
  grows (counts f) (counts (snd (upsert_step path f))).
Proof.
  split; [apply upsert_one_self | apply upsert_one_grows].
Qed.

(** The two loops and the statistics: either they run to the end, and the
    counters are added to the statistics; or an exception leaves them, and
    the watcher is as it was. *)
Lemma phases_cases deletes upserts (f : Frame World) :
  (exists f1,
      both_phases deletes upserts f =
        (Ok tt, mkFrame (with_stats (counted (stats (self f)) (counts f1)) (self f))
                        (world f1) (counts f1)) /\
      grows (counts f) (counts f1)) \/
  (exists x f1,
      both_phases deletes upserts f = (Raise x, f1) /\
      self f1 = self f /\ grows (counts f) (counts f1)).
Proof.
  unfold phases, bind.
  destruct (for_each_grows _ delete_one_keeps deletes f) as [Hs1 Hg1].
  destruct (for_each World deletes delete_step f) as [[[] | x] f1]; cbn [snd] in *.
  - destruct (for_each_grows _ upsert_one_keeps upserts f1) as [Hs2 Hg2].
    destruct (for_each World upserts upsert_step f1) as [[[] | x] f2]; cbn [snd] in *.
    + left. exists f2. unfold update_stats, counted. rewrite Hs2, Hs1.
      split; [reflexivity | exact (grows_trans _ _ _ Hg1 Hg2)].
    + right. exists x, f2. split; [reflexivity |]. split; [congruence |].
      exact (grows_trans _ _ _ Hg1 Hg2).
  - right. exists x, f1. auto.
Qed.

(** *** What a batch leaves of the watcher *)

Lemma finalized_fields (w : ProjectWatcher) :
  _pending_changes (finalized w) = _pending_changes w /\
  _processing (finalized w) = false /\
  _stopped (finalized w) = _stopped w /\
  max_batch_size (finalized w) = max_batch_size w /\
  stats (finalized w) = stats w /\
  _debounce_handle (finalized w) =
    match _pending_changes w with
    | [] => _debounce_handle w
    | _ :: _ => Some DebounceSeconds
    end.
Proof.
  unfold finalized. destruct w as [? ? ? pc ? ? ? ?]. cbn.
  destruct pc; cbn; repeat split.
Qed.

(** [_process_batch] on a ledger that is not empty: the watcher that the
    snapshot and the cap left, with the statistics of a batch that ran to
    its end or of one that the outer handler ended, after the [finally]
    block. *)
Lemma run_batch_summary (w : ProjectWatcher) (e : World) :
  _pending_changes w <> [] ->
  let snap := snapshot_and_cap (with_processing true w) in
  exists st c e',
    run_batch w e = (Ok tt, mkFrame (finalized (with_stats st (snd snap))) e' c) /\
    grows zero_counters c /\
    ((st = counted (stats w) c /\
      exists f1,
        both_phases (deletes_of set_iter (fst snap)) (upserts_of set_iter (fst snap))
          (mkFrame (snd snap) e zero_counters) = (Ok tt, f1)) \/
     (st = failed (stats w) /\
      exists x f1,
        both_phases (deletes_of set_iter (fst snap)) (upserts_of set_iter (fst snap))
          (mkFrame (snd snap) e zero_counters) = (Raise x, f1))).
Proof.
  intros Hne. cbv zeta. unfold _process_batch.
  destruct (_pending_changes w) as [| kv rest]; [congruence |].
  pose proof (snapshot_keeps_flags (with_processing true w)) as (_ & _ & Hstats & _).
  destruct (snapshot_and_cap (with_processing true w)) as [batch w2].
  cbn [fst snd] in *. cbn in Hstats.
  unfold try_finally, try_except.
  destruct (phases_cases (deletes_of set_iter batch) (upserts_of set_iter batch)
              (mkFrame w2 e zero_counters))
    as [(f1 & Hrun & Hg) | (x & f1 & Hrun & Hs & Hg)]; rewrite Hrun.
  - exists (counted (stats w) (counts f1)), (counts f1), (world f1).
    cbn [self] in *. rewrite Hstats.
    split; [reflexivity |]. split; [exact Hg |]. left. split; [reflexivity |].
    eexists. reflexivity.
  - exists (failed (stats w)), (counts f1), (world f1).
    unfold on_batch_error, finalizer, modify_self. cbn [self counts world] in *.
    rewrite Hs, Hstats.
    split; [reflexivity |]. split; [exact Hg |]. right. split; [reflexivity |].
    exists x, f1. reflexivity.
Qed.

(** The snapshot and the cap, for a cap that is a count. *)
Lemma snapshot_and_cap_count (w : ProjectWatcher) (cap : nat) :
  PyDict.wf (_pending_changes w) ->
  max_batch_size w = Z.of_nat cap ->
  snapshot_and_cap w =
    (firstn cap (_pending_changes w),
     with_pending (skipn cap (_pending_changes w)) w).
Proof.
  intros Hwf Hcap.
  destruct (Nat.lt_ge_cases cap (List.length (_pending_changes w))) as [Hlt | Hge].
  - rewrite snapshot_and_cap_over by (assumption || lia).
    now rewrite Hcap, Nat2Z.id.
  - rewrite snapshot_and_cap_under by (assumption || lia).
    now rewrite firstn_all2, skipn_all2 by lia.
Qed.

(** The ledger and the cap after one batch. *)
Lemma run_batch_ledger (w : ProjectWatcher) (e : World) (cap : nat) :
  PyDict.wf (_pending_changes w) ->
  max_batch_size w = Z.of_nat cap ->
  let w' := self (snd (run_batch w e)) in
  _pending_changes w' = skipn cap (_pending_changes w) /\
  max_batch_size w' = Z.of_nat cap.
Proof.
  intros Hwf Hcap. cbv zeta.
  assert (Hcase : _pending_changes w = [] \/ _pending_changes w <> [])
    by (destruct (_pending_changes w); [now left | right; discriminate]).
  destruct Hcase as [Hnil | Hne].
  - unfold _process_batch. rewrite Hnil. cbn [snd self].
    rewrite Hnil. now rewrite skipn_nil.
  - destruct (run_batch_summary w e Hne) as (st & c & e' & Hrun & _).
    rewrite Hrun. cbn [snd self].
    rewrite snapshot_and_cap_count with (cap := cap); [| exact Hwf | exact Hcap].
    cbn [snd].
    set (w2 := with_pending (skipn cap (_pending_changes (with_processing true w)))
                            (with_processing true w)).
    destruct (finalized_fields (with_stats st w2)) as (Hp & _ & _ & Hm & _).
    rewrite Hp, Hm. cbn. auto.
Qed.

(** *** A ledger within the cap *)

(** X3.  A ledger that is not empty and has no more entries than the cap
    is taken whole: the batch is the ledger, [_process_batch] returns with
    an empty ledger and the flag down, and it does not touch the timer.
    When the probes behave, every entry has been counted once. *)
Theorem batch_within_cap (w : ProjectWatcher) (e : World) :
  PyDict.wf (_pending_changes w) ->
  _pending_changes w <> [] ->
  Z.of_nat (List.length (_pending_changes w)) <= max_batch_size w ->
  fst (snapshot_and_cap (with_processing true w)) = _pending_changes w /\
  exists f',
    run_batch w e = (Ok tt, f') /\
    _pending_changes (self f') = [] /\
    _processing (self f') = false /\
    _debounce_handle (self f') = _debounce_handle w /\
    (set_iter_sound set_iter ->
     probes_behave World path_exists path_stat_size ->
     total (counts f') = Z.of_nat (List.length (_pending_changes w))).
Proof.
  intros Hwf Hne Hcap.
  assert (Hsnap : snapshot_and_cap (with_processing true w) =
                  (_pending_changes w, with_pending [] (with_processing true w))).
  { now rewrite snapshot_and_cap_under. }
  split; [now rewrite Hsnap |].
  destruct (run_batch_summary w e Hne) as (st & c & e' & Hrun & _).
  rewrite Hsnap in Hrun. cbn [snd] in Hrun.
  eexists. split; [exact Hrun |]. cbn [self counts].
  destruct (finalized_fields (with_stats st (with_pending [] (with_processing true w))))
    as (Hp & Hf & _ & _ & _ & Hh).
  rewrite Hp, Hf, Hh. cbn. repeat split.
  intros Hset Hprobes.
  destruct (process_batch_spec World delete_by_path_async add_file_async path_exists
              path_stat_size set_iter w e Hprobes Hset Hne) as (f'' & Hrun' & Ht & _).
  rewrite Hrun in Hrun'. injection Hrun' as <-.
  cbn [counts] in Ht. rewrite Ht, Hsnap. reflexivity.
Qed.

(** *** One batch after the other *)

(** One run of [_process_batch] with nothing in between: the watcher and
    the world it leaves. *)
Definition cycle (st : ProjectWatcher * World) : ProjectWatcher * World :=
  let f := snd (run_batch (fst st) (snd st)) in (self f, world f).

(** X4.  With a cap that is a count, and no event arriving, each batch
    takes the next [cap] entries of the ledger in order: after [n] batches
    the ledger holds what follows its first [n * cap] entries, and it is
    empty once [n * cap] reaches its length. *)
Theorem ledger_after_cycles (w : ProjectWatcher) (e : World) (cap n : nat) :
  PyDict.wf (_pending_changes w) ->
  max_batch_size w = Z.of_nat cap ->
  _pending_changes (fst (Nat.iter n cycle (w, e))) =
    skipn (n * cap) (_pending_changes w) /\
  (List.length (_pending_changes w) <= n * cap ->
   _pending_changes (fst (Nat.iter n cycle (w, e))) = [])%nat.
Proof.
  intros Hwf Hcap.
  assert (Hinv : _pending_changes (fst (Nat.iter n cycle (w, e))) =
                   skipn (n * cap) (_pending_changes w) /\
                 max_batch_size (fst (Nat.iter n cycle (w, e))) = Z.of_nat cap).
  { induction n as [| n [IHp IHm]].
    - cbn. auto.
    - rewrite Nat.iter_succ.
      set (st := Nat.iter n cycle (w, e)) in *.
      destruct (run_batch_ledger (fst st) (snd st) cap) as [Hp Hm].
      + rewrite IHp. now apply PyDict.wf_skipn.
      + exact IHm.
      + unfold cycle. cbn [fst]. split; [| exact Hm].
        rewrite Hp, IHp, skipn_skipn. f_equal; lia. }
  destruct Hinv as [Hp _]. split; [exact Hp |].
  intros Hlen. rewrite Hp. now apply skipn_all2.
Qed.

(** *** A cap of zero *)

Lemma set_iter_nil : set_iter_sound set_iter -> set_iter [] = [].
Proof.
  intros Hset. apply Permutation_nil. symmetry. apply Hset. constructor.
Qed.

(** X5.  With a cap of zero a batch takes nothing: the whole ledger is put
    back, no path is visited and the world is not touched, yet the batch
    is counted and the [finally] block restarts the timer.  Nothing pending
    is ever processed. *)
Theorem zero_cap_makes_no_progress (w : ProjectWatcher) (e : World) :
  set_iter_sound set_iter ->
  PyDict.wf (_pending_changes w) ->
  _pending_changes w <> [] ->
  max_batch_size w = 0 ->
  exists w',
    run_batch w e = (Ok tt, mkFrame w' e zero_counters) /\
    _pending_changes w' = _pending_changes w /\
    _debounce_handle w' = Some DebounceSeconds /\
    _processing w' = false /\
    batches_processed (stats w') = batches_processed (stats w) + 1 /\
    files_indexed (stats w') = files_indexed (stats w) /\
    files_deleted (stats w') = files_deleted (stats w).
Proof.
  intros Hset Hwf Hne Hcap.
  unfold _process_batch.
  destruct (_pending_changes w) as [| kv rest] eqn:Hpend; [congruence |].
  rewrite snapshot_and_cap_count with (cap := 0%nat);
    [| cbn; now rewrite Hpend | exact Hcap].
  cbn [firstn skipn]. unfold deletes_of, upserts_of. cbn [filter map].
  rewrite (set_iter_nil Hset).
  eexists. split; [reflexivity |].
  cbn. rewrite Hpend. cbn. repeat split; lia.
Qed.

(** *** The lifetime counters *)

(** X6.  Whatever the store and the file system do, a batch never lowers a
    lifetime counter, and it counts at most one batch. *)
Theorem lifetime_counters_only_grow (w : ProjectWatcher) (e : World) :
  let s := stats w in
  let s' := stats (self (snd (run_batch w e))) in
  files_indexed s <= files_indexed s' /\
  files_deleted s <= files_deleted s' /\
  stat_errors s <= stat_errors s' /\
  batches_processed s <= batches_processed s' <= batches_processed s + 1.
Proof.
  cbv zeta.
  assert (Hcase : _pending_changes w = [] \/ _pending_changes w <> [])
    by (destruct (_pending_changes w); [now left | right; discriminate]).
  destruct Hcase as [Hnil | Hne].
  - unfold _process_batch. rewrite Hnil. cbn. lia.
  - destruct (run_batch_summary w e Hne) as (st & c & e' & Hrun & Hg & Hst).
    rewrite Hrun. cbn [snd self].
    destruct (finalized_fields
                (with_stats st (snd (snapshot_and_cap (with_processing true w)))))
      as (_ & _ & _ & _ & Hs & _).
    rewrite Hs. cbn [stats with_stats].
    unfold grows in Hg. cbn in Hg.
    destruct Hst as [[-> _] | [-> _]]; cbn; lia.
Qed.

(** A path whose existence check raises ends the second loop. *)
Lemma upserts_raise (p : string) (x : exn) (upserts : list string) :
  In p upserts ->
  (forall e, path_exists p e = Raise x) ->
  forall f, exists y f1, for_each World upserts upsert_step f = (Raise y, f1).
Proof.
  intros HIn Hraise. induction upserts as [| q upserts IH]; intros f.
  - contradiction.
  - cbn [for_each]. unfold bind.
    destruct (upsert_step q f) as [[[] | y] f1] eqn:Hq.
    + destruct HIn as [-> | HIn].
      * rewrite (upsert_one_exists_raises World add_file_async path_exists
                   path_stat_size p f x (Hraise _)) in Hq. discriminate.
      * now apply IH.
    + exists y, f1. reflexivity.
Qed.

(** X7.  When the existence check raises for a path that the batch is to
    index, the outer handler ends the batch: [_process_batch] still returns
    normally with the flag down, but of the whole batch only one error is
    recorded.  The files it indexed and deleted before are not added to the
    lifetime counters, and the batch is not counted. *)
Theorem failed_existence_check_ends_batch (w : ProjectWatcher) (e : World)
    (p : string) (x : exn) :
  _pending_changes w <> [] ->
  In p (upserts_of set_iter (fst (snapshot_and_cap (with_processing true w)))) ->
  (forall e', path_exists p e' = Raise x) ->
  exists f',
    run_batch w e = (Ok tt, f') /\
    stats (self f') = failed (stats w) /\
    _processing (self f') = false /\
    _pending_changes (self f') =
      _pending_changes (snd (snapshot_and_cap (with_processing true w))).
Proof.
  intros Hne HIn Hraise.
  destruct (run_batch_summary w e Hne) as (st & c & e' & Hrun & _ & Hst).
  eexists. split; [exact Hrun |]. cbn [self].
  destruct (finalized_fields
              (with_stats st (snd (snapshot_and_cap (with_processing true w)))))
    as (Hp & Hf & _ & _ & Hs & _).
  rewrite Hp, Hf, Hs. cbn [stats with_stats _pending_changes].
  destruct Hst as [[_ (f1 & Hok)] | [-> _]].
  - exfalso. unfold phases, bind in Hok.
    destruct (for_each_delete_spec World delete_by_path_async
                (deletes_of set_iter (fst (snapshot_and_cap (with_processing true w))))
                (mkFrame (snd (snapshot_and_cap (with_processing true w))) e
                   zero_counters)) as (fd & Hd & _).
    rewrite Hd in Hok.
    destruct (upserts_raise p x _ HIn Hraise fd) as (y & fu & Hu).
    rewrite Hu in Hok. discriminate.
  - repeat split.
Qed.

(** *** Each path at most once *)

(** The paths on which the loop [for x in l] enters its body: the loop
    ends with the first path on which the body raises. *)
Fixpoint visited (l : list string) (body : string -> M World unit) (f : Frame World)
  : list string :=
  match l with
  | [] => []
  | x :: xs =>
      x :: match body x f with
           | (Ok _, f') => visited xs body f'
           | (Raise _, _) => []
           end
  end.

Definition raised {A : Type} (r : result A) : Z :=
  match r with Ok _ => 0 | Raise _ => 1 end.

(** A body that counts one outcome when it returns and none when it
    raises. *)
Definition counts_visit (body : string -> M World unit) : Prop :=
  forall p f,
    total (counts (snd (body p f))) + raised (fst (body p f)) = total (counts f) + 1.

Lemma delete_one_counts : counts_visit delete_step.
Proof.
  intros p f.
  destruct (delete_one_spec World delete_by_path_async p f) as (f' & H & _ & Ht & _).
  rewrite H. cbn [fst snd raised]. lia.
Qed.

Lemma upsert_one_counts : counts_visit upsert_step.
Proof.
  intros p f.
  unfold upsert_one, bind, call_exists, size_recheck, try_except_OSError, bind,
    call_stat_size, try_except, call_add_file.
  destruct (path_exists p (world f)) as [[|] | x]; cbn;
    try (unfold total; cbn; lia).
  destruct (path_stat_size p (world f)) as [size | [|]]; cbn;
    try (unfold total; cbn; lia).
  destruct (size >? size_ceiling); cbn; try (unfold total; cbn; lia).
  destruct (add_file_async p (db_path (self f)) (world f)) as [[chunks | x] w'];
    cbn; try (unfold total; cbn; lia).
  destruct (chunks >? 0); cbn; unfold total; cbn; lia.
Qed.

(** The visited paths are the front of the list, the whole of it when the
    loop ends normally; the loop does to the frame what it does on the
    visited paths alone, and counts one outcome for every visit but the one
    that raised. *)
Lemma for_each_visited (body : string -> M World unit) :
  counts_visit body ->
  forall l f,
    (exists rest,
        l = visited l body f ++ rest /\
        (fst (for_each World l body f) = Ok tt -> rest = [])) /\
    for_each World (visited l body f) body f = for_each World l body f /\
    total (counts (snd (for_each World l body f))) +
      raised (fst (for_each World l body f)) =
    total (counts f) + Z.of_nat (List.length (visited l body f)).
Proof.
  intros Hbody. induction l as [| x xs IH]; intros f.
  - cbn. split; [exists []; auto |]. split; [reflexivity | lia].
  - cbn [visited for_each]. unfold bind. specialize (Hbody x f).
    destruct (body x f) as [[[] | y] f1] eqn:Hx; cbn [fst snd raised] in Hbody.
    + destruct (IH f1) as ((rest & Hrest & Hall) & Hsame & Hcount).
      split; [| split].
      * exists rest. split; [cbn [app]; now rewrite <- Hrest | exact Hall].
      * exact Hsame.
      * cbn [List.length]. lia.
    + split; [| split].
      * exists xs. split; [reflexivity | discriminate].
      * reflexivity.
      * cbn [fst snd raised List.length]. lia.
Qed.

(** X8.  No path of a batch is visited twice.  The first loop of
    [_process_batch] enters its body on every path that is pending as
    [deleted]; the second loop on the other paths, in the order of the set,
    up to the first path on which the existence check or the size re-check
    raises to the outer handler, and the paths after that one are not
    visited.  When the second loop runs to its end, as it does when the
    probes behave, each path of the batch is visited exactly once.
    [_process_batch] returns with one outcome counted for every visit,
    apart from the visit that raised. *)
Theorem no_path_visited_twice (w : ProjectWatcher) (e : World) :
  set_iter_sound set_iter ->
  _pending_changes w <> [] ->
  let snap := snapshot_and_cap (with_processing true w) in
  let batch := fst snap in
  let deletes := deletes_of set_iter batch in
  let upserts := upserts_of set_iter batch in
  let start := mkFrame (snd snap) e zero_counters in
  let between := snd (for_each World deletes delete_step start) in
  let first := visited deletes delete_step start in
  let second := visited upserts upsert_step between in
  let second_loop := for_each World upserts upsert_step between in
  (first = deletes /\
   forall p, In p deletes <-> PyDict.get p batch = Some "deleted") /\
  ((exists rest, upserts = second ++ rest /\ (fst second_loop = Ok tt -> rest = [])) /\
   for_each World second upsert_step between = second_loop /\
   forall p, In p upserts <->
             exists a, PyDict.get p batch = Some a /\ a <> "deleted") /\
  NoDup (first ++ second) /\
  (fst second_loop = Ok tt -> Permutation (first ++ second) (PyDict.keys batch)) /\
  (probes_behave World path_exists path_stat_size -> fst second_loop = Ok tt) /\
  exists f',
    run_batch w e = (Ok tt, f') /\
    total (counts f') + raised (fst second_loop) =
      Z.of_nat (List.length (first ++ second)).
Proof.
  intros Hset Hne. cbv zeta.
  pose proof (snapshot_batch_wf (with_processing true w)) as Hwf.
  unfold _process_batch.
  destruct (_pending_changes w) as [| kv pending]; [congruence |]. clear Hne.
  destruct (snapshot_and_cap (with_processing true w)) as [batch w2].
  cbn [fst snd] in *.
  set (start := mkFrame w2 e zero_counters).
  destruct (for_each_visited _ delete_one_counts (deletes_of set_iter batch) start)
    as ((rest1 & Hrest1 & Hall1) & _ & Hcount1).
  destruct (for_each_delete_spec World delete_by_path_async
              (deletes_of set_iter batch) start) as (fd & Hd & _).
  rewrite Hd in *. cbn [fst snd raised] in *.
  specialize (Hall1 eq_refl). subst rest1. rewrite app_nil_r in Hrest1.
  destruct (for_each_visited _ upsert_one_counts (upserts_of set_iter batch) fd)
    as ((rest2 & Hrest2 & Hall2) & Hsame2 & Hcount2).
  assert (Hparts : Permutation (deletes_of set_iter batch ++ upserts_of set_iter batch)
                               (PyDict.keys batch))
    by now apply deletes_upserts_partition.
  assert (Hnodup : NoDup (deletes_of set_iter batch ++ upserts_of set_iter batch)).
  { apply Permutation_NoDup with (l := PyDict.keys batch); [now symmetry | exact Hwf]. }
  split; [| split; [| split; [| split; [| split]]]].
  - split; [now symmetry |].
    intros p. unfold deletes_of.
    rewrite (Permutation_in' (eq_refl p) (Hset _ (keys_filter_NoDup _ _ Hwf))).
    rewrite in_map_iff. split.
    + intros ([q a] & <- & HIn). apply filter_In in HIn. destruct HIn as [HIn Ha].
      cbn in *. apply String.eqb_eq in Ha. subst a. now apply in_get_wf.
    + intros Hget. exists (p, "deleted"). split; [reflexivity |].
      apply filter_In. split; [now apply in_get_wf | reflexivity].
  - split; [exists rest2; split; assumption |]. split; [exact Hsame2 |].
    intros p. unfold upserts_of.
    rewrite (Permutation_in' (eq_refl p) (Hset _ (keys_filter_NoDup _ _ Hwf))).
    rewrite in_map_iff. split.
    + intros ([q a] & <- & HIn). apply filter_In in HIn. destruct HIn as [HIn Ha].
      cbn in *. exists a. split; [now apply in_get_wf |].
      intros ->. discriminate.
    + intros (a & Hget & Ha). exists (p, a). split; [reflexivity |].
      apply filter_In. split; [now apply in_get_wf |].
      cbn. now destruct (String.eqb_spec a "deleted").
  - rewrite <- Hrest1. rewrite Hrest2, app_assoc in Hnodup.
    now apply NoDup_app_remove_r in Hnodup.
  - intros Hok. rewrite (Hall2 Hok), app_nil_r in Hrest2.
    now rewrite <- Hrest1, <- Hrest2.
  - intros Hprobes.
    destruct (for_each_upsert_spec World add_file_async path_exists path_stat_size
                (upserts_of set_iter batch) fd Hprobes) as (fu & Hu & _).
    now rewrite Hu.
  - unfold try_finally, try_except, phases, bind. rewrite Hd.
    rewrite length_app, Nat2Z.inj_add.
    change (total (counts start)) with 0 in Hcount1.
    destruct (for_each World (upserts_of set_iter batch) upsert_step fd)
      as [[[] | x] fu]; cbn [fst snd raised] in *.
    + eexists. split; [reflexivity |]. cbn [counts]. lia.
    + eexists. split; [reflexivity |]. cbn [counts]. lia.
Qed.

End Oracles.

(** *** Examples *)

(** A file system in which the existence check fails on one path. *)
Definition locked_exists (path : string) (lock : bool) : result bool :=
  if String.eqb path "src/Bad.java" then Raise OSError else Ok true.

(** The five entries within a cap of 100. *)
Lemma batch_within_cap_witness :
  exists f',
    demo_process_batch (demo_watcher 100 demo_events) false = (Ok tt, f') /\
    _pending_changes (self f') = [] /\
    total (counts f') = 5.
Proof.
  destruct (batch_within_cap bool demo_delete demo_add_file demo_exists demo_stat_size
              demo_set_iter (demo_watcher 100 demo_events) false
              (demo_watcher_wf 100 demo_events))
    as (_ & f' & Hrun & Hp & _ & _ & Ht).
  - discriminate.
  - cbn. lia.
  - exists f'. split; [exact Hrun |]. split; [exact Hp |].
    exact (Ht demo_set_iter_sound demo_probes_behave).
Defined.

(** Five entries and a cap of two: empty after three batches. *)
Lemma ledger_after_cycles_witness :
  _pending_changes
    (fst (Nat.iter 3
            (cycle bool demo_delete demo_add_file demo_exists demo_stat_size
               demo_set_iter)
            (demo_watcher 2 demo_events, false))) = [].
Proof.
  apply (proj2 (ledger_after_cycles bool demo_delete demo_add_file demo_exists
                  demo_stat_size demo_set_iter (demo_watcher 2 demo_events) false 2 3
                  (demo_watcher_wf 2 demo_events) eq_refl)).
  cbn. lia.
Defined.

(** Five entries and a cap of zero. *)
Lemma zero_cap_makes_no_progress_witness :
  exists w',
    demo_process_batch (demo_watcher 0 demo_events) false =
      (Ok tt, mkFrame w' false zero_counters) /\
    _pending_changes w' = _pending_changes (demo_watcher 0 demo_events) /\
    batches_processed (stats w') = 0 + 1.
Proof.
  destruct (zero_cap_makes_no_progress bool demo_delete demo_add_file demo_exists
              demo_stat_size demo_set_iter (demo_watcher 0 demo_events) false
              demo_set_iter_sound (demo_watcher_wf 0 demo_events))
    as (w' & Hrun & Hp & _ & _ & Hb & _).
  - discriminate.
  - reflexivity.
  - exists w'. split; [exact Hrun |]. split; [exact Hp | exact Hb].
Defined.

(** Two files are indexed and the store is asked to delete a third before
    the existence check fails on the fourth: one error, and nothing else,
    is recorded. *)
Lemma failed_existence_check_witness :
  exists f',
    _process_batch bool demo_delete demo_add_file locked_exists demo_stat_size
      demo_set_iter (demo_watcher 100 demo_events) false = (Ok tt, f') /\
    stats (self f') = mkStats 0 0 0 1.
Proof.
  destruct (failed_existence_check_ends_batch bool demo_delete demo_add_file
              locked_exists demo_stat_size demo_set_iter
              (demo_watcher 100 demo_events) false "src/Bad.java" OSError)
    as (f' & Hrun & Hs & _).
  - discriminate.
  - cbn. right. right. now left.
  - reflexivity.
  - exists f'. split; [exact Hrun | exact Hs].
Defined.

(** The five entries, with an existence check that fails on the fourth:
    the deletion and three of the four other paths are visited, none twice,
    and three outcomes are counted. *)
Lemma no_path_visited_twice_witness :
  visited bool
    (upserts_of demo_set_iter (_pending_changes (demo_watcher 100 demo_events)))
    (upsert_one bool demo_add_file locked_exists demo_stat_size)
    (mkFrame (with_pending [] (with_processing true (demo_watcher 100 demo_events)))
       false (mkCounters 0 0 0 1)) =
    ["src/A.java"; "src/B.java"; "src/Bad.java"] /\
  exists f',
    _process_batch bool demo_delete demo_add_file locked_exists demo_stat_size
      demo_set_iter (demo_watcher 100 demo_events) false = (Ok tt, f') /\
    total (counts f') + 1 = 4.
Proof.
  split; [reflexivity |].
  destruct (no_path_visited_twice bool demo_delete demo_add_file locked_exists
              demo_stat_size demo_set_iter (demo_watcher 100 demo_events) false
              demo_set_iter_sound ltac:(discriminate))
    as (_ & _ & _ & _ & _ & f' & Hrun & Hcount).
  exists f'. split; [exact Hrun | exact Hcount].
Defined.

End BatchProps.

(* ===================================================================== *)
(** ** More on the scheduler *)
(* ===================================================================== *)

Module SchedulerProps.

Import FileWatcher.
Import BatchProps.

Local Open Scope string_scope.
Local Open Scope list_scope.
Local Open Scope Z_scope.

Section Loop.

Variable World : Type.
Variable delete_by_path_async : string -> string -> World -> result Z * World.
Variable add_file_async : string -> string -> World -> result Z * World.
Variable path_exists : string -> World -> result bool.
Variable path_is_dir : string -> World -> result bool.
Variable path_stat_size : string -> World -> result Z.
Variable joinpath : string -> string -> string.
Variable set_iter : list string -> list string.

#[local] Abbreviation loop_step :=
  (step World delete_by_path_async add_file_async path_exists path_is_dir
     path_stat_size joinpath set_iter).
#[local] Abbreviation loop_run :=
  (run World delete_by_path_async add_file_async path_exists path_is_dir
     path_stat_size joinpath set_iter).
#[local] Abbreviation git_active :=
  (_is_git_active World path_exists path_is_dir joinpath).
#[local] Abbreviation resume :=
  (advance World delete_by_path_async add_file_async path_exists path_stat_size).

(** The end of a batch changes the statistics of the watcher, and then
    what the [finally] block changes. *)
Lemma close_batch_self (r : result unit) (f : Frame World) :
  exists st, self (snd (close_batch World r f)) = finalized (with_stats st (self f)).
Proof.
  unfold close_batch, try_finally, try_except.
  destruct r as [[] | x].
  - unfold update_stats, finalizer, modify_self. cbn [snd self]. eexists. reflexivity.
  - unfold on_batch_error, finalizer, modify_self. cbn [snd self]. eexists. reflexivity.
Qed.

(** A resumed batch leaves the watcher alone, or ends. *)
Lemma advance_watcher (t : Task) (w : ProjectWatcher) (e : World) :
  fst (fst (resume t w e)) <> None /\ snd (fst (resume t w e)) = w \/
  fst (fst (resume t w e)) = None /\
  exists st, snd (fst (resume t w e)) = finalized (with_stats st w).
Proof.
  unfold advance.
  destruct (t_deletes t) as [| p ds].
  - destruct (t_upserts t) as [| p us].
    + right. split; [reflexivity |].
      apply (close_batch_self (Ok tt) (mkFrame w e (t_counts t))).
    + pose proof (upsert_one_self World add_file_async path_exists path_stat_size p
                    (mkFrame w e (t_counts t))) as Hs.
      destruct (upsert_one World add_file_async path_exists path_stat_size p
                  (mkFrame w e (t_counts t))) as [[[] | x] f1]; cbn [snd self] in Hs.
      * left. split; [discriminate | exact Hs].
      * right. split; [reflexivity |].
        destruct (close_batch_self (Raise x) f1) as [st Hst].
        exists st. cbn [fst snd]. now rewrite Hst, Hs.
  - destruct (delete_one_spec World delete_by_path_async p (mkFrame w e (t_counts t)))
      as (f1 & H1 & Hs & _).
    rewrite H1. left. split; [discriminate | exact Hs].
Qed.

Lemma length_put_nth {A : Type} (i : nat) (x : option A) (l : list A) :
  (List.length (put_nth i x l) <= List.length l)%nat.
Proof.
  revert i. induction l as [| a l IH]; intros i.
  - destruct i; cbn; lia.
  - destruct i as [| i]; cbn.
    + destruct x; cbn; lia.
    + specialize (IH i). lia.
Qed.

(** *** After [stop()] *)

Lemma step_when_stopped (s : System World) (ev : event World) :
  _stopped (watcher s) = true ->
  _stopped (watcher (loop_step s ev)) = true /\
  _pending_changes (watcher (loop_step s ev)) = _pending_changes (watcher s) /\
  (List.length (in_flight (loop_step s ev)) <= List.length (in_flight s))%nat.
Proof.
  intros Hstop. destruct ev as [action path | | i | | e]; cbn [step].
  - rewrite Hstop. auto.
  - unfold _trigger_processing. rewrite Hstop. auto.
  - destruct (nth_error (in_flight s) i) as [t |]; [| auto].
    pose proof (advance_watcher t (watcher s) (env s)) as Hadv.
    pose proof (length_put_nth i (fst (fst (resume t (watcher s) (env s)))) (in_flight s))
      as Hlen.
    destruct (resume t (watcher s) (env s)) as [[t' w'] e']. cbn [fst snd] in *.
    cbn [watcher in_flight].
    destruct Hadv as [[_ ->] | [_ [st ->]]]; [auto |].
    destruct (finalized_fields (with_stats st (watcher s))) as (Hp & _ & Hs & _).
    rewrite Hp, Hs. cbn. auto.
  - cbn. auto.
  - cbn. auto.
Qed.

(** X9.  Once the watcher is stopped, whatever runs on the loop afterwards,
    it stays stopped, no batch is started and the ledger is never written
    again: events are no longer merged and a timer that fires does nothing.
    A batch that was in flight may still run to its end. *)
Theorem stopped_watcher_is_frozen (s : System World) (evs : list (event World)) :
  _stopped (watcher s) = true ->
  _stopped (watcher (loop_run s evs)) = true /\
  _pending_changes (watcher (loop_run s evs)) = _pending_changes (watcher s) /\
  (List.length (in_flight (loop_run s evs)) <= List.length (in_flight s))%nat.
Proof.
  revert s. induction evs as [| ev evs IH]; intros s Hstop.
  - cbn. auto.
  - cbn [run fold_left].
    destruct (step_when_stopped s ev Hstop) as (Hs & Hp & Hl).
    destruct (IH (loop_step s ev) Hs) as (Hs' & Hp' & Hl').
    unfold run in *. rewrite Hs', Hp', Hp. repeat split. lia.
Qed.

(** *** While git holds its lock *)

(** X10.  While the index lock is there and the watcher runs, the timer
    may fire any number of times: every time it is rescheduled for the
    git-settle interval, no batch is started, and the ledger, the flag and
    the world are as they were. *)
Theorem timer_deferred_while_git_active (s : System World) (n : nat) :
  _stopped (watcher s) = false ->
  git_active (watcher s) (env s) = Ok true ->
  Nat.iter (S n) (fun s' => loop_step s' (TimerFired World)) s =
  mkSystem (with_handle (Some GitSettleSeconds) (watcher s)) (env s) (in_flight s).
Proof.
  intros Hstop Hgit.
  assert (Hone : forall h,
             loop_step (mkSystem (with_handle h (watcher s)) (env s) (in_flight s))
                       (TimerFired World) =
             mkSystem (with_handle (Some GitSettleSeconds) (watcher s)) (env s)
                      (in_flight s)).
  { intros h. cbn [step]. unfold _trigger_processing. cbn [watcher env in_flight].
    change (_stopped (with_handle h (watcher s))) with (_stopped (watcher s)).
    rewrite Hstop.
    change (git_active (with_handle h (watcher s)) (env s))
      with (git_active (watcher s) (env s)).
    rewrite Hgit. reflexivity. }
  induction n as [| n IH].
  - cbn [Nat.iter nat_rect]. cbn [step]. unfold _trigger_processing.
    now rewrite Hstop, Hgit.
  - rewrite Nat.iter_succ, IH. apply Hone.
Qed.

End Loop.

(** The watcher is stopped while a batch is in flight, and more events and
    timers follow. *)
Lemma stopped_watcher_is_frozen_witness :
  let s := demo_run demo_busy [Stop bool] in
  _pending_changes
    (watcher (demo_run s [Change bool "created" "src/B.java"; TimerFired bool;
                          Resume bool 0; Resume bool 0; TimerFired bool])) =
  _pending_changes (watcher s).
Proof.
  cbv zeta.
  apply (stopped_watcher_is_frozen bool demo_delete demo_add_file demo_exists
           demo_is_dir demo_stat_size demo_joinpath demo_set_iter
           (demo_run demo_busy [Stop bool])).
  reflexivity.
Defined.

(** Three firings of the timer under the lock. *)
Lemma timer_deferred_witness :
  Nat.iter 3 (fun s' => demo_step s' (TimerFired bool))
    (demo_run demo_busy [Env bool true]) =
  mkSystem (with_handle (Some GitSettleSeconds) (watcher demo_busy)) true
           (in_flight demo_busy).
Proof.
  apply (timer_deferred_while_git_active bool demo_delete demo_add_file demo_exists
           demo_is_dir demo_stat_size demo_joinpath demo_set_iter
           (demo_run demo_busy [Env bool true]) 2); reflexivity.
Defined.

End SchedulerProps.

(* ===================================================================== *)
(** ** More on the syntax-tree tier *)
(* ===================================================================== *)

Module AstProps.

Import PyStr.
Import AstChunking.

Local Open Scope string_scope.
Local Open Scope list_scope.
Local Open Scope Z_scope.

Lemma count_app (c : byte) (s t : str) : count c (s ++ t) = count c s + count c t.
Proof. unfold count. rewrite filter_app, length_app. lia. Qed.

Lemma count_nonneg (c : byte) (s : str) : 0 <= count c s.
Proof. unfold count. lia. Qed.

Lemma firstn_plus {A : Type} (n m : nat) (l : list A) :
  firstn (n + m) l = firstn n l ++ firstn m (skipn n l).
Proof.
  revert l. induction n as [| n IH]; intros l.
  - reflexivity.
  - destruct l as [| a l]; cbn [Nat.add firstn skipn app].
    + now rewrite firstn_nil.
    + now rewrite IH.
Qed.

(** The lines of a node whose range is in order, whatever the source. *)
Lemma chunk_of_line_span (src : str) (d : Node) :
  (start_byte d <= end_byte d)%nat ->
  1 <= start_line (chunk_of src d) <= end_line (chunk_of src d) /\
  end_line (chunk_of src d) - start_line (chunk_of src d) =
  count newline (content (chunk_of src d)).
Proof.
  intros Hrange. cbn [start_line end_line content chunk_of].
  unfold get_line_number, extract_node_text.
  rewrite !PyList.slice_to_nonneg, PyList.slice_nonneg by lia.
  rewrite !Nat2Z.id.
  replace (end_byte d) with (start_byte d + (end_byte d - start_byte d))%nat at 1 2 by lia.
  rewrite firstn_plus, count_app.
  pose proof (count_nonneg newline (firstn (start_byte d) src)).
  pose proof (count_nonneg newline
                (firstn (end_byte d - start_byte d) (skipn (start_byte d) src))).
  lia.
Qed.

(** X11.  When the parser gives every node a range whose start is not
    after its end, the line numbers of every chunk of the syntax-tree tier
    fit its text: the first line is at least 1 and not after the last, and
    the chunk spans one line more than its content has newlines. *)
Theorem ast_chunk_line_span (parse : Grammar -> list byte -> Node)
    (src : str) (language path : string) (max_size : Z) (chunks : list Chunk) :
  (forall g d, In d (preorder (parse g src)) -> (start_byte d <= end_byte d)%nat) ->
  chunk_with_ast parse src language path max_size = Some (Returns chunks) ->
  Forall (fun c => 1 <= start_line c <= end_line c /\
                   end_line c - start_line c = count newline (content c))
         chunks.
Proof.
  intros Hrange H. apply Forall_forall. intros c Hc.
  destruct (ast_chunk_origin parse src language path max_size chunks c H Hc)
    as (parser & d & _ & Hd & -> & _).
  apply chunk_of_line_span. now apply (Hrange parser).
Qed.

(** *** A split node and its members *)

Lemma forest_segment (cs : list Node) :
  Forall (fun c => forall n, In n (preorder c) ->
                   exists before after, preorder c = before ++ preorder n ++ after) cs ->
  forall n, In n (flat_map preorder cs) ->
  exists before after, flat_map preorder cs = before ++ preorder n ++ after.
Proof.
  induction 1 as [| c cs Hc _ IH]; intros n Hn; [contradiction |].
  cbn [flat_map] in *. apply in_app_or in Hn. destruct Hn as [Hn | Hn].
  - destruct (Hc n Hn) as (b & a & ->).
    exists b, (a ++ flat_map preorder cs). now rewrite <- !app_assoc.
  - destruct (IH n Hn) as (b & a & ->).
    exists (preorder c ++ b), a. now rewrite <- !app_assoc.
Qed.

(** The nodes of a subtree are a segment of the nodes of the tree. *)
Lemma preorder_segment (root : Node) : forall n,
  In n (preorder root) ->
  exists before after, preorder root = before ++ preorder n ++ after.
Proof.
  induction root as [t s e cs IH] using Node_ind. intros n Hn.
  cbn [preorder] in Hn. destruct Hn as [<- | Hn].
  - exists [], []. now rewrite app_nil_r.
  - destruct (forest_segment cs IH n Hn) as (b & a & Hba).
    exists (mkNode t s e cs :: b), a. cbn [preorder app]. now rewrite Hba.
Qed.

(** X12.  A listed node above the maximum size is split into its listed
    children, and the loop then descends into it all the same: a listed child
    within the maximum size is in the result twice, once when its parent is
    split and once when the loop reaches the child. *)
Theorem split_member_is_emitted_twice (parse : Grammar -> list byte -> Node)
    (src : str) (language path : string) (max_size : Z) (parser : Grammar)
    (n child : Node) :
  get_parser language = Some parser ->
  In n (preorder (parse parser src)) ->
  qualifies src (chunk_types language) n = true ->
  max_size < len (extract_node_text src n) ->
  In child (children n) ->
  qualifies src (chunk_types language) child = true ->
  len (extract_node_text src child) <= max_size ->
  exists l1 l2 l3,
    chunk_with_ast parse src language path max_size =
    Some (Returns (l1 ++ chunk_of src child :: l2 ++ chunk_of src child :: l3)).
Proof.
  intros Hparser Hn Hqn Hbig Hchild Hqc Hle.
  rewrite chunk_with_ast_returns, Hparser.
  set (E := emit src (chunk_types language) max_size).
  assert (Hnodes : exists b c1 c2 a,
             preorder (parse parser src) =
             b ++ n :: flat_map preorder c1 ++
               child :: flat_map preorder (children child) ++
               flat_map preorder c2 ++ a).
  { destruct (preorder_segment (parse parser src) n Hn) as (b & a & ->).
    rewrite preorder_children.
    destruct (in_split child (children n) Hchild) as (c1 & c2 & ->).
    exists b, c1, c2, a.
    rewrite (flat_map_app preorder c1 (child :: c2)). cbn [flat_map].
    rewrite (preorder_children child).
    repeat (cbn [app]; rewrite <- app_assoc). reflexivity. }
  destruct Hnodes as (b & c1 & c2 & a & ->).
  assert (Hkids : In (chunk_of src child)
                     (child_chunks src (chunk_types language) n)).
  { apply in_child_chunks. exists child. auto. }
  assert (Hemit : E n = child_chunks src (chunk_types language) n).
  { unfold E. rewrite emit_oversized by assumption.
    destruct (child_chunks src (chunk_types language) n); [contradiction | reflexivity]. }
  destruct (in_split _ _ Hkids) as (k1 & k2 & Hk).
  assert (Hc : E child = [chunk_of src child]) by now apply emit_within.
  exists (flat_map E b ++ k1),
         (k2 ++ flat_map E (flat_map preorder c1)),
         (flat_map E (flat_map preorder (children child)) ++
          flat_map E (flat_map preorder c2) ++ flat_map E a).
  assert (Hout : flat_map E
                   (b ++ n :: flat_map preorder c1 ++
                      child :: flat_map preorder (children child) ++
                      flat_map preorder c2 ++ a) =
                 (flat_map E b ++ k1) ++ chunk_of src child ::
                 (k2 ++ flat_map E (flat_map preorder c1)) ++ chunk_of src child ::
                 (flat_map E (flat_map preorder (children child)) ++
                  flat_map E (flat_map preorder c2) ++ flat_map E a)).
  { rewrite flat_map_app. cbn [flat_map]. rewrite flat_map_app. cbn [flat_map].
    rewrite !flat_map_app, Hemit, Hk, Hc.
    repeat (cbn [app]; rewrite <- app_assoc). reflexivity. }
  rewrite Hout.
  destruct (flat_map E b ++ k1) as [| c0 l0]; reflexivity.
Qed.

(** The source of four lines: the class is on lines 1 to 4, its method on
    lines 2 and 3. *)
Lemma ast_chunk_line_span_witness :
  Forall (fun c => 1 <= start_line c <= end_line c /\
                   end_line c - start_line c = count newline (content c))
    [chunk_of nested_source nested_class; chunk_of nested_source nested_method].
Proof.
  apply (ast_chunk_line_span (fun _ _ => nested_tree) nested_source "python" "a.py" 2000).
  - intros _ d Hd. cbn in Hd.
    repeat (destruct Hd as [<- | Hd]; [cbn; lia |]). contradiction.
  - vm_compute. reflexivity.
Defined.

(** The first method of the class of 5000 characters. *)
Lemma split_member_witness :
  exists l1 l2 l3,
    chunk_with_ast (fun _ _ => big_class_tree) big_class_source "java" "Big.java" 2000 =
    Some (Returns (l1 ++ chunk_of big_class_source method_1 :: l2 ++
                   chunk_of big_class_source method_1 :: l3)).
Proof.
  apply (split_member_is_emitted_twice (fun _ _ => big_class_tree) big_class_source
           "java" "Big.java" 2000 Java big_class method_1).
  - reflexivity.
  - right. left. reflexivity.
  - vm_compute. reflexivity.
  - vm_compute. reflexivity.
  - left. reflexivity.
  - vm_compute. reflexivity.
  - vm_compute. discriminate.
Defined.

End AstProps.

(* ===================================================================== *)
(** ** More on the fixed-size and pattern tiers *)
(* ===================================================================== *)

Module ChunkingProps.

Import PyStr.
Import Chunking.

Local Open Scope string_scope.
Local Open Scope list_scope.
Local Open Scope Z_scope.

(** *** The overlap of the fixed-size chunker *)

(** Every chunk starts nine lines before the line on which the one before
    it ended, so that the two have ten lines in common. *)
Fixpoint linked (previous_end : Z) (chunks : list Chunk) : Prop :=
  match chunks with
  | [] => True
  | c :: rest => start_line c = previous_end - 9 /\ linked (end_line c) rest
  end.

Lemma last_cons {A : Type} (l : list A) : forall a d, last (a :: l) d = last l a.
Proof.
  induction l as [| b l IH]; intros a d; [reflexivity |].
  change (last (a :: b :: l) d) with (last (b :: l) d).
  now rewrite !IH.
Qed.

Lemma default_loop_chain (lines : list str) (chunk_size : Z) :
  10 < chunk_size ->
  forall fuel start chunks,
    0 <= start < llen lines ->
    (Z.to_nat (llen lines - start) <= fuel)%nat ->
    exists c out,
      default_loop lines chunk_size fuel start chunks = Some (chunks ++ c :: out) /\
      start_line c = start + 1 /\
      linked (end_line c) out /\
      end_line (last out c) = llen lines /\
      Forall (segment lines chunk_size) (c :: out).
Proof.
  intros Hsize. induction fuel as [| fuel IH]; intros start chunks Hstart Hfuel; [lia |].
  rewrite default_loop_step by lia. cbv zeta.
  set (end_ := Z.min (start + chunk_size) (llen lines)).
  set (c := plain_chunk (join_lines (PyList.slice start end_ lines)) (start + 1) end_).
  assert (Hseg : segment lines chunk_size c).
  { exists (start + 1), end_. replace (start + 1 - 1) with start by lia.
    subst end_. repeat split; lia. }
  destruct (Z.ltb_spec end_ (llen lines)) as [Hlt | Hge].
  - destruct (IH (end_ - 10) (chunks ++ [c])) as (c' & out & Hrun & Hfirst & Hlink & Hlast & Hsegs).
    + subst end_. lia.
    + subst end_. lia.
    + exists c, (c' :: out). rewrite Hrun, <- app_assoc. split; [reflexivity |].
      split; [reflexivity |]. split; [| split].
      * cbn [linked]. split; [| exact Hlink]. rewrite Hfirst. cbn. lia.
      * now rewrite last_cons.
      * now constructor.
  - exists c, []. rewrite default_loop_done by lia.
    split; [reflexivity |]. split; [reflexivity |]. split; [exact I |].
    split; [cbn; subst end_; lia |].
    constructor; [exact Hseg | constructor].
Qed.

(** X13.  When the maximum size gives more than ten lines to a segment, a
    file above the maximum size comes out of the fixed-size chunker as a
    chain of segments that leaves no line out: the first starts at line 1,
    the last ends at the last line, each is the text of the lines between its
    two line numbers, and each one after the first starts nine lines before
    the end of the one before it. *)
Theorem fixed_size_chunks_overlap (cfg : Config) (text : str) (path : string) :
  10 < MAX_CHUNK_SIZE cfg / 10 ->
  MAX_CHUNK_SIZE cfg < len text ->
  exists c out,
    chunk_default cfg (List.length (split_lines text)) text path = Some (c :: out) /\
    start_line c = 1 /\
    linked (end_line c) out /\
    end_line (last out c) = llen (split_lines text) /\
    Forall (segment (split_lines text) (MAX_CHUNK_SIZE cfg / 10)) (c :: out).
Proof.
  intros Hsize Hbig. unfold chunk_default.
  destruct (Z.leb_spec (len text) (MAX_CHUNK_SIZE cfg)); [lia |].
  pose proof (llen_split_lines_pos text) as Hpos.
  destruct (default_loop_chain (split_lines text) _ Hsize
              (List.length (split_lines text)) 0 [])
    as (c & out & Hrun & Hfirst & Hrest); [lia | unfold llen; lia |].
  exists c, out. split; [exact Hrun |]. split; [lia | exact Hrest].
Qed.

(** The 250 lines of 20 letters, with the default sizes. *)
Lemma fixed_size_chunks_overlap_witness :
  exists c out,
    chunk_default default_config 250 many_lines "notes.txt" = Some (c :: out) /\
    start_line c = 1 /\
    linked (end_line c) out /\
    end_line (last out c) = 250.
Proof.
  destruct (fixed_size_chunks_overlap default_config many_lines "notes.txt")
    as (c & out & Hrun & Hfirst & Hlink & Hlast & _).
  - vm_compute. reflexivity.
  - vm_compute. reflexivity.
  - exists c, out. split; [exact Hrun |]. split; [exact Hfirst |].
    split; [exact Hlink | exact Hlast].
Defined.

(** *** Chunks that follow the lines of the file *)

Lemma join_lines_app (l1 l2 : list str) :
  l1 <> [] -> l2 <> [] ->
  join_lines (l1 ++ l2) = join_lines l1 ++ newline :: join_lines l2.
Proof.
  intros H1 H2. induction l1 as [| a l1 IH]; [congruence |].
  destruct l1 as [| b l1].
  - destruct l2 as [| c l2]; [congruence | reflexivity].
  - assert (IH' := IH ltac:(discriminate)).
    change ((a :: b :: l1) ++ l2) with (a :: b :: (l1 ++ l2)).
    rewrite (join_lines_cons a b (l1 ++ l2)), (join_lines_cons a b l1).
    change (b :: l1 ++ l2) with ((b :: l1) ++ l2).
    rewrite IH', <- app_assoc. reflexivity.
Qed.

Lemma llen_app {A : Type} (l1 l2 : list A) : llen (l1 ++ l2) = llen l1 + llen l2.
Proof. unfold llen. rewrite length_app. lia. Qed.

Lemma llen_one {A : Type} (x : A) : llen [x] = 1.
Proof. reflexivity. Qed.

Lemma llen_nonneg {A : Type} (l : list A) : 0 <= llen l.
Proof. unfold llen. lia. Qed.

Lemma snoc_not_nil {A : Type} (l : list A) (x : A) : l ++ [x] <> [].
Proof. destruct l; discriminate. Qed.

Section Spans.

Variable C : Type.
Variable content_of : C -> str.
Variable first_of : C -> Z.
Variable last_of : C -> Z.
(** The runs of lines that a chunker may leave out. *)
Variable droppable : list str -> Prop.

(** [spans first chunks lines]: the chunks follow the lines, the first of
    which has number [first], in order and without overlap.  Every chunk is
    the text of a run of at least one line, from the line its [start_line]
    names to the line its [end_line] names; between two chunks there may be
    a run that was left out. *)
Inductive spans : Z -> list C -> list str -> Prop :=
| spans_nil (first : Z) : spans first [] []
| spans_chunk (first : Z) (run : list str) (c : C) (chunks : list C) (rest : list str) :
    run <> [] ->
    content_of c = join_lines run ->
    first_of c = first ->
    last_of c = first + llen run - 1 ->
    spans (first + llen run) chunks rest ->
    spans first (c :: chunks) (run ++ rest)
| spans_drop (first : Z) (run : list str) (chunks : list C) (rest : list str) :
    droppable run ->
    spans (first + llen run) chunks rest ->
    spans first chunks (run ++ rest).

Lemma spans_app (first : Z) (chunks : list C) (lines : list str) :
  spans first chunks lines ->
  forall chunks' lines',
    spans (first + llen lines) chunks' lines' ->
    spans first (chunks ++ chunks') (lines ++ lines').
Proof.
  induction 1 as [first | first run c chunks rest Hne Hc Hf Hl _ IH
                  | first run chunks rest Hd _ IH]; intros chunks' lines' H'.
  - cbn in *. now replace (first + 0) with first in H' by lia.
  - rewrite <- app_assoc. cbn [app]. apply spans_chunk; try assumption.
    apply IH. rewrite llen_app in H'. now rewrite <- Z.add_assoc.
  - rewrite <- app_assoc. apply spans_drop; [assumption |].
    apply IH. rewrite llen_app in H'. now rewrite <- Z.add_assoc.
Qed.

(** One more chunk at the end. *)
Lemma spans_snoc (first : Z) (chunks : list C) (lines run : list str) (c : C) :
  spans first chunks lines ->
  run <> [] ->
  content_of c = join_lines run ->
  first_of c = first + llen lines ->
  last_of c = first + llen lines + llen run - 1 ->
  spans first (chunks ++ [c]) (lines ++ run).
Proof.
  intros H Hne Hc Hf Hl. apply spans_app; [exact H |].
  rewrite <- (app_nil_r run). apply spans_chunk; try assumption. constructor.
Qed.

(** One more run left out at the end. *)
Lemma spans_snoc_drop (first : Z) (chunks : list C) (lines run : list str) :
  spans first chunks lines ->
  droppable run ->
  spans first chunks (lines ++ run).
Proof.
  intros H Hd. rewrite <- (app_nil_r chunks). apply spans_app; [exact H |].
  rewrite <- (app_nil_r run). apply spans_drop; [assumption | constructor].
Qed.

End Spans.

Arguments spans {C}.
Arguments spans_app {C}.
Arguments spans_snoc {C}.
Arguments spans_snoc_drop {C}.

(** Nothing is left out. *)
Definition nothing : list str -> Prop := fun _ => False.

Section Tiles.

Variable C : Type.
Variable content_of : C -> str.
Variable first_of : C -> Z.
Variable last_of : C -> Z.

#[local] Abbreviation tiles := (spans content_of first_of last_of nothing).

Lemma tiles_empty (first : Z) (chunks : list C) (lines : list str) :
  tiles first chunks lines -> (chunks = [] <-> lines = []).
Proof.
  induction 1 as [first | first run c chunks rest Hne _ _ _ _ _
                  | first run chunks rest Hd _ _].
  - tauto.
  - split; [discriminate |]. intros H. apply app_eq_nil in H. tauto.
  - destruct Hd.
Qed.

(** When nothing is left out, the chunks joined by newlines are the lines
    joined by newlines. *)
Lemma tiles_reassemble (first : Z) (chunks : list C) (lines : list str) :
  tiles first chunks lines ->
  join_lines (map content_of chunks) = join_lines lines.
Proof.
  induction 1 as [first | first run c chunks rest Hne Hc _ _ Hrest IH
                  | first run chunks rest Hd _ _].
  - reflexivity.
  - cbn [map]. pose proof (tiles_empty _ _ _ Hrest) as Hempty.
    destruct chunks as [| c' chunks].
    + assert (rest = []) as -> by tauto. now rewrite app_nil_r.
    + assert (Hr : rest <> []) by (intros E; apply Hempty in E; discriminate).
      rewrite join_lines_app by assumption.
      change (join_lines (content_of c :: map content_of (c' :: chunks)))
        with (content_of c ++ newline :: join_lines (map content_of (c' :: chunks))).
      now rewrite IH, Hc.
  - destruct Hd.
Qed.

End Tiles.

Arguments tiles_empty {C}.
Arguments tiles_reassemble {C}.

(** A loop over [enumerate(lines, first)] keeps what every turn keeps. *)
Lemma for_enumerate_invariant {S A : Type} (body : S -> Z -> A -> S)
    (P : list A -> Z -> S -> Prop) :
  (forall seen i st x, P seen i st -> P (seen ++ [x]) (i + 1) (body st i x)) ->
  forall l seen i st,
    P seen i st -> P (seen ++ l) (i + llen l) (for_enumerate body l i st).
Proof.
  intros Hstep. induction l as [| x l IH]; intros seen i st HP.
  - cbn [for_enumerate]. rewrite app_nil_r.
    now replace (i + llen (@nil A)) with i by (cbn; lia).
  - cbn [for_enumerate].
    replace (seen ++ x :: l) with ((seen ++ [x]) ++ l) by now rewrite <- app_assoc.
    replace (i + llen (x :: l)) with (i + 1 + llen l)
      by (unfold llen; cbn [List.length]; lia).
    apply IH. now apply Hstep.
Qed.

(** *** The pattern chunker for Java *)

Section Java.

Variable cfg : Config.
Variable suffix_lower : string -> string.
Variable class_pattern_search : str -> option str.

#[local] Abbreviation java_loop := (java_step cfg class_pattern_search).

(** What the Java chunker leaves out: a run shorter than the minimum
    size. *)
Definition too_short (run : list str) : Prop :=
  len (join_lines run) < MIN_CHUNK_SIZE cfg.

(** What holds after every turn: the lines seen so far are the lines that
    the chunks span, followed by the lines of the chunk being built; and
    when no chunk is being built, one was just closed. *)
Definition java_invariant (seen : list str) (i : Z) (st : JavaLoop) : Prop :=
  i = llen seen /\
  (jl_current_chunk st = [] -> seen = [] \/ jl_chunks st <> []) /\
  exists spanned,
    spans content start_line end_line too_short 1 (jl_chunks st) spanned /\
    seen = spanned ++ jl_current_chunk st /\
    jl_chunk_start st = llen spanned.

Lemma java_step_invariant seen i st line :
  java_invariant seen i st ->
  java_invariant (seen ++ [line]) (i + 1) (java_loop st i line).
Proof.
  intros (Hi & _ & spanned & Hspans & Hseen & Hstart).
  split; [rewrite llen_app; cbn; lia |].
  assert (Hcur : llen (jl_current_chunk st) = i - jl_chunk_start st).
  { rewrite Hi, Hseen, llen_app. lia. }
  unfold java_step. destruct (class_pattern_search line) as [name |].
  - (* a declaration: the chunk being built is kept or left out *)
    cbn [jl_chunks jl_current_chunk jl_chunk_start].
    split; [discriminate |].
    exists seen. split; [| split; [reflexivity | exact Hi]].
    destruct (jl_current_chunk st) as [| l ls] eqn:Hc.
    + cbn [is_empty negb andb]. rewrite Hseen, app_nil_r. exact Hspans.
    + cbn [is_empty negb andb].
      destruct (Z.geb_spec (len (join_lines (l :: ls))) (MIN_CHUNK_SIZE cfg)).
      * rewrite Hseen. apply spans_snoc; try assumption; try discriminate;
          cbn [content start_line end_line java_chunk]; try reflexivity; lia.
      * rewrite Hseen. apply spans_snoc_drop; [assumption |]. unfold too_short. lia.
  - set (current_chunk := jl_current_chunk st ++ [line]).
    assert (Hne : current_chunk <> []) by apply snoc_not_nil.
    assert (Hlen : llen current_chunk = i + 1 - jl_chunk_start st).
    { subst current_chunk. rewrite llen_app. cbn. lia. }
    destruct (jl_in_class st && _ && _ && _).
    + (* the chunk is closed *)
      cbn [jl_chunks jl_current_chunk jl_chunk_start].
      split; [intros _; right; apply snoc_not_nil |].
      exists (seen ++ [line]).
      split; [| split; [now rewrite app_nil_r | rewrite llen_app; cbn; lia]].
      rewrite Hseen, <- app_assoc. fold current_chunk.
      apply spans_snoc; try assumption;
        cbn [content start_line end_line java_chunk]; try reflexivity; lia.
    + cbn [jl_chunks jl_current_chunk jl_chunk_start].
      split; [intros E; now apply Hne in E |].
      exists spanned. split; [exact Hspans |]. split; [| exact Hstart].
      subst current_chunk. now rewrite Hseen, <- app_assoc.
Qed.

Lemma add_metadata_spans (chunks : list Chunk) (path : string) first lines :
  spans content start_line end_line too_short first chunks lines ->
  spans content start_line end_line too_short first
        (_add_metadata suffix_lower chunks path) lines.
Proof.
  induction 1 as [first | first run c chunks rest Hne Hc Hf Hl _ IH
                  | first run chunks rest Hd _ IH].
  - constructor.
  - cbn [_add_metadata map]. apply spans_chunk; assumption.
  - apply spans_drop; assumption.
Qed.

(** The Java chunker never reaches its fallback: what it returns, for
    any fuel. *)
Lemma chunk_java_shape (fuel : nat) (text : str) (path : string) :
  exists chunks,
    chunk_java cfg suffix_lower class_pattern_search fuel text path =
      Some (_add_metadata suffix_lower chunks path) /\
    chunks <> [] /\
    spans content start_line end_line too_short 1 chunks (split_lines text).
Proof.
  unfold chunk_java.
  pose proof (for_enumerate_invariant java_loop java_invariant java_step_invariant
                (split_lines text) [] 0 (mkJavaLoop [] [] 0 None 0 false)) as Hinv.
  cbn [app] in Hinv.
  destruct Hinv as (Hi & Hclosed & spanned & Hspans & Hseen & Hstart).
  { split; [reflexivity |]. split; [now left |].
    exists []. repeat split. constructor. }
  set (st := for_enumerate java_loop (split_lines text) 0 _) in *.
  set (chunks := if negb (is_empty (jl_current_chunk st)) then _ else _).
  assert (Hchunks : spans content start_line end_line too_short 1 chunks
                          (split_lines text) /\ chunks <> []).
  { subst chunks. destruct (jl_current_chunk st) as [| l ls] eqn:Hc.
    - cbn [is_empty negb]. rewrite app_nil_r in Hseen. rewrite Hseen.
      split; [exact Hspans |].
      destruct (Hclosed eq_refl) as [Hnone | Hsome]; [| exact Hsome].
      now apply split_lines_nonempty in Hnone.
    - cbn [is_empty negb]. split; [| apply snoc_not_nil].
      rewrite Hseen. apply spans_snoc; try assumption; try discriminate;
        cbn [content start_line end_line java_chunk]; try reflexivity.
      + lia.
      + rewrite llen_app. lia. }
  destruct Hchunks as [Hspan Hne].
  exists chunks. destruct chunks as [| c0 cs] eqn:Hcs; [congruence |].
  cbn [is_empty]. split; [reflexivity |]. split; [discriminate | exact Hspan].
Qed.

(** X14.  The Java pattern chunker always returns, without its fallback
    and so whatever the fuel, at least one chunk.  The chunks follow the file
    in order and without overlap: each is the text of the lines from its
    [start_line] to its [end_line], and a run of lines between two chunks is
    left out only where its text is shorter than the minimum size.  Every
    chunk carries the path, the language and the type of the file. *)
Theorem chunk_java_follows_the_lines (fuel : nat) (text : str) (path : string) :
  exists chunks,
    chunk_java cfg suffix_lower class_pattern_search fuel text path = Some chunks /\
    chunks <> [] /\
    spans content start_line end_line too_short 1 chunks (split_lines text) /\
    Forall (fun c => Chunking.path c = Some path /\
                     language c = Some (detect_language suffix_lower path) /\
                     file_type c =
                       Some (detect_type path (detect_language suffix_lower path)))
           chunks.
Proof.
  destruct (chunk_java_shape fuel text path) as (chunks & Hrun & Hne & Hspan).
  exists (_add_metadata suffix_lower chunks path).
  split; [exact Hrun |]. split; [| split].
  - destruct chunks; [congruence | discriminate].
  - now apply add_metadata_spans.
  - unfold _add_metadata. apply Forall_forall. intros c Hc.
    apply in_map_iff in Hc. destruct Hc as (c' & <- & _). cbn. auto.
Qed.

End Java.

(** *** The pattern chunker for TypeScript *)

(** A chunk that may have the key [component] besides the others. *)
Record ComponentChunk : Type := mkComponentChunk {
  base : Chunk;
  component : option (option str)
}.

Definition cc_content (c : ComponentChunk) : str := content (base c).
Definition cc_start_line (c : ComponentChunk) : Z := start_line (base c).
Definition cc_end_line (c : ComponentChunk) : Z := end_line (base c).

(** A chunk without the keys [path], [language] and [type]. *)
Definition untagged (c : Chunk) : Prop :=
  path c = None /\ language c = None /\ file_type c = None.

(** The variables of the loop [for i, line in enumerate(lines)] of
    [chunk_typescript]. *)
Record TsLoop : Type := mkTsLoop {
  tl_chunks : list ComponentChunk;
  tl_current_chunk : list str;
  tl_chunk_start : Z;
  tl_current_name : option str
}.

Definition ts_chunk (lines : list str) (first last : Z) (name : option str)
  : ComponentChunk :=
  mkComponentChunk (plain_chunk (join_lines lines) first last) (Some name).

(** The line numbers of a chunk that was just built. *)
Ltac line_numbers :=
  unfold cc_start_line, cc_end_line, ts_chunk, plain_chunk;
  cbn [base start_line end_line]; rewrite ?llen_app, ?llen_one in *; lia.

Definition is_some {A : Type} (o : option A) : bool :=
  match o with Some _ => true | None => false end.

Section TypeScript.

Variable cfg : Config.
(** [ts_pattern.search(line)]: the name, group 3, of a line that declares
    an interface, a type, a class or an enum. *)
Variable ts_pattern_search : str -> option str.

Definition ts_step (st : TsLoop) (i : Z) (line : str) : TsLoop :=
  let ts_match := ts_pattern_search line in
  let save :=
    is_some ts_match && negb (is_empty (tl_current_chunk st))
    && (len (join_lines (tl_current_chunk st)) >=? MIN_CHUNK_SIZE cfg) in
  let chunks :=
    if save
    then tl_chunks st ++
         [ts_chunk (tl_current_chunk st) (tl_chunk_start st + 1) i (tl_current_name st)]
    else tl_chunks st in
  let current_chunk := if save then [] else tl_current_chunk st in
  let chunk_start := if save then i else tl_chunk_start st in
  let current_name :=
    match ts_match with
    | Some name => Some name
    | None => tl_current_name st
    end in
  let current_chunk := current_chunk ++ [line] in
  if len (join_lines current_chunk) >=? MAX_CHUNK_SIZE cfg
  then mkTsLoop (chunks ++ [ts_chunk current_chunk (chunk_start + 1) (i + 1) current_name])
                [] (i + 1) current_name
  else mkTsLoop chunks current_chunk chunk_start current_name.

(** [chunk_typescript].  Its fallback is the fixed-size chunker, hence the
    fuel. *)
Definition chunk_typescript (fuel : nat) (text : str) (path : string)
  : option (list ComponentChunk) :=
  let lines := split_lines text in
  let st := for_enumerate ts_step lines 0 (mkTsLoop [] [] 0 None) in
  let chunks :=
    if negb (is_empty (tl_current_chunk st))
    then tl_chunks st ++
         [ts_chunk (tl_current_chunk st) (tl_chunk_start st + 1) (llen lines)
                   (tl_current_name st)]
    else tl_chunks st in
  if is_empty chunks
  then option_map (map (fun c => mkComponentChunk c None)) (chunk_default cfg fuel text path)
  else Some chunks.

#[local] Abbreviation ts_tiles := (spans cc_content cc_start_line cc_end_line nothing).

Definition ts_invariant (seen : list str) (i : Z) (st : TsLoop) : Prop :=
  i = llen seen /\
  (tl_current_chunk st = [] -> seen = [] \/ tl_chunks st <> []) /\
  exists tiled,
    ts_tiles 1 (tl_chunks st) tiled /\
    seen = tiled ++ tl_current_chunk st /\
    tl_chunk_start st = llen tiled.

Lemma ts_step_invariant seen i st line :
  ts_invariant seen i st -> ts_invariant (seen ++ [line]) (i + 1) (ts_step st i line).
Proof.
  intros (Hi & _ & tiled & Htiles & Hseen & Hstart).
  split; [rewrite llen_app; cbn; lia |].
  assert (Hcur : llen (tl_current_chunk st) = i - tl_chunk_start st).
  { rewrite Hi, Hseen, llen_app. lia. }
  unfold ts_step.
  set (save := is_some (ts_pattern_search line) && _ && _).
  set (name := match ts_pattern_search line with
               | Some n => Some n
               | None => tl_current_name st
               end).
  (* after the first test *)
  set (chunks := if save then _ else tl_chunks st).
  set (current := if save then [] else tl_current_chunk st).
  set (start := if save then i else tl_chunk_start st).
  assert (Hmid : exists tiled',
             ts_tiles 1 chunks tiled' /\ seen = tiled' ++ current /\
             start = llen tiled').
  { subst chunks current start. destruct save eqn:Hsave.
    - exists seen. split; [| split; [now rewrite app_nil_r | exact Hi]].
      subst save. apply andb_true_iff in Hsave. destruct Hsave as [Hsave _].
      apply andb_true_iff in Hsave. destruct Hsave as [_ Hne].
      rewrite Hseen. apply spans_snoc; try assumption.
      + destruct (tl_current_chunk st); [discriminate Hne | discriminate].
      + reflexivity.
      + line_numbers.
      + line_numbers.
    - exists tiled. auto. }
  destruct Hmid as (tiled' & Htiles' & Hseen' & Hstart').
  assert (Hlen : llen (current ++ [line]) = i + 1 - start).
  { rewrite llen_app. cbn.
    assert (llen seen = llen tiled' + llen current) by now rewrite Hseen', llen_app.
    lia. }
  destruct (len (join_lines (current ++ [line])) >=? MAX_CHUNK_SIZE cfg).
  - cbn [tl_chunks tl_current_chunk tl_chunk_start].
    split; [intros _; right; apply snoc_not_nil |].
    exists (seen ++ [line]).
    split; [| split; [now rewrite app_nil_r | rewrite llen_app; cbn; lia]].
    rewrite Hseen', <- app_assoc.
    apply spans_snoc; try assumption.
    + apply snoc_not_nil.
    + reflexivity.
    + line_numbers.
    + line_numbers.
  - cbn [tl_chunks tl_current_chunk tl_chunk_start].
    split; [intros E; now apply snoc_not_nil in E |].
    exists tiled'. split; [exact Htiles' |]. split; [| exact Hstart'].
    now rewrite Hseen', <- app_assoc.
Qed.

(** The chunks of this chunker have no path, language or type yet. *)
Lemma ts_step_untagged (seen : list str) (i : Z) (st : TsLoop) (line : str) :
  Forall (fun c => untagged (base c)) (tl_chunks st) ->
  Forall (fun c => untagged (base c)) (tl_chunks (ts_step st i line)).
Proof.
  intros Hall. unfold ts_step.
  destruct (is_some (ts_pattern_search line) && _ && _);
    destruct (len (join_lines _) >=? MAX_CHUNK_SIZE cfg);
    cbn [tl_chunks]; repeat (apply Forall_app; split); try assumption;
    repeat constructor.
Qed.

(** The TypeScript chunker never reaches its fallback: what it returns,
    for any fuel. *)
Lemma chunk_typescript_shape (fuel : nat) (text : str) (path : string) :
  exists chunks,
    chunk_typescript fuel text path = Some chunks /\
    chunks <> [] /\
    ts_tiles 1 chunks (split_lines text) /\
    Forall (fun c => untagged (base c)) chunks.
Proof.
  unfold chunk_typescript.
  pose proof (for_enumerate_invariant ts_step ts_invariant ts_step_invariant
                (split_lines text) [] 0 (mkTsLoop [] [] 0 None)) as Hinv.
  pose proof (for_enumerate_invariant ts_step
                (fun _ _ st => Forall (fun c => untagged (base c)) (tl_chunks st))
                ts_step_untagged
                (split_lines text) [] 0 (mkTsLoop [] [] 0 None)) as Hbare.
  cbn [app] in Hinv, Hbare. specialize (Hbare (Forall_nil _)).
  destruct Hinv as (Hi & Hclosed & tiled & Htiles & Hseen & Hstart).
  { split; [reflexivity |]. split; [now left |].
    exists []. repeat split. constructor. }
  set (st := for_enumerate ts_step (split_lines text) 0 _) in *.
  set (chunks := if negb (is_empty (tl_current_chunk st)) then _ else _).
  assert (Hchunks : ts_tiles 1 chunks (split_lines text) /\ chunks <> [] /\
                    Forall (fun c => untagged (base c)) chunks).
  { subst chunks. destruct (tl_current_chunk st) as [| l ls] eqn:Hc.
    - cbn [is_empty negb]. rewrite app_nil_r in Hseen. rewrite Hseen.
      split; [exact Htiles |]. split; [| exact Hbare].
      destruct (Hclosed eq_refl) as [Hnone | Hsome]; [| exact Hsome].
      now apply split_lines_nonempty in Hnone.
    - cbn [is_empty negb]. split; [| split; [apply snoc_not_nil |]].
      + rewrite Hseen. apply spans_snoc; try assumption; try discriminate.
        * reflexivity.
        * line_numbers.
        * line_numbers.
      + apply Forall_app. split; [exact Hbare | repeat constructor]. }
  destruct Hchunks as (Hspan & Hne & Hall).
  exists chunks. destruct chunks as [| c0 cs] eqn:Hcs; [congruence |].
  cbn [is_empty]. split; [reflexivity |]. split; [discriminate |].
  split; assumption.
Qed.

(** X15.  The TypeScript pattern chunker always returns, without its
    fallback and so whatever the fuel, at least one chunk, and it loses no
    line: the chunks follow the file in order, each the text of the lines
    from its [start_line] to its [end_line], the next one starting on the line
    after; joined by newlines, the chunks are the file. *)
Theorem chunk_typescript_loses_no_line (fuel : nat) (text : str) (path : string) :
  exists chunks,
    chunk_typescript fuel text path = Some chunks /\
    chunks <> [] /\
    spans cc_content cc_start_line cc_end_line nothing 1 chunks (split_lines text) /\
    join_lines (map cc_content chunks) = text.
Proof.
  destruct (chunk_typescript_shape fuel text path) as (chunks & Hrun & Hne & Hspan & _).
  exists chunks. split; [exact Hrun |]. split; [exact Hne |]. split; [exact Hspan |].
  rewrite (tiles_reassemble cc_content cc_start_line cc_end_line 1 _ _ Hspan).
  apply join_split_lines.
Qed.

End TypeScript.

(** *** The chunker for YAML, as the module defines it last *)

(** The variables of the loop [for i, line in enumerate(lines)] of
    [chunk_yaml]. *)
Record YamlLoop : Type := mkYamlLoop {
  yl_chunks : list Chunk;
  yl_current_chunk : list str;
  yl_chunk_start : Z
}.

Section Yaml.

Variable cfg : Config.
(** [line.strip() == '---'] *)
Variable is_separator : str -> bool.

Definition yaml_step (st : YamlLoop) (i : Z) (line : str) : YamlLoop :=
  let save := is_separator line && negb (is_empty (yl_current_chunk st)) in
  let chunks :=
    if save
    then yl_chunks st ++
         [plain_chunk (join_lines (yl_current_chunk st)) (yl_chunk_start st + 1) i]
    else yl_chunks st in
  let current_chunk := if save then [] else yl_current_chunk st in
  let chunk_start := if save then i else yl_chunk_start st in
  let current_chunk := current_chunk ++ [line] in
  if len (join_lines current_chunk) >=? MAX_CHUNK_SIZE cfg
  then mkYamlLoop (chunks ++ [plain_chunk (join_lines current_chunk) (chunk_start + 1) (i + 1)])
                  [] (i + 1)
  else mkYamlLoop chunks current_chunk chunk_start.

(** [chunk_yaml], the definition in force (the second one of the
    module). *)
Definition chunk_yaml (fuel : nat) (text : str) (path : string) : option (list Chunk) :=
  if len text <=? MAX_CHUNK_SIZE cfg then
    Some [plain_chunk text 1 (llen (split_lines text))]
  else
    let lines := split_lines text in
    let st := for_enumerate yaml_step lines 0 (mkYamlLoop [] [] 0) in
    let chunks :=
      if negb (is_empty (yl_current_chunk st))
      then yl_chunks st ++
           [plain_chunk (join_lines (yl_current_chunk st)) (yl_chunk_start st + 1)
                        (llen lines)]
      else yl_chunks st in
    if negb (is_empty chunks) then Some chunks else chunk_default cfg fuel text path.

#[local] Abbreviation yaml_tiles := (spans content start_line end_line nothing).

Definition yaml_invariant (seen : list str) (i : Z) (st : YamlLoop) : Prop :=
  i = llen seen /\
  (yl_current_chunk st = [] -> seen = [] \/ yl_chunks st <> []) /\
  exists tiled,
    yaml_tiles 1 (yl_chunks st) tiled /\
    seen = tiled ++ yl_current_chunk st /\
    yl_chunk_start st = llen tiled.

Lemma yaml_step_invariant seen i st line :
  yaml_invariant seen i st ->
  yaml_invariant (seen ++ [line]) (i + 1) (yaml_step st i line).
Proof.
  intros (Hi & _ & tiled & Htiles & Hseen & Hstart).
  split; [rewrite llen_app; cbn; lia |].
  assert (Hcur : llen (yl_current_chunk st) = i - yl_chunk_start st).
  { rewrite Hi, Hseen, llen_app. lia. }
  unfold yaml_step.
  set (save := is_separator line && _).
  set (chunks := if save then _ else yl_chunks st).
  set (current := if save then [] else yl_current_chunk st).
  set (start := if save then i else yl_chunk_start st).
  assert (Hmid : exists tiled',
             yaml_tiles 1 chunks tiled' /\ seen = tiled' ++ current /\
             start = llen tiled').
  { subst chunks current start. destruct save eqn:Hsave.
    - exists seen. split; [| split; [now rewrite app_nil_r | exact Hi]].
      subst save. apply andb_true_iff in Hsave. destruct Hsave as [_ Hne].
      rewrite Hseen. apply spans_snoc; try assumption.
      + destruct (yl_current_chunk st); [discriminate Hne | discriminate].
      + reflexivity.
      + line_numbers.
      + line_numbers.
    - exists tiled. auto. }
  destruct Hmid as (tiled' & Htiles' & Hseen' & Hstart').
  assert (Hlen : llen (current ++ [line]) = i + 1 - start).
  { rewrite llen_app. cbn.
    assert (llen seen = llen tiled' + llen current) by now rewrite Hseen', llen_app.
    lia. }
  destruct (len (join_lines (current ++ [line])) >=? MAX_CHUNK_SIZE cfg).
  - cbn [yl_chunks yl_current_chunk yl_chunk_start].
    split; [intros _; right; apply snoc_not_nil |].
    exists (seen ++ [line]).
    split; [| split; [now rewrite app_nil_r | rewrite llen_app; cbn; lia]].
    rewrite Hseen', <- app_assoc.
    apply spans_snoc; try assumption.
    + apply snoc_not_nil.
    + reflexivity.
    + line_numbers.
    + line_numbers.
  - cbn [yl_chunks yl_current_chunk yl_chunk_start].
    split; [intros E; now apply snoc_not_nil in E |].
    exists tiled'. split; [exact Htiles' |]. split; [| exact Hstart'].
    now rewrite Hseen', <- app_assoc.
Qed.

Lemma yaml_step_untagged (seen : list str) (i : Z) (st : YamlLoop) (line : str) :
  Forall untagged (yl_chunks st) ->
  Forall untagged (yl_chunks (yaml_step st i line)).
Proof.
  intros Hall. unfold yaml_step.
  destruct (is_separator line && _);
    destruct (len (join_lines _) >=? MAX_CHUNK_SIZE cfg);
    cbn [yl_chunks]; repeat (apply Forall_app; split); try assumption;
    repeat constructor.
Qed.

(** The YAML chunker never reaches its fallback: what it returns, for any
    fuel. *)
Lemma chunk_yaml_shape (fuel : nat) (text : str) (path : string) :
  exists chunks,
    chunk_yaml fuel text path = Some chunks /\
    chunks <> [] /\
    yaml_tiles 1 chunks (split_lines text) /\
    Forall untagged chunks.
Proof.
  unfold chunk_yaml. destruct (len text <=? MAX_CHUNK_SIZE cfg).
  - eexists. split; [reflexivity |]. split; [discriminate |].
    split; [| repeat constructor].
    rewrite <- (app_nil_r (split_lines text)) at 2.
    apply spans_chunk.
    + apply split_lines_nonempty.
    + cbn. now rewrite join_split_lines.
    + reflexivity.
    + line_numbers.
    + constructor.
  - pose proof (for_enumerate_invariant yaml_step yaml_invariant yaml_step_invariant
                  (split_lines text) [] 0 (mkYamlLoop [] [] 0)) as Hinv.
    pose proof (for_enumerate_invariant yaml_step
                  (fun _ _ st => Forall untagged (yl_chunks st))
                  yaml_step_untagged
                  (split_lines text) [] 0 (mkYamlLoop [] [] 0)) as Hbare.
    cbn [app] in Hinv, Hbare. specialize (Hbare (Forall_nil _)).
    destruct Hinv as (Hi & Hclosed & tiled & Htiles & Hseen & Hstart).
    { split; [reflexivity |]. split; [now left |].
      exists []. repeat split. constructor. }
    set (st := for_enumerate yaml_step (split_lines text) 0 _) in *.
    set (chunks := if negb (is_empty (yl_current_chunk st)) then _ else _).
    assert (Hchunks : yaml_tiles 1 chunks (split_lines text) /\ chunks <> [] /\
                      Forall untagged chunks).
    { subst chunks. destruct (yl_current_chunk st) as [| l ls] eqn:Hc.
      - cbn [is_empty negb]. rewrite app_nil_r in Hseen. rewrite Hseen.
        split; [exact Htiles |]. split; [| exact Hbare].
        destruct (Hclosed eq_refl) as [Hnone | Hsome]; [| exact Hsome].
        now apply split_lines_nonempty in Hnone.
      - cbn [is_empty negb]. split; [| split; [apply snoc_not_nil |]].
        + rewrite Hseen. apply spans_snoc; try assumption; try discriminate.
          * reflexivity.
          * line_numbers.
          * line_numbers.
        + apply Forall_app. split; [exact Hbare | repeat constructor]. }
    destruct Hchunks as (Hspan & Hne & Hall).
    exists chunks. destruct chunks as [| c0 cs] eqn:Hcs; [congruence |].
    cbn [is_empty negb]. split; [reflexivity |]. split; [discriminate |].
    split; assumption.
Qed.

(** X16.  The YAML chunker in force always returns, without its fallback
    and so whatever the fuel, at least one chunk, and it loses no line: a
    file within the maximum size is one chunk, and a larger one is cut into
    chunks that follow the file in order, each the text of the lines from its
    [start_line] to its [end_line], the next one starting on the line after;
    joined by newlines, the chunks are the file. *)
Theorem chunk_yaml_loses_no_line (fuel : nat) (text : str) (path : string) :
  exists chunks,
    chunk_yaml fuel text path = Some chunks /\
    chunks <> [] /\
    spans content start_line end_line nothing 1 chunks (split_lines text) /\
    join_lines (map content chunks) = text.
Proof.
  destruct (chunk_yaml_shape fuel text path) as (chunks & Hrun & Hne & Hspan & _).
  exists chunks. split; [exact Hrun |]. split; [exact Hne |]. split; [exact Hspan |].
  rewrite (tiles_reassemble content start_line end_line 1 _ _ Hspan).
  apply join_split_lines.
Qed.

End Yaml.

(** *** The pattern chunker for JavaScript *)

(** The variables of the loop [for i, line in enumerate(lines)] of
    [chunk_javascript]. *)
Record JsLoop : Type := mkJsLoop {
  js_chunks : list ComponentChunk;
  js_current_chunk : list str;
  js_chunk_start : Z;
  js_current_component : option str;
  js_brace_count : Z;
  js_paren_count : Z;
  js_in_ext_define : bool
}.

Section JavaScript.

Variable cfg : Config.
Variable suffix_lower : string -> string.
(** [ext_pattern.search(line)]: the component name, group 2, of a line
    with [Ext.define], [Ext.create], [Ext.application] or [Ext.override]. *)
Variable ext_pattern_search : str -> option str.

(** [_add_metadata], on chunks that have the key [component]. *)
Definition _add_metadata_component (chunks : list ComponentChunk) (path : string)
  : list ComponentChunk :=
  let lang := detect_language suffix_lower path in
  let file_type := detect_type path lang in
  map (fun c => mkComponentChunk
                  (mkChunk (content (base c)) (start_line (base c)) (end_line (base c))
                           (class_name (base c))
                           (Some path) (Some lang) (Some file_type))
                  (component c))
      chunks.

Definition js_step (lines : list str) (st : JsLoop) (i : Z) (line : str) : JsLoop :=
  let brace_count := js_brace_count st + (count "{"%byte line - count "}"%byte line) in
  let paren_count := js_paren_count st + (count "("%byte line - count ")"%byte line) in
  match ext_pattern_search line with
  | Some name =>
      let chunks :=
        if negb (is_empty (js_current_chunk st))
           && (len (join_lines (js_current_chunk st)) >=? MIN_CHUNK_SIZE cfg)
        then js_chunks st ++
             [ts_chunk (js_current_chunk st) (js_chunk_start st + 1) i
                       (js_current_component st)]
        else js_chunks st in
      mkJsLoop chunks [line] i (Some name) brace_count paren_count true
  | None =>
      let current_chunk := js_current_chunk st ++ [line] in
      if js_in_ext_define st && (paren_count =? 0) && (brace_count =? 0)
         && negb (is_empty current_chunk)
         && ((len (join_lines current_chunk) >=? MAX_CHUNK_SIZE cfg)
             || (i =? llen lines - 1))
      then mkJsLoop
             (js_chunks st ++
              [ts_chunk current_chunk (js_chunk_start st + 1) (i + 1)
                        (js_current_component st)])
             [] (i + 1) (js_current_component st) brace_count paren_count false
      else mkJsLoop (js_chunks st) current_chunk (js_chunk_start st)
                    (js_current_component st) brace_count paren_count
                    (js_in_ext_define st)
  end.

(** [chunk_javascript].  Its fallback is the fixed-size chunker, hence the
    fuel. *)
Definition chunk_javascript (fuel : nat) (text : str) (path : string)
  : option (list ComponentChunk) :=
  let lines := split_lines text in
  let st := for_enumerate (js_step lines) lines 0 (mkJsLoop [] [] 0 None 0 0 false) in
  let chunks :=
    if negb (is_empty (js_current_chunk st))
    then js_chunks st ++
         [ts_chunk (js_current_chunk st) (js_chunk_start st + 1) (llen lines)
                   (js_current_component st)]
    else js_chunks st in
  if is_empty chunks
  then option_map (map (fun c => mkComponentChunk c None)) (chunk_default cfg fuel text path)
  else Some (_add_metadata_component chunks path).

#[local] Abbreviation js_spans :=
  (spans cc_content cc_start_line cc_end_line (too_short cfg)).

Definition js_invariant (seen : list str) (i : Z) (st : JsLoop) : Prop :=
  i = llen seen /\
  (js_current_chunk st = [] -> seen = [] \/ js_chunks st <> []) /\
  exists spanned,
    js_spans 1 (js_chunks st) spanned /\
    seen = spanned ++ js_current_chunk st /\
    js_chunk_start st = llen spanned.

Lemma js_step_invariant lines seen i st line :
  js_invariant seen i st ->
  js_invariant (seen ++ [line]) (i + 1) (js_step lines st i line).
Proof.
  intros (Hi & _ & spanned & Hspans & Hseen & Hstart).
  split; [rewrite llen_app; cbn; lia |].
  assert (Hcur : llen (js_current_chunk st) = i - js_chunk_start st).
  { rewrite Hi, Hseen, llen_app. lia. }
  unfold js_step. destruct (ext_pattern_search line) as [name |].
  - cbn [js_chunks js_current_chunk js_chunk_start].
    split; [discriminate |].
    exists seen. split; [| split; [reflexivity | exact Hi]].
    destruct (js_current_chunk st) as [| l ls] eqn:Hc.
    + cbn [is_empty negb andb]. rewrite Hseen, app_nil_r. exact Hspans.
    + cbn [is_empty negb andb].
      destruct (Z.geb_spec (len (join_lines (l :: ls))) (MIN_CHUNK_SIZE cfg)).
      * rewrite Hseen. apply spans_snoc; try assumption; try discriminate.
        -- reflexivity.
        -- line_numbers.
        -- line_numbers.
      * rewrite Hseen. apply spans_snoc_drop; [assumption |]. unfold too_short. lia.
  - set (current_chunk := js_current_chunk st ++ [line]).
    assert (Hne : current_chunk <> []) by apply snoc_not_nil.
    assert (Hlen : llen current_chunk = i + 1 - js_chunk_start st).
    { subst current_chunk. rewrite llen_app. cbn. lia. }
    destruct (js_in_ext_define st && _ && _ && _ && _).
    + cbn [js_chunks js_current_chunk js_chunk_start].
      split; [intros _; right; apply snoc_not_nil |].
      exists (seen ++ [line]).
      split; [| split; [now rewrite app_nil_r | rewrite llen_app; cbn; lia]].
      rewrite Hseen, <- app_assoc. fold current_chunk.
      apply spans_snoc; try assumption.
      * reflexivity.
      * line_numbers.
      * line_numbers.
    + cbn [js_chunks js_current_chunk js_chunk_start].
      split; [intros E; now apply Hne in E |].
      exists spanned. split; [exact Hspans |]. split; [| exact Hstart].
      subst current_chunk. now rewrite Hseen, <- app_assoc.
Qed.

Lemma add_metadata_component_spans (chunks : list ComponentChunk) (path : string)
    first lines :
  js_spans first chunks lines ->
  js_spans first (_add_metadata_component chunks path) lines.
Proof.
  induction 1 as [first | first run c chunks rest Hne Hc Hf Hl _ IH
                  | first run chunks rest Hd _ IH].
  - constructor.
  - cbn [_add_metadata_component map]. apply spans_chunk; assumption.
  - apply spans_drop; assumption.
Qed.

(** The JavaScript chunker never reaches its fallback: what it returns,
    for any fuel. *)
Lemma chunk_javascript_shape (fuel : nat) (text : str) (path : string) :
  exists chunks,
    chunk_javascript fuel text path = Some (_add_metadata_component chunks path) /\
    chunks <> [] /\
    js_spans 1 chunks (split_lines text).
Proof.
  unfold chunk_javascript.
  pose proof (for_enumerate_invariant (js_step (split_lines text)) js_invariant
                (js_step_invariant (split_lines text))
                (split_lines text) [] 0 (mkJsLoop [] [] 0 None 0 0 false)) as Hinv.
  cbn [app] in Hinv.
  destruct Hinv as (Hi & Hclosed & spanned & Hspans & Hseen & Hstart).
  { split; [reflexivity |]. split; [now left |].
    exists []. repeat split. constructor. }
  set (st := for_enumerate (js_step (split_lines text)) (split_lines text) 0 _) in *.
  set (chunks := if negb (is_empty (js_current_chunk st)) then _ else _).
  assert (Hchunks : js_spans 1 chunks (split_lines text) /\ chunks <> []).
  { subst chunks. destruct (js_current_chunk st) as [| l ls] eqn:Hc.
    - cbn [is_empty negb]. rewrite app_nil_r in Hseen.
      split; [rewrite Hseen; exact Hspans |].
      destruct (Hclosed eq_refl) as [Hnone | Hsome]; [| exact Hsome].
      now apply split_lines_nonempty in Hnone.
    - cbn [is_empty negb]. split; [| apply snoc_not_nil].
      rewrite Hseen. apply spans_snoc; try assumption; try discriminate.
      + reflexivity.
      + line_numbers.
      + line_numbers. }
  destruct Hchunks as [Hspan Hne].
  exists chunks. destruct chunks as [| c0 cs] eqn:Hcs; [congruence |].
  cbn [is_empty]. split; [reflexivity |]. split; [discriminate | exact Hspan].
Qed.

(** X17.  The JavaScript pattern chunker always returns, without its
    fallback and so whatever the fuel, at least one chunk.  The chunks follow
    the file in order and without overlap: each is the text of the lines from
    its [start_line] to its [end_line], and a run of lines between two chunks
    is left out only where its text is shorter than the minimum size.  Every
    chunk carries the path, the language and the type of the file. *)
Theorem chunk_javascript_follows_the_lines (fuel : nat) (text : str) (path : string) :
  exists chunks,
    chunk_javascript fuel text path = Some chunks /\
    chunks <> [] /\
    spans cc_content cc_start_line cc_end_line (too_short cfg) 1 chunks
          (split_lines text) /\
    Forall (fun c => Chunking.path (base c) = Some path /\
                     language (base c) = Some (detect_language suffix_lower path) /\
                     file_type (base c) =
                       Some (detect_type path (detect_language suffix_lower path)))
           chunks.
Proof.
  destruct (chunk_javascript_shape fuel text path) as (chunks & Hrun & Hne & Hspan).
  exists (_add_metadata_component chunks path).
  split; [exact Hrun |]. split; [| split].
  - destruct chunks; [congruence | discriminate].
  - now apply add_metadata_component_spans.
  - unfold _add_metadata_component. apply Forall_forall. intros c Hc.
    apply in_map_iff in Hc. destruct Hc as (c' & <- & _). cbn. auto.
Qed.

End JavaScript.

End ChunkingProps.

(* ===================================================================== *)
(** ** The wrapper of code-chunk (src/codechunk_wrapper.py) *)
(* ===================================================================== *)

Module CodechunkWrapper.

Import PyStr.

Local Open Scope string_scope.
Local Open Scope list_scope.
Local Open Scope Z_scope.

#[local] Abbreviation result := FileWatcher.result.
#[local] Abbreviation Ok := FileWatcher.Ok.
#[local] Abbreviation Raise := FileWatcher.Raise.

(** A Python [str] that the model writes as a Rocq string, as text. *)
Definition py_str (s : string) : str := list_byte_of_string s.

Section Json.

(** The floating-point numbers of Python. *)
Variable F : Type.
(** [bool(x)] for a float. *)
Variable float_truthy : F -> bool.

#[local] Unset Elimination Schemes.

(** What [json.loads] returns, and what the values of a chunk are. *)
Inductive Json : Type :=
| JNull
| JBool (b : bool)
| JInt (z : Z)
| JFloat (x : F)
| JStr (s : str)
| JList (items : list Json)
| JDict (d : list (string * Json)).

#[local] Set Elimination Schemes.

(** A chunk: a dictionary from keys to values. *)
Definition Dict : Type := PyDict.t Json.

Definition is_nil {A : Type} (l : list A) : bool :=
  match l with [] => true | _ :: _ => false end.

(** [bool(v)] *)
Definition truthy (v : Json) : bool :=
  match v with
  | JNull => false
  | JBool b => b
  | JInt z => negb (z =? 0)
  | JFloat x => float_truthy x
  | JStr s => negb (is_nil s)
  | JList items => negb (is_nil items)
  | JDict d => negb (is_nil d)
  end.

(** [if c.get(k): chunk[k] = c[k]] *)
Definition copy_key (k : string) (c chunk : Dict) : Dict :=
  match PyDict.get k c with
  | Some v => if truthy v then PyDict.set k v chunk else chunk
  | None => chunk
  end.

(** One turn of the loop of [_parse_chunks]: the chunk built from [c].
    Subscripting anything but a dictionary raises, and so does a missing
    key. *)
Definition parse_one (c : Json) : result Dict :=
  match c with
  | JDict c =>
      match PyDict.get "contextualized" c with
      | None => Raise FileWatcher.OtherException
      | Some contextualized =>
          match PyDict.get "start_line" c with
          | None => Raise FileWatcher.OtherException
          | Some first =>
              match PyDict.get "end_line" c with
              | None => Raise FileWatcher.OtherException
              | Some last =>
                  let chunk :=
                    [("content", contextualized);
                     ("start_line", first);
                     ("end_line", last);
                     ("node_type",
                      match PyDict.get "node_type" c with
                      | Some t => t
                      | None => JStr (py_str "chunk")
                      end)] in
                  let chunk := copy_key "scope" c chunk in
                  let chunk := copy_key "signatures" c chunk in
                  let chunk := copy_key "imports" c chunk in
                  Ok chunk
              end
          end
      end
  | _ => Raise FileWatcher.OtherException
  end.

(** The loop [for c in chunks_data] over a list. *)
Fixpoint parse_all (items : list Json) (chunks : list Dict) : result (list Dict) :=
  match items with
  | [] => Ok chunks
  | c :: rest =>
      match parse_one c with
      | FileWatcher.Ok chunk => parse_all rest (chunks ++ [chunk])
      | FileWatcher.Raise e => Raise e
      end
  end.

(** [_parse_chunks].  A list is gone through; the keys of a dictionary and
    the characters of a string are strings, which cannot be subscripted by a
    key, so only an empty dictionary or string gets through, with no chunk;
    anything else cannot be iterated. *)
Definition _parse_chunks (chunks_data : Json) : result (list Dict) :=
  match chunks_data with
  | JList items => parse_all items []
  | JDict [] => Ok []
  | JStr [] => Ok []
  | _ => Raise FileWatcher.OtherException
  end.

Definition SUPPORTED_LANGUAGES : list string :=
  ["java"; "typescript"; "javascript"; "python"; "rust"; "go"].

(** What [subprocess.run] returns. *)
Record CompletedProcess : Type := mkCompletedProcess {
  returncode : Z;
  stdout : list byte;
  stderr : list byte
}.

(** [subprocess.run(['node', CHUNKER_SCRIPT, filepath, str(max_size)],
    input=..., capture_output=True, timeout=30)]: the process runs to its end,
    or the call raises. *)
Variable subprocess_run : string -> Z -> str -> result CompletedProcess.
(** [json.loads] *)
Variable json_loads : list byte -> result Json.

(** [chunk_with_codechunk] *)
Definition chunk_with_codechunk (content : str) (filepath language : string)
    (max_size : Z) : option (list Dict) :=
  if negb (AstChunking.mem language SUPPORTED_LANGUAGES) then None
  else
    match subprocess_run filepath max_size content with
    | FileWatcher.Raise _ => None
    | FileWatcher.Ok r =>
        if negb (returncode r =? 0) then None
        else
          match json_loads (stdout r) with
          | FileWatcher.Raise _ => None
          | FileWatcher.Ok chunks_data =>
              match _parse_chunks chunks_data with
              | FileWatcher.Raise _ => None
              | FileWatcher.Ok [] => None
              | FileWatcher.Ok chunks => Some chunks
              end
          end
    end.

(** *** What comes out *)

(** The keys of a chunk of this tier: the four that are always there, in
    this order, and then those of [scope], [signatures] and [imports] that
    code-chunk gave a value that counts as true. *)
Definition chunk_keys (d : Dict) : Prop :=
  exists scope signatures imports,
    PyDict.keys d =
    ["content"; "start_line"; "end_line"; "node_type"]
      ++ (if scope : bool then ["scope"] else [])
      ++ (if signatures : bool then ["signatures"] else [])
      ++ (if imports : bool then ["imports"] else []).

Lemma parse_one_keys (c : Json) (chunk : Dict) :
  parse_one c = Ok chunk -> chunk_keys chunk.
Proof.
  unfold parse_one. destruct c as [| | | | | | c]; try discriminate.
  destruct (PyDict.get "contextualized" c) as [v1 |]; [| discriminate].
  destruct (PyDict.get "start_line" c) as [v2 |]; [| discriminate].
  destruct (PyDict.get "end_line" c) as [v3 |]; [| discriminate].
  intros H. injection H as <-. unfold copy_key.
  exists (match PyDict.get "scope" c with Some v => truthy v | None => false end),
         (match PyDict.get "signatures" c with Some v => truthy v | None => false end),
         (match PyDict.get "imports" c with Some v => truthy v | None => false end).
  destruct (PyDict.get "scope" c) as [s |]; [destruct (truthy s) |];
    (destruct (PyDict.get "signatures" c) as [g |]; [destruct (truthy g) |]);
    (destruct (PyDict.get "imports" c) as [m |]; [destruct (truthy m) |]);
    reflexivity.
Qed.

Lemma parse_all_keys (items : list Json) : forall chunks out,
  Forall chunk_keys chunks ->
  parse_all items chunks = Ok out ->
  Forall chunk_keys out /\ (List.length out = List.length chunks + List.length items)%nat.
Proof.
  induction items as [| c items IH]; intros chunks out Hall Hrun; cbn in Hrun.
  - injection Hrun as <-. split; [exact Hall | cbn; lia].
  - destruct (parse_one c) as [chunk |] eqn:Hc; [| discriminate].
    apply IH in Hrun.
    + destruct Hrun as [Hout Hlen]. split; [exact Hout |].
      rewrite Hlen, length_app. cbn. lia.
    + apply Forall_app. split; [exact Hall |].
      constructor; [| constructor]. now apply (parse_one_keys c).
Qed.

Lemma parse_chunks_keys (chunks_data : Json) (chunks : list Dict) :
  _parse_chunks chunks_data = Ok chunks -> Forall chunk_keys chunks.
Proof.
  unfold _parse_chunks. intros Hparse.
  destruct chunks_data as [| | | | s | items | d]; try discriminate.
  - destruct s; [| discriminate]. injection Hparse as <-. constructor.
  - now apply parse_all_keys in Hparse.
  - destruct d; [| discriminate]. injection Hparse as <-. constructor.
Qed.

(** When [chunk_with_codechunk] returns chunks: the language is supported,
    the process ended with code 0, its output was parsed, and the chunks made
    of it are at least one. *)
Lemma chunk_with_codechunk_some (content : str) (filepath language : string)
    (max_size : Z) (chunks : list Dict) :
  chunk_with_codechunk content filepath language max_size = Some chunks ->
  AstChunking.mem language SUPPORTED_LANGUAGES = true /\
  chunks <> [] /\
  exists r chunks_data,
    subprocess_run filepath max_size content = Ok r /\
    returncode r = 0 /\
    json_loads (stdout r) = Ok chunks_data /\
    _parse_chunks chunks_data = Ok chunks.
Proof.
  unfold chunk_with_codechunk.
  destruct (AstChunking.mem language SUPPORTED_LANGUAGES); [| discriminate].
  cbn [negb].
  destruct (subprocess_run filepath max_size content) as [r |] eqn:Hrun; [| discriminate].
  destruct (Z.eqb_spec (returncode r) 0) as [Hcode |]; [| discriminate].
  cbn [negb].
  destruct (json_loads (stdout r)) as [data |] eqn:Hloads; [| discriminate].
  destruct (_parse_chunks data) as [[| c cs] |] eqn:Hparse; try discriminate.
  intros H. injection H as <-.
  split; [reflexivity |]. split; [discriminate |].
  exists r, data. repeat split; assumption.
Qed.

(** X18.  [chunk_with_codechunk] gives chunks only for a supported
    language, and never an empty list: whatever the process and the parser
    of its output do, the result is [None] or a list of at least one chunk,
    each with the keys [content], [start_line], [end_line] and [node_type] and
    otherwise only [scope], [signatures] and [imports]. *)
Theorem codechunk_chunks_have_their_keys (content : str) (filepath language : string)
    (max_size : Z) (chunks : list Dict) :
  chunk_with_codechunk content filepath language max_size = Some chunks ->
  AstChunking.mem language SUPPORTED_LANGUAGES = true /\
  chunks <> [] /\
  Forall chunk_keys chunks.
Proof.
  intros Hrun.
  destruct (chunk_with_codechunk_some _ _ _ _ _ Hrun)
    as (Hlang & Hne & r & data & _ & _ & _ & Hparse).
  split; [exact Hlang |]. split; [exact Hne |].
  now apply (parse_chunks_keys data).
Qed.

End Json.

Arguments JNull {F}.
Arguments JBool {F} b.
Arguments JInt {F} z.
Arguments JFloat {F} x.
Arguments JStr {F} s.
Arguments JList {F} items.
Arguments JDict {F} d.

(** *** An example *)

(** The process prints two chunks, the second with a scope and with an
    empty list of imports. *)
Definition demo_output : Json unit :=
  JList
    [JDict [("contextualized", JStr (py_str "class A {}")); ("start_line", JInt 1);
            ("end_line", JInt 1)];
     JDict [("contextualized", JStr (py_str "void f() {}")); ("start_line", JInt 3);
            ("end_line", JInt 3); ("node_type", JStr (py_str "method"));
            ("scope", JList [JStr (py_str "A")]); ("imports", JList [])]].

Definition demo_run (filepath : string) (max_size : Z) (input : str)
  : FileWatcher.result CompletedProcess :=
  FileWatcher.Ok (mkCompletedProcess 0 [] []).

Definition demo_loads (out : list byte) : FileWatcher.result (Json unit) :=
  FileWatcher.Ok demo_output.

(** The chunks made of it: the first gets the default node type, the
    second keeps its scope and not the empty imports. *)
Definition demo_chunks : list (Dict unit) :=
  [[("content", JStr (py_str "class A {}")); ("start_line", JInt 1);
    ("end_line", JInt 1); ("node_type", JStr (py_str "chunk"))];
   [("content", JStr (py_str "void f() {}")); ("start_line", JInt 3);
    ("end_line", JInt 3); ("node_type", JStr (py_str "method"));
    ("scope", JList [JStr (py_str "A")])]].

Lemma codechunk_chunks_witness :
  AstChunking.mem "java" SUPPORTED_LANGUAGES = true /\
  demo_chunks <> [] /\
  Forall (chunk_keys unit) demo_chunks.
Proof.
  apply (codechunk_chunks_have_their_keys unit (fun _ => true) demo_run demo_loads
           [] "A.java" "java" 2000).
  vm_compute. reflexivity.
Defined.

End CodechunkWrapper.

(* ===================================================================== *)
(** ** Chunking a file (chunk_file of src/chunking.py) *)
(* ===================================================================== *)

Module ChunkFile.

Import PyStr.
Import Chunking.
Import ChunkingProps.
Import CodechunkWrapper.

Local Open Scope string_scope.
Local Open Scope list_scope.
Local Open Scope Z_scope.

#[local] Abbreviation result := FileWatcher.result.

Section File.

Variable cfg : Config.
Variable suffix_lower : string -> string.
Variable class_pattern_search : str -> option str.
Variable ext_pattern_search : str -> option str.
Variable ts_pattern_search : str -> option str.
Variable is_separator : str -> bool.
Variable parse : AstChunking.Grammar -> list byte -> AstChunking.Node.
(** Whether something raises inside [chunk_with_ast], for a text, a
    language and a path; [chunk_code_ast] then returns [None]. *)
Variable ast_raises : str -> string -> string -> bool.
Variable F : Type.
Variable float_truthy : F -> bool.
Variable subprocess_run : string -> Z -> str -> result CompletedProcess.
Variable json_loads : list byte -> result (Json F).
(** [open(path, 'r', encoding='utf-8')] and [f.read()]: the text of the
    file, or an exception. *)
Variable read_text : string -> result str.
(** Whether the two imports at the top of the module succeeded. *)
Variable CODECHUNK_AVAILABLE : bool.
Variable AST_AVAILABLE : bool.

(** *** The chunks of the tiers as dictionaries *)

(** A name that may be [None]. *)
Definition name_value (v : option str) : Json F :=
  match v with
  | Some s => JStr s
  | None => JNull
  end.

(** [d[k] = v] when the key is there. *)
Definition set_opt (k : string) (v : option (Json F)) (d : Dict F) : Dict F :=
  match v with
  | Some v => PyDict.set k v d
  | None => d
  end.

(** The dictionary of a chunk of the pattern tiers, with its keys in the
    order in which the chunkers write them. *)
Definition dict_of_component (c : ComponentChunk) : Dict F :=
  let d := [("content", JStr (content (base c)));
            ("start_line", JInt (start_line (base c)));
            ("end_line", JInt (end_line (base c)))] in
  let d := set_opt "class_name" (option_map name_value (class_name (base c))) d in
  let d := set_opt "component" (option_map name_value (component c)) d in
  let d := set_opt "path" (option_map (fun p => JStr (py_str p)) (path (base c))) d in
  let d := set_opt "language"
             (option_map (fun l => JStr (py_str l)) (language (base c))) d in
  set_opt "type" (option_map (fun t => JStr (py_str t)) (file_type (base c))) d.

Definition dict_of_chunk (c : Chunk) : Dict F :=
  dict_of_component (mkComponentChunk c None).

(** The dictionary of a chunk of the syntax-tree tier. *)
Definition dict_of_ast (c : AstChunking.Chunk) : Dict F :=
  [("content", JStr (AstChunking.content c));
   ("start_line", JInt (AstChunking.start_line c));
   ("end_line", JInt (AstChunking.end_line c));
   ("node_type", JStr (py_str (AstChunking.node_type c)))].

(** *** [chunk_file] *)

(** The pattern tier for a language; [chunk_file] writes these four lines
    out at each of the three places where it falls back to them. *)
Definition regex_chunks (fuel : nat) (lang : string) (content : str) (path : string)
  : option (list (Dict F)) :=
  if String.eqb lang "java" then
    option_map (map dict_of_chunk)
      (chunk_java cfg suffix_lower class_pattern_search fuel content path)
  else if String.eqb lang "javascript" then
    option_map (map dict_of_component)
      (chunk_javascript cfg suffix_lower ext_pattern_search fuel content path)
  else if String.eqb lang "typescript" then
    option_map (map dict_of_component)
      (chunk_typescript cfg ts_pattern_search fuel content path)
  else
    option_map (map dict_of_chunk) (chunk_default cfg fuel content path).

(** The syntax-tree tier, and the pattern tier when it gives nothing;
    written out at two places of [chunk_file]. *)
Definition ast_then_regex (fuel : nat) (lang : string) (content : str) (path : string)
  : option (list (Dict F)) :=
  match (if ast_raises content lang path then Some AstChunking.ReturnsNone
         else AstChunking.chunk_code_ast parse content lang path) with
  | None => None
  | Some (AstChunking.Returns (c :: cs)) => Some (map dict_of_ast (c :: cs))
  | Some _ => regex_chunks fuel lang content path
  end.

(** One turn of the last loop: the three keys are added where they are
    missing. *)
Definition ensure_metadata (path lang : string) (chunk : Dict F) : Dict F :=
  let chunk :=
    match PyDict.get "path" chunk with
    | None => PyDict.set "path" (JStr (py_str path)) chunk
    | Some _ => chunk
    end in
  let chunk :=
    match PyDict.get "language" chunk with
    | None => PyDict.set "language" (JStr (py_str lang)) chunk
    | Some _ => chunk
    end in
  match PyDict.get "type" chunk with
  | None => PyDict.set "type" (JStr (py_str (detect_type path lang))) chunk
  | Some _ => chunk
  end.

(** [chunk_file].  [None]: the fuel of the fixed-size chunker ran out. *)
Definition chunk_file (fuel : nat) (path : string) : option (list (Dict F)) :=
  match read_text path with
  | FileWatcher.Raise _ => Some []
  | FileWatcher.Ok content =>
      let lang := detect_language suffix_lower path in
      let chunks :=
        if CODECHUNK_AVAILABLE
           && AstChunking.mem lang
                ["java"; "python"; "typescript"; "javascript"; "rust"; "go"]
        then
          match chunk_with_codechunk F float_truthy subprocess_run json_loads
                  content path lang 2000 with
          | Some (c :: cs) => Some (c :: cs)
          | _ =>
              if AST_AVAILABLE then ast_then_regex fuel lang content path
              else regex_chunks fuel lang content path
          end
        else if AST_AVAILABLE
                && AstChunking.mem lang ["java"; "python"; "typescript"; "javascript"]
        then ast_then_regex fuel lang content path
        else if String.eqb lang "yaml" then
          option_map (map dict_of_chunk) (chunk_yaml cfg is_separator fuel content path)
        else
          option_map (map dict_of_chunk) (chunk_default cfg fuel content path) in
      option_map (map (ensure_metadata path lang)) chunks
  end.

(** *** The three keys *)

(** The chunk says of which file it is. *)
Definition has_metadata (path : string) (d : Dict F) : Prop :=
  let lang := detect_language suffix_lower path in
  PyDict.get "path" d = Some (JStr (py_str path)) /\
  PyDict.get "language" d = Some (JStr (py_str lang)) /\
  PyDict.get "type" d = Some (JStr (py_str (detect_type path lang))).

(** What a tier hands to the last loop: each of the three keys is missing
    or right. *)
Definition metadata_or_none (path : string) (d : Dict F) : Prop :=
  let lang := detect_language suffix_lower path in
  (PyDict.get "path" d = None \/ PyDict.get "path" d = Some (JStr (py_str path))) /\
  (PyDict.get "language" d = None \/
   PyDict.get "language" d = Some (JStr (py_str lang))) /\
  (PyDict.get "type" d = None \/
   PyDict.get "type" d = Some (JStr (py_str (detect_type path lang)))).

Lemma ensure_metadata_sets (path : string) (d : Dict F) :
  metadata_or_none path d ->
  has_metadata path (ensure_metadata path (detect_language suffix_lower path) d).
Proof.
  intros (Hp & Hl & Ht). unfold has_metadata, ensure_metadata. cbv zeta.
  set (lang := detect_language suffix_lower path) in *.
  set (d1 := match PyDict.get "path" d with
             | None => PyDict.set "path" (JStr (py_str path)) d
             | Some _ => d
             end).
  assert (H1 : PyDict.get "path" d1 = Some (JStr (py_str path)) /\
               PyDict.get "language" d1 = PyDict.get "language" d /\
               PyDict.get "type" d1 = PyDict.get "type" d).
  { subst d1. destruct Hp as [Hp | Hp]; rewrite Hp.
    - rewrite PyDict.get_set_same, !PyDict.get_set_other by discriminate. auto.
    - auto. }
  destruct H1 as (H1p & H1l & H1t).
  set (d2 := match PyDict.get "language" d1 with
             | None => PyDict.set "language" (JStr (py_str lang)) d1
             | Some _ => d1
             end).
  assert (H2 : PyDict.get "path" d2 = Some (JStr (py_str path)) /\
               PyDict.get "language" d2 = Some (JStr (py_str lang)) /\
               PyDict.get "type" d2 = PyDict.get "type" d).
  { subst d2. rewrite H1l. destruct Hl as [Hl | Hl]; rewrite Hl.
    - rewrite PyDict.get_set_same, !PyDict.get_set_other by discriminate. auto.
    - rewrite H1l, Hl. auto. }
  destruct H2 as (H2p & H2l & H2t).
  rewrite H2t. destruct Ht as [Ht | Ht]; rewrite Ht.
  - rewrite PyDict.get_set_same, !PyDict.get_set_other by discriminate. auto.
  - rewrite H2t, Ht. auto.
Qed.

(** The three keys of the dictionary of a pattern chunk. *)
Lemma dict_of_component_metadata (c : ComponentChunk) :
  PyDict.get "path" (dict_of_component c) =
    option_map (fun p => JStr (py_str p)) (path (base c)) /\
  PyDict.get "language" (dict_of_component c) =
    option_map (fun l => JStr (py_str l)) (language (base c)) /\
  PyDict.get "type" (dict_of_component c) =
    option_map (fun t => JStr (py_str t)) (file_type (base c)).
Proof.
  unfold dict_of_component.
  destruct (class_name (base c)), (component c), (path (base c)),
    (language (base c)), (file_type (base c)); cbn; auto.
Qed.

Lemma untagged_metadata (path : string) (c : ComponentChunk) :
  untagged (base c) -> metadata_or_none path (dict_of_component c).
Proof.
  intros (Hp & Hl & Ht). unfold metadata_or_none. cbv zeta.
  destruct (dict_of_component_metadata c) as (-> & -> & ->).
  rewrite Hp, Hl, Ht. cbn [option_map]. auto.
Qed.

Lemma tagged_metadata (path : string) (c : ComponentChunk) :
  Chunking.path (base c) = Some path ->
  language (base c) = Some (detect_language suffix_lower path) ->
  file_type (base c) = Some (detect_type path (detect_language suffix_lower path)) ->
  metadata_or_none path (dict_of_component c).
Proof.
  intros Hp Hl Ht. unfold metadata_or_none. cbv zeta.
  destruct (dict_of_component_metadata c) as (-> & -> & ->).
  rewrite Hp, Hl, Ht. cbn [option_map]. auto.
Qed.

Lemma dict_of_ast_metadata (path : string) (c : AstChunking.Chunk) :
  metadata_or_none path (dict_of_ast c).
Proof. unfold metadata_or_none. cbn. auto. Qed.

Lemma chunk_keys_metadata (path : string) (d : Dict F) :
  chunk_keys F d -> metadata_or_none path d.
Proof.
  intros (scope & signatures & imports & Hkeys).
  assert (Hnone : forall k,
             ~ In k ["content"; "start_line"; "end_line"; "node_type";
                     "scope"; "signatures"; "imports"] ->
             PyDict.get k d = None).
  { intros k Hk. apply PyDict.get_None_iff. rewrite Hkeys. intros HIn. apply Hk.
    destruct scope, signatures, imports; cbn in HIn |- *; tauto. }
  unfold metadata_or_none. cbv zeta.
  rewrite !Hnone; [auto | | |]; cbn; intros H;
    repeat (destruct H as [H | H]; [discriminate |]); exact H.
Qed.

(** A chunk of the fixed-size chunker has none of the three keys. *)
Lemma chunk_default_untagged (fuel : nat) (text : str) (path : string)
    (chunks : list Chunk) :
  chunk_default cfg fuel text path = Some chunks -> Forall untagged chunks.
Proof.
  unfold chunk_default. destruct (len text <=? MAX_CHUNK_SIZE cfg).
  - intros H. injection H as <-. repeat constructor.
  - assert (Hloop : forall fuel start acc out,
               Forall untagged acc ->
               default_loop (split_lines text) (MAX_CHUNK_SIZE cfg / 10) fuel start acc =
                 Some out ->
               Forall untagged out).
    { clear fuel. induction fuel as [| fuel IH]; intros start acc out Hacc Hrun;
        cbn [default_loop] in Hrun;
        destruct (start <? llen (split_lines text)); try discriminate.
      - injection Hrun as <-. exact Hacc.
      - apply IH in Hrun; [exact Hrun |].
        apply Forall_app. split; [exact Hacc | repeat constructor].
      - injection Hrun as <-. exact Hacc. }
    apply Hloop. constructor.
Qed.

(** *** The tiers, one by one *)

#[local] Abbreviation enough content := (List.length (split_lines content)).

Lemma default_tier (content : str) (path : string) :
  10 < MAX_CHUNK_SIZE cfg / 10 ->
  exists chunks,
    option_map (map dict_of_chunk) (chunk_default cfg (enough content) content path) =
      Some chunks /\
    chunks <> [] /\ Forall (metadata_or_none path) chunks.
Proof.
  intros Hsize.
  destruct (chunk_default_total cfg content path Hsize) as (chunks & Hrun & Hne & _).
  rewrite Hrun. cbn [option_map]. eexists. split; [reflexivity |].
  split; [destruct chunks; [congruence | discriminate] |].
  apply Forall_forall. intros d Hd. apply in_map_iff in Hd.
  destruct Hd as (c & <- & Hc).
  pose proof (chunk_default_untagged _ _ _ _ Hrun) as Hall.
  rewrite Forall_forall in Hall.
  apply (untagged_metadata path (mkComponentChunk c None)). now apply Hall.
Qed.

Lemma yaml_tier (fuel : nat) (content : str) (path : string) :
  exists chunks,
    option_map (map dict_of_chunk) (chunk_yaml cfg is_separator fuel content path) =
      Some chunks /\
    chunks <> [] /\ Forall (metadata_or_none path) chunks.
Proof.
  destruct (chunk_yaml_shape cfg is_separator fuel content path)
    as (chunks & Hrun & Hne & _ & Hall).
  rewrite Hrun. cbn [option_map]. eexists. split; [reflexivity |].
  split; [destruct chunks; [congruence | discriminate] |].
  apply Forall_forall. intros d Hd. apply in_map_iff in Hd.
  destruct Hd as (c & <- & Hc). rewrite Forall_forall in Hall.
  apply (untagged_metadata path (mkComponentChunk c None)). now apply Hall.
Qed.

Lemma regex_tier (content : str) (path : string) (lang : string) :
  10 < MAX_CHUNK_SIZE cfg / 10 ->
  exists chunks,
    regex_chunks (enough content) lang content path = Some chunks /\
    chunks <> [] /\ Forall (metadata_or_none path) chunks.
Proof.
  intros Hsize. unfold regex_chunks.
  destruct (String.eqb lang "java");
    [| destruct (String.eqb lang "javascript");
       [| destruct (String.eqb lang "typescript")]].
  - destruct (chunk_java_shape cfg suffix_lower class_pattern_search
                (enough content) content path) as (chunks & Hrun & Hne & _).
    rewrite Hrun. cbn [option_map]. eexists. split; [reflexivity |].
    split; [destruct chunks; [congruence | discriminate] |].
    apply Forall_forall. intros d Hd. apply in_map_iff in Hd.
    destruct Hd as (c & <- & Hc). unfold _add_metadata in Hc.
    apply in_map_iff in Hc. destruct Hc as (c' & <- & _).
    now apply (tagged_metadata path (mkComponentChunk _ None)).
  - destruct (chunk_javascript_shape cfg suffix_lower ext_pattern_search
                (enough content) content path) as (chunks & Hrun & Hne & _).
    rewrite Hrun. cbn [option_map]. eexists. split; [reflexivity |].
    split; [destruct chunks; [congruence | discriminate] |].
    apply Forall_forall. intros d Hd. apply in_map_iff in Hd.
    destruct Hd as (c & <- & Hc). unfold _add_metadata_component in Hc.
    apply in_map_iff in Hc. destruct Hc as (c' & <- & _).
    now apply tagged_metadata.
  - destruct (chunk_typescript_shape cfg ts_pattern_search
                (enough content) content path) as (chunks & Hrun & Hne & _ & Hall).
    rewrite Hrun. cbn [option_map]. eexists. split; [reflexivity |].
    split; [destruct chunks; [congruence | discriminate] |].
    apply Forall_forall. intros d Hd. apply in_map_iff in Hd.
    destruct Hd as (c & <- & Hc). rewrite Forall_forall in Hall.
    apply untagged_metadata. now apply Hall.
  - now apply default_tier.
Qed.

Lemma ast_tier (content : str) (path : string) (lang : string) :
  10 < MAX_CHUNK_SIZE cfg / 10 ->
  exists chunks,
    ast_then_regex (enough content) lang content path = Some chunks /\
    chunks <> [] /\ Forall (metadata_or_none path) chunks.
Proof.
  intros Hsize. unfold ast_then_regex, AstChunking.chunk_code_ast.
  destruct (ast_raises content lang path); [now apply regex_tier |].
  destruct (negb (AstChunking.mem lang _)); [now apply regex_tier |].
  rewrite AstChunking.chunk_with_ast_returns.
  destruct (AstChunking.get_parser lang) as [parser |]; [| now apply regex_tier].
  destruct (flat_map _ _) as [| c cs]; [now apply regex_tier |].
  eexists. split; [reflexivity |]. split; [discriminate |].
  apply Forall_forall. intros d Hd. apply in_map_iff in Hd.
  destruct Hd as (c' & <- & _). apply dict_of_ast_metadata.
Qed.

(** X19.  When the maximum size gives more than ten lines to a segment,
    [chunk_file] returns for every path.  A file that cannot be read gives
    the empty list.  A file that can be read gives at least one chunk,
    whichever tier made the chunks, and every chunk says of which file it is:
    its [path] is the path given, its [language] the language detected from
    the path, and its [type] the type that goes with them. *)
Theorem chunk_file_tags_every_chunk (path : string) :
  10 < MAX_CHUNK_SIZE cfg / 10 ->
  exists fuel chunks,
    chunk_file fuel path = Some chunks /\
    match read_text path with
    | FileWatcher.Raise _ => chunks = []
    | FileWatcher.Ok _ => chunks <> [] /\ Forall (has_metadata path) chunks
    end.
Proof.
  intros Hsize. unfold chunk_file.
  destruct (read_text path) as [content | x].
  2: { exists O, []. split; reflexivity. }
  exists (enough content). cbv zeta.
  set (lang := detect_language suffix_lower path).
  assert (Htier : exists chunks,
             (if CODECHUNK_AVAILABLE
                 && AstChunking.mem lang
                      ["java"; "python"; "typescript"; "javascript"; "rust"; "go"]
              then
                match chunk_with_codechunk F float_truthy subprocess_run json_loads
                        content path lang 2000 with
                | Some (c :: cs) => Some (c :: cs)
                | _ =>
                    if AST_AVAILABLE then ast_then_regex (enough content) lang content path
                    else regex_chunks (enough content) lang content path
                end
              else if AST_AVAILABLE
                      && AstChunking.mem lang
                           ["java"; "python"; "typescript"; "javascript"]
              then ast_then_regex (enough content) lang content path
              else if String.eqb lang "yaml" then
                option_map (map dict_of_chunk)
                  (chunk_yaml cfg is_separator (enough content) content path)
              else
                option_map (map dict_of_chunk)
                  (chunk_default cfg (enough content) content path)) = Some chunks /\
             chunks <> [] /\ Forall (metadata_or_none path) chunks).
  { destruct (CODECHUNK_AVAILABLE && _).
    - destruct (chunk_with_codechunk F float_truthy subprocess_run json_loads
                  content path lang 2000) as [[| c cs] |] eqn:Hcc.
      + destruct AST_AVAILABLE; [now apply ast_tier | now apply regex_tier].
      + eexists. split; [reflexivity |]. split; [discriminate |].
        destruct (chunk_with_codechunk_some _ _ _ _ _ _ _ _ _ Hcc)
          as (_ & _ & r & data & _ & _ & _ & Hparse).
        apply parse_chunks_keys in Hparse.
        apply Forall_forall. intros d Hd. rewrite Forall_forall in Hparse.
        apply chunk_keys_metadata. now apply Hparse.
      + destruct AST_AVAILABLE; [now apply ast_tier | now apply regex_tier].
    - destruct (AST_AVAILABLE && _); [now apply ast_tier |].
      destruct (String.eqb lang "yaml"); [apply yaml_tier | now apply default_tier]. }
  destruct Htier as (chunks & -> & Hne & Hall). cbn [option_map].
  eexists. split; [reflexivity |].
  split; [destruct chunks; [congruence | discriminate] |].
  apply Forall_forall. intros d Hd. apply in_map_iff in Hd.
  destruct Hd as (d' & <- & Hd'). rewrite Forall_forall in Hall.
  apply ensure_metadata_sets. now apply Hall.
Qed.

(** *** The languages that reach a parser *)

(** The languages that [detect_language] knows. *)
Lemma detect_language_range (path : string) :
  In (detect_language suffix_lower path)
     ["java"; "javascript"; "typescript"; "json"; "xml"; "yaml"; "markdown";
      "properties"; "gradle"; "unknown"].
Proof.
  unfold detect_language, lang_map. cbn [PyDict.get].
  repeat (destruct (String.eqb (suffix_lower path) _);
          [cbn; repeat (first [left; reflexivity | right]) |]).
  cbn. repeat (first [left; reflexivity | right]).
Qed.

(** X20.  Only Java, JavaScript and TypeScript files reach code-chunk or
    the syntax-tree tier.  For every other path, whatever is installed,
    [chunk_file] is the YAML chunker for a YAML file and the fixed-size
    chunker otherwise, followed by the three keys: no language that
    [detect_language] gives is one of [python], [rust] and [go], which the
    two tiers would take as well. *)
Theorem other_languages_skip_the_parsers (fuel : nat) (path : string) (content : str) :
  read_text path = FileWatcher.Ok content ->
  detect_language suffix_lower path <> "java" ->
  detect_language suffix_lower path <> "javascript" ->
  detect_language suffix_lower path <> "typescript" ->
  chunk_file fuel path =
  option_map
    (map (fun c => ensure_metadata path (detect_language suffix_lower path)
                     (dict_of_chunk c)))
    (if String.eqb (detect_language suffix_lower path) "yaml"
     then chunk_yaml cfg is_separator fuel content path
     else chunk_default cfg fuel content path).
Proof.
  intros Hread Hjava Hjs Hts. unfold chunk_file. rewrite Hread. cbv zeta.
  pose proof (detect_language_range path) as Hrange.
  set (lang := detect_language suffix_lower path) in *.
  assert (Hmem : AstChunking.mem lang
                   ["java"; "python"; "typescript"; "javascript"; "rust"; "go"] = false /\
                 AstChunking.mem lang
                   ["java"; "python"; "typescript"; "javascript"] = false).
  { cbn [In] in Hrange.
    repeat (destruct Hrange as [Hrange | Hrange];
            [first [ now rewrite <- Hrange
                   | exfalso; auto ] |]).
    contradiction. }
  destruct Hmem as [-> ->]. rewrite !andb_false_r.
  destruct (String.eqb lang "yaml").
  - destruct (chunk_yaml cfg is_separator fuel content path); cbn [option_map];
      [now rewrite map_map | reflexivity].
  - destruct (chunk_default cfg fuel content path); cbn [option_map];
      [now rewrite map_map | reflexivity].
Qed.

End File.

(** *** An example *)

(** A Java file that holds the method of 60 characters; code-chunk is not
    installed, and the syntax-tree tier makes the chunk. *)
Definition demo_chunk_file (fuel : nat) (path : string) : option (list (Dict unit)) :=
  chunk_file default_config (fun _ => ".java") (fun _ => None) (fun _ => None)
    (fun _ => None) (fun _ => false) (fun _ _ => AstChunking.short_method_tree)
    (fun _ _ _ => false) unit (fun _ => true) CodechunkWrapper.demo_run CodechunkWrapper.demo_loads
    (fun _ => FileWatcher.Ok AstChunking.short_method_source)
    false true fuel path.

Lemma chunk_file_tags_witness :
  exists fuel chunks,
    demo_chunk_file fuel "M.java" = Some chunks /\
    chunks <> [] /\
    Forall (has_metadata (fun _ => ".java") unit "M.java") chunks.
Proof.
  apply (chunk_file_tags_every_chunk default_config (fun _ => ".java") (fun _ => None)
           (fun _ => None) (fun _ => None) (fun _ => false)
           (fun _ _ => AstChunking.short_method_tree) (fun _ _ _ => false)
           unit (fun _ => true) CodechunkWrapper.demo_run CodechunkWrapper.demo_loads
           (fun _ => FileWatcher.Ok AstChunking.short_method_source)
           false true "M.java").
  reflexivity.
Defined.

(** What [chunk_file] returns for it. *)
Example demo_chunk_file_result :
  demo_chunk_file 1 "M.java" =
  Some [[("content", JStr AstChunking.short_method_source);
         ("start_line", JInt 1); ("end_line", JInt 1);
         ("node_type", JStr (py_str "method_declaration"));
         ("path", JStr (py_str "M.java"));
         ("language", JStr (py_str "java"));
         ("type", JStr (py_str "code"))]].
Proof. vm_compute. reflexivity. Qed.

(** A Python file, with code-chunk and the syntax-tree tier both there:
    its language is unknown, and it goes to the fixed-size chunker. *)
Lemma other_languages_witness :
  chunk_file default_config (fun _ => ".py") (fun _ => None) (fun _ => None)
    (fun _ => None) (fun _ => false) (fun _ _ => AstChunking.short_method_tree)
    (fun _ _ _ => false) unit (fun _ => true)
    CodechunkWrapper.demo_run CodechunkWrapper.demo_loads
    (fun _ => FileWatcher.Ok AstChunking.short_method_source)
    true true 1 "m.py" =
  Some [[("content", JStr AstChunking.short_method_source);
         ("start_line", JInt 1); ("end_line", JInt 1);
         ("path", JStr (py_str "m.py"));
         ("language", JStr (py_str "unknown"));
         ("type", JStr (py_str "code"))]].
Proof.
  rewrite (other_languages_skip_the_parsers default_config (fun _ => ".py")
             (fun _ => None) (fun _ => None) (fun _ => None) (fun _ => false)
             (fun _ _ => AstChunking.short_method_tree) (fun _ _ _ => false)
             unit (fun _ => true) CodechunkWrapper.demo_run CodechunkWrapper.demo_loads
             (fun _ => FileWatcher.Ok AstChunking.short_method_source)
             true true 1 "m.py" AstChunking.short_method_source).
  - vm_compute. reflexivity.
  - reflexivity.
  - vm_compute. discriminate.
  - vm_compute. discriminate.
  - vm_compute. discriminate.
Defined.

End ChunkFile.

(* ===================================================================== *)
(** ** The event handler (FileChangeHandler of src/file_watcher.py) *)
(* ===================================================================== *)

Module ChangeHandler.

Import FileWatcher.

Local Open Scope string_scope.
Local Open Scope list_scope.
Local Open Scope Z_scope.

(** [_WATCH_EXTENSIONS] *)
Definition _WATCH_EXTENSIONS : list string :=
  [".java"; ".js"; ".ts"; ".tsx"; ".jsx"; ".json";
   ".xml"; ".yaml"; ".yml"; ".md"; ".gradle"; ".properties"].

(** [x in s] for a set of strings. *)
Definition mem (x : string) (s : list string) : bool := existsb (String.eqb x) s.

(** [s.startswith(p)] *)
Definition startswith (p s : string) : bool := String.prefix p s.

(** [s.endswith(p)] *)
Definition endswith (p s : string) : bool :=
  (String.length p <=? String.length s)%nat
  && String.eqb (String.substring (String.length s - String.length p)
                                  (String.length p) s) p.

(** [bool(a & b)] for two sets. *)
Definition intersects (a b : list string) : bool := existsb (fun x => mem x b) a.

(** What the handler keeps: the root of the project and the excluded
    directories, [None] until they are loaded. *)
Record FileChangeHandler : Type := mkHandler {
  h_project_root : string;
  _excluded_dirs : option (list string)
}.

(** [FileChangeHandler.__init__] *)
Definition new_handler (root : string) : FileChangeHandler := mkHandler root None.

(** What watchdog hands to the handler. *)
Record FsEvent : Type := mkFsEvent {
  is_directory : bool;
  src_path : string;
  dest_path : string
}.

Section Handler.

(** The file system, as in the batch processor. *)
Variable World : Type.
Variable path_exists : string -> World -> result bool.
Variable path_stat_size : string -> World -> result Z.
(** [Path(path).suffix], [Path(path).name] and [Path(path).parts] *)
Variable suffix : string -> string.
Variable name : string -> string.
Variable parts : string -> list string.
(** [rag_milvus.get_excluded_dirs(project_root=...)] *)
Variable get_excluded_dirs : string -> World -> result (list string).
(** Whether the event loop is closed, in which case
    [call_soon_threadsafe] raises [RuntimeError]. *)
Variable loop_is_closed : World -> bool.

(** The test in [try: ... except OSError: pass]: whether the file is
    there and larger than the ceiling. *)
Definition too_large (path : string) (e : World) : result bool :=
  match path_exists path e with
  | Raise x => Raise x
  | Ok false => Ok false
  | Ok true =>
      match path_stat_size path e with
      | Raise x => Raise x
      | Ok size => Ok (size >? size_ceiling)
      end
  end.

(** [_should_handle]: the answer, or the exception that leaves it, and the
    handler, which may have loaded the excluded directories. *)
Definition _should_handle (h : FileChangeHandler) (e : World) (path : string)
  : result bool * FileChangeHandler :=
  if negb (mem (suffix path) _WATCH_EXTENSIONS) then (Ok false, h)
  else if startswith "." (name path) then (Ok false, h)
  else if endswith ".d.ts" (name path) then (Ok false, h)
  else
    match (match _excluded_dirs h with
           | None => get_excluded_dirs (h_project_root h) e
           | Some dirs => Ok dirs
           end) with
    | Raise x => (Raise x, h)
    | Ok dirs =>
        let h := mkHandler (h_project_root h) (Some dirs) in
        if intersects dirs (parts path) then (Ok false, h)
        else
          match too_large path e with
          | Ok true => (Ok false, h)
          | Ok false => (Ok true, h)
          | Raise OSError => (Ok true, h)
          | Raise x => (Raise x, h)
          end
    end.

(** The handler and the queue. *)
Record State : Type := mkState {
  handler : FileChangeHandler;
  change_queue : list (string * string)
}.

(** [_enqueue] *)
Definition _enqueue (action path : string) (e : World) (s : State) : State :=
  if loop_is_closed e then s
  else mkState (handler s) (change_queue s ++ [(action, path)]).

(** [if self._should_handle(path): self._enqueue(action, path)] *)
Definition forward (action path : string) (e : World) (s : State)
  : result unit * State :=
  match _should_handle (handler s) e path with
  | (Ok true, h) => (Ok tt, _enqueue action path e (mkState h (change_queue s)))
  | (Ok false, h) => (Ok tt, mkState h (change_queue s))
  | (Raise x, h) => (Raise x, mkState h (change_queue s))
  end.

Definition on_modified (event : FsEvent) (e : World) (s : State) : result unit * State :=
  if negb (is_directory event) then forward "modified" (src_path event) e s
  else (Ok tt, s).

Definition on_created (event : FsEvent) (e : World) (s : State) : result unit * State :=
  if negb (is_directory event) then forward "created" (src_path event) e s
  else (Ok tt, s).

Definition on_deleted (event : FsEvent) (e : World) (s : State) : result unit * State :=
  if negb (is_directory event) then forward "deleted" (src_path event) e s
  else (Ok tt, s).

Definition on_moved (event : FsEvent) (e : World) (s : State) : result unit * State :=
  if negb (is_directory event) then
    match forward "deleted" (src_path event) e s with
    | (Ok _, s1) => forward "created" (dest_path event) e s1
    | (Raise x, s1) => (Raise x, s1)
    end
  else (Ok tt, s).

(** The four kinds of event that watchdog dispatches to the methods
    above, each with the file system as it is when the method runs. *)
Inductive kind : Type :=
| Modified
| Created
| Deleted
| Moved.

Definition dispatch (k : kind) : FsEvent -> World -> State -> result unit * State :=
  match k with
  | Modified => on_modified
  | Created => on_created
  | Deleted => on_deleted
  | Moved => on_moved
  end.

(** One event after the other; an exception that leaves a method leaves
    the handler and the queue as the method left them. *)
Definition dispatch_all (events : list (kind * FsEvent * World)) (s : State) : State :=
  fold_left (fun s ev => snd (dispatch (fst (fst ev)) (snd (fst ev)) (snd ev) s))
            events s.

(** *** What reaches the queue *)

(** The checks of [_should_handle] that only look at the path, with the
    excluded directories [dirs]. *)
Definition watched (dirs : list string) (path : string) : Prop :=
  In (suffix path) _WATCH_EXTENSIONS /\
  startswith "." (name path) = false /\
  endswith ".d.ts" (name path) = false /\
  intersects dirs (parts path) = false.

(** The excluded directories are loaded, and every queued event is one of
    the three actions on a path that passes the checks. *)
Definition queue_filtered (s : State) : Prop :=
  change_queue s = [] \/
  exists dirs,
    _excluded_dirs (handler s) = Some dirs /\
    Forall (fun ev => In (fst ev) ["modified"; "created"; "deleted"] /\
                      watched dirs (snd ev))
           (change_queue s).

(** Once loaded, the excluded directories stay as they are. *)
Definition keeps_dirs (s s' : State) : Prop :=
  h_project_root (handler s') = h_project_root (handler s) /\
  forall dirs, _excluded_dirs (handler s) = Some dirs ->
               _excluded_dirs (handler s') = Some dirs.

Lemma mem_In (x : string) (l : list string) : mem x l = true -> In x l.
Proof.
  unfold mem. intros H. apply existsb_exists in H. destruct H as (y & Hy & E).
  apply String.eqb_eq in E. now subst.
Qed.

Lemma should_handle_spec (h : FileChangeHandler) (e : World) (path : string) :
  let '(r, h') := _should_handle h e path in
  h_project_root h' = h_project_root h /\
  (forall dirs, _excluded_dirs h = Some dirs -> _excluded_dirs h' = Some dirs) /\
  (r = Ok true -> exists dirs, _excluded_dirs h' = Some dirs /\ watched dirs path).
Proof.
  unfold _should_handle.
  destruct (mem (suffix path) _WATCH_EXTENSIONS) eqn:Hext; cbn [negb];
    [| repeat split; [auto | discriminate]].
  destruct (startswith "." (name path)) eqn:Hdot; [repeat split; [auto | discriminate] |].
  destruct (endswith ".d.ts" (name path)) eqn:Hdts; [repeat split; [auto | discriminate] |].
  assert (Hload : forall dirs,
             match _excluded_dirs h with
             | None => get_excluded_dirs (h_project_root h) e
             | Some dirs => Ok dirs
             end = Ok dirs ->
             forall dirs', _excluded_dirs h = Some dirs' -> Some dirs = Some dirs').
  { intros dirs Hd dirs' Hh. rewrite Hh in Hd. congruence. }
  destruct (match _excluded_dirs h with
            | None => get_excluded_dirs (h_project_root h) e
            | Some dirs => Ok dirs
            end) as [dirs | x]; [| repeat split; [auto | discriminate]].
  specialize (Hload dirs eq_refl).
  assert (Hwatched : intersects dirs (parts path) = false -> watched dirs path).
  { intros Hex. repeat split; try assumption. now apply mem_In. }
  destruct (intersects dirs (parts path)) eqn:Hex.
  - repeat split; [intros d Hd; cbn; now apply Hload | discriminate].
  - destruct (too_large path e) as [[|] | []]; cbn [h_project_root _excluded_dirs];
      (split; [reflexivity |]);
      (split; [intros d Hd; now apply Hload |]);
      first [discriminate | intros _; exists dirs; split; [reflexivity | now apply Hwatched]].
Qed.

Lemma watched_queue_keeps (dirs : list string) (s s' : State) :
  keeps_dirs s s' -> queue_filtered s -> change_queue s' = change_queue s ->
  queue_filtered s'.
Proof.
  intros [_ Hkeep] [Hq | (d & Hd & Hall)] Hsame.
  - left. congruence.
  - right. exists d. split; [now apply Hkeep | now rewrite Hsame].
Qed.

Lemma forward_spec (action path : string) (e : World) (s : State) :
  In action ["modified"; "created"; "deleted"] ->
  queue_filtered s ->
  queue_filtered (snd (forward action path e s)) /\
  keeps_dirs s (snd (forward action path e s)).
Proof.
  intros Haction Hq. unfold forward.
  pose proof (should_handle_spec (handler s) e path) as Hspec.
  destruct (_should_handle (handler s) e path) as [r h'].
  destruct Hspec as (Hroot & Hkeep & Hyes).
  assert (Hsame : queue_filtered (mkState h' (change_queue s)) /\
                  keeps_dirs s (mkState h' (change_queue s))).
  { split; [| split; assumption].
    apply (watched_queue_keeps [] s); [split; assumption | exact Hq | reflexivity]. }
  destruct r as [[|] | x]; cbn [snd]; try exact Hsame.
  unfold _enqueue. destruct (loop_is_closed e); [exact Hsame |].
  cbn [handler change_queue]. split; [| split; assumption].
  destruct (Hyes eq_refl) as (dirs & Hdirs & Hwatched).
  right. exists dirs. cbn [handler change_queue]. split; [exact Hdirs |].
  apply Forall_app. split.
  - destruct Hq as [-> | (d & Hd & Hall)]; [constructor |].
    apply Hkeep in Hd. rewrite Hdirs in Hd. injection Hd as ->. exact Hall.
  - constructor; [| constructor]. split; assumption.
Qed.

Lemma keeps_dirs_trans (s1 s2 s3 : State) :
  keeps_dirs s1 s2 -> keeps_dirs s2 s3 -> keeps_dirs s1 s3.
Proof.
  intros [Hr1 Hk1] [Hr2 Hk2]. split; [congruence |].
  intros dirs Hd. apply Hk2. now apply Hk1.
Qed.

Lemma keeps_dirs_refl (s : State) : keeps_dirs s s.
Proof. split; auto. Qed.

Lemma dispatch_spec (k : kind) (event : FsEvent) (e : World) (s : State) :
  queue_filtered s ->
  queue_filtered (snd (dispatch k event e s)) /\
  keeps_dirs s (snd (dispatch k event e s)).
Proof.
  intros Hq.
  assert (Hsame : queue_filtered s /\ keeps_dirs s s)
    by (split; [exact Hq | apply keeps_dirs_refl]).
  destruct k; cbn [dispatch];
    unfold on_modified, on_created, on_deleted, on_moved;
    destruct (is_directory event); cbn [negb snd]; try exact Hsame;
    try (apply forward_spec; [cbn; tauto | exact Hq]).
  destruct (forward_spec "deleted" (src_path event) e s) as [Hq1 Hk1];
    [cbn; tauto | exact Hq |].
  destruct (forward "deleted" (src_path event) e s) as [[[] | x] s1]; cbn [snd] in *.
  - destruct (forward_spec "created" (dest_path event) e s1) as [Hq2 Hk2];
      [cbn; tauto | exact Hq1 |].
    split; [exact Hq2 | now apply keeps_dirs_trans with (s2 := s1)].
  - split; assumption.
Qed.

Lemma dispatch_all_spec (events : list (kind * FsEvent * World)) : forall s,
  queue_filtered s ->
  queue_filtered (dispatch_all events s) /\ keeps_dirs s (dispatch_all events s).
Proof.
  induction events as [| [[k event] e] events IH]; intros s Hq.
  - split; [exact Hq | apply keeps_dirs_refl].
  - cbn [dispatch_all fold_left fst snd].
    destruct (dispatch_spec k event e s Hq) as [Hq1 Hk1].
    destruct (IH _ Hq1) as [Hq2 Hk2].
    split; [exact Hq2 |].
    now apply keeps_dirs_trans with (s2 := snd (dispatch k event e s)).
Qed.

(** X21.  Whatever events watchdog reports, and whatever the file system
    does meanwhile, only the three actions reach the queue, and only for
    paths that pass the checks of the filter: a watched extension, a name
    that neither starts with a dot nor ends in [.d.ts], and no excluded
    directory among the parts of the path.  The excluded directories are
    those loaded the first time a path got as far as that check: once
    loaded they are never read again. *)
Theorem only_watched_paths_are_queued (root : string)
    (events : list (kind * FsEvent * World)) :
  let s := dispatch_all events (mkState (new_handler root) []) in
  queue_filtered s /\
  forall events' dirs,
    _excluded_dirs (handler s) = Some dirs ->
    _excluded_dirs (handler (dispatch_all events' s)) = Some dirs.
Proof.
  cbv zeta.
  assert (Hstart : queue_filtered (mkState (new_handler root) [])) by now left.
  destruct (dispatch_all_spec events _ Hstart) as [Hq _].
  split; [exact Hq |].
  intros events' dirs Hdirs.
  destruct (dispatch_all_spec events' _ Hq) as [_ [_ Hkeep]]. now apply Hkeep.
Qed.

(** *** From the handler to the ledger *)

(** What the ledger holds is one of the three actions, for a path that
    passes the checks. *)
Definition ledger_filtered (dirs : list string) (pending : PyDict.t string) : Prop :=
  forall path action,
    PyDict.get path pending = Some action ->
    In action ["modified"; "created"; "deleted"] /\ watched dirs path.

Lemma merge_filtered (dirs : list string) (action path : string)
    (pending : PyDict.t string) :
  In action ["modified"; "created"; "deleted"] ->
  watched dirs path ->
  ledger_filtered dirs pending ->
  ledger_filtered dirs (merge action path pending).
Proof.
  intros Haction Hpath Hpending q a Hget.
  destruct (string_dec q path) as [-> | Hne].
  - rewrite merge_get_same in Hget. injection Hget as <-.
    split; [| exact Hpath].
    destruct (String.eqb action "deleted"); [cbn; tauto |].
    destruct (is_deleted (PyDict.get path pending)); [cbn; tauto | exact Haction].
  - rewrite merge_get_other in Hget by exact Hne. now apply Hpending.
Qed.

Lemma drain_filtered (dirs : list string) (evs : list (string * string)) : forall w,
  Forall (fun ev => In (fst ev) ["modified"; "created"; "deleted"] /\
                    watched dirs (snd ev)) evs ->
  ledger_filtered dirs (_pending_changes w) ->
  ledger_filtered dirs (_pending_changes (_drain_queue evs w)).
Proof.
  induction evs as [| ev evs IH]; intros w Hall Hw; [exact Hw |].
  inversion Hall as [| ? ? [Ha Hp] Hrest]; subst.
  unfold _drain_queue. cbn [fold_left]. apply IH; [exact Hrest |].
  rewrite pending_drain_event. now apply merge_filtered.
Qed.

(** X26.  From the events that watchdog reports to the ledger of a new
    watcher: whatever the events, once the queue is drained every entry of
    the ledger is one of the actions [modified], [created] and [deleted] for a
    path that passed the checks of the filter, with the excluded directories
    that the handler loaded. *)
Theorem ledger_holds_only_watched_paths (root db : string) (cap : Z)
    (events : list (kind * FsEvent * World)) (path action : string) :
  let s := dispatch_all events (mkState (new_handler root) []) in
  let w := _drain_queue (change_queue s) (new_watcher root db cap) in
  PyDict.get path (_pending_changes w) = Some action ->
  In action ["modified"; "created"; "deleted"] /\
  exists dirs, _excluded_dirs (handler s) = Some dirs /\ watched dirs path.
Proof.
  cbv zeta. intros Hget.
  assert (Hstart : queue_filtered (mkState (new_handler root) [])) by now left.
  destruct (dispatch_all_spec events _ Hstart) as [[Hq | (dirs & Hdirs & Hall)] _].
  - rewrite Hq in Hget. discriminate.
  - assert (Hledger : ledger_filtered dirs
                        (_pending_changes
                           (_drain_queue
                              (change_queue
                                 (dispatch_all events (mkState (new_handler root) [])))
                              (new_watcher root db cap)))).
    { apply drain_filtered; [exact Hall |]. intros q a H. discriminate. }
    destruct (Hledger path action Hget) as [Ha Hp].
    split; [exact Ha |]. exists dirs. split; assumption.
Qed.

(** *** A file renamed and renamed back *)

(** [_should_handle] says yes. *)
Definition accepts (h : FileChangeHandler) (e : World) (path : string) : Prop :=
  fst (_should_handle h e path) = Ok true.

Lemma forward_accepted (action path : string) (e : World) (s : State) :
  accepts (handler s) e path -> loop_is_closed e = false ->
  forward action path e s =
  (Ok tt, mkState (snd (_should_handle (handler s) e path))
                  (change_queue s ++ [(action, path)])).
Proof.
  unfold accepts, forward, _enqueue. intros Hyes Hopen.
  destruct (_should_handle (handler s) e path) as [r h']. cbn [fst] in Hyes.
  subst r. cbn [handler change_queue snd]. now rewrite Hopen.
Qed.

(** X22.  A file is moved from [a] to [b] and later back, both paths
    passing the filter each time and the loop being open.  The handler
    queues four events, and once they are drained the ledger says that [a]
    was modified and that [b] was deleted, whatever it held for them
    before. *)
Theorem rename_there_and_back (s : State) (e1 e2 : World) (a b : string)
    (w : ProjectWatcher) :
  let s1 := snd (forward "deleted" a e1 s) in
  let s2 := snd (on_moved (mkFsEvent false a b) e1 s) in
  let s3 := snd (forward "deleted" b e2 s2) in
  let s4 := snd (on_moved (mkFsEvent false b a) e2 s2) in
  a <> b ->
  loop_is_closed e1 = false -> loop_is_closed e2 = false ->
  accepts (handler s) e1 a -> accepts (handler s1) e1 b ->
  accepts (handler s2) e2 b -> accepts (handler s3) e2 a ->
  change_queue s4 =
    change_queue s ++ [("deleted", a); ("created", b); ("deleted", b); ("created", a)] /\
  let ledger :=
    _pending_changes
      (_drain_queue [("deleted", a); ("created", b); ("deleted", b); ("created", a)] w) in
  PyDict.get a ledger = Some "modified" /\
  PyDict.get b ledger = Some "deleted".
Proof.
  cbv zeta. intros Hab Hopen1 Hopen2 Ha1 Hb1 Hb2 Ha2.
  unfold on_moved in *. cbn [is_directory negb src_path dest_path] in *.
  rewrite (forward_accepted "deleted" a e1 s Ha1 Hopen1) in *. cbn [snd] in *.
  rewrite (forward_accepted "created" b e1 _ Hb1 Hopen1) in *. cbn [snd] in *.
  rewrite (forward_accepted "deleted" b e2 _ Hb2 Hopen2) in *. cbn [snd] in *.
  rewrite (forward_accepted "created" a e2 _ Ha2 Hopen2). cbn [snd change_queue].
  split; [now rewrite <- !app_assoc |].
  unfold _drain_queue. cbn [fold_left]. rewrite !pending_drain_event. cbn [fst snd].
  split.
  - rewrite merge_get_same.
    rewrite (merge_get_other "deleted" b a) by congruence.
    rewrite (merge_get_other "created" b a) by congruence.
    rewrite merge_get_same. reflexivity.
  - rewrite (merge_get_other "created" a b) by congruence.
    rewrite merge_get_same. reflexivity.
Qed.

End Handler.

(** *** An example *)

(** A file system in which every file is there and small, paths that are
    one name long, and [node_modules] excluded. *)
Definition demo_moved (a b : string) (s : State) : result unit * State :=
  on_moved unit (fun _ _ => Ok true) (fun _ _ => Ok 10) (fun _ => ".java")
    (fun p => p) (fun p => [p]) (fun _ _ => Ok ["node_modules"]) (fun _ => false)
    (mkFsEvent false a b) tt s.

(** After the first renaming, the ledger holds [B.java] as created. *)
Lemma ledger_holds_only_watched_witness :
  In "created" ["modified"; "created"; "deleted"] /\
  exists dirs,
    _excluded_dirs
      (handler
         (dispatch_all unit (fun _ _ => Ok true) (fun _ _ => Ok 10) (fun _ => ".java")
            (fun p => p) (fun p => [p]) (fun _ _ => Ok ["node_modules"]) (fun _ => false)
            [(Moved, mkFsEvent false "A.java" "B.java", tt)]
            (mkState (new_handler "/p") []))) = Some dirs /\
    watched (fun _ => ".java") (fun p => p) (fun p => [p]) dirs "B.java".
Proof.
  apply (ledger_holds_only_watched_paths unit (fun _ _ => Ok true) (fun _ _ => Ok 10)
           (fun _ => ".java") (fun p => p) (fun p => [p])
           (fun _ _ => Ok ["node_modules"]) (fun _ => false)
           "/p" "/p/.code-rag/milvus.db" 100
           [(Moved, mkFsEvent false "A.java" "B.java", tt)] "B.java" "created").
  vm_compute. reflexivity.
Defined.

(** [A.java] is renamed to [B.java] and back. *)
Lemma rename_there_and_back_witness :
  let s0 := mkState (new_handler "/p") [] in
  let s2 := snd (demo_moved "A.java" "B.java" s0) in
  let ledger :=
    _pending_changes
      (_drain_queue (change_queue (snd (demo_moved "B.java" "A.java" s2)))
                    (new_watcher "/p" "/p/.code-rag/milvus.db" 100)) in
  change_queue (snd (demo_moved "B.java" "A.java" s2)) =
    [("deleted", "A.java"); ("created", "B.java");
     ("deleted", "B.java"); ("created", "A.java")] /\
  PyDict.get "A.java" ledger = Some "modified" /\
  PyDict.get "B.java" ledger = Some "deleted".
Proof.
  cbv zeta.
  destruct (rename_there_and_back unit (fun _ _ => Ok true) (fun _ _ => Ok 10)
              (fun _ => ".java") (fun p => p) (fun p => [p])
              (fun _ _ => Ok ["node_modules"]) (fun _ => false)
              (mkState (new_handler "/p") []) tt tt "A.java" "B.java"
              (new_watcher "/p" "/p/.code-rag/milvus.db" 100))
    as (Hqueue & Ha & Hb).
  - discriminate.
  - reflexivity.
  - reflexivity.
  - vm_compute. reflexivity.
  - vm_compute. reflexivity.
  - vm_compute. reflexivity.
  - vm_compute. reflexivity.
  - unfold demo_moved. rewrite Hqueue. cbn [change_queue app].
    split; [reflexivity |]. split; [exact Ha | exact Hb].
Defined.

End ChangeHandler.

(* ===================================================================== *)
(** ** The watcher manager (src/file_watcher.py) *)
(* ===================================================================== *)

Module WatcherManager.

Import FileWatcher.

Local Open Scope string_scope.
Local Open Scope list_scope.
Local Open Scope Z_scope.

(** What the model keeps of [_watcher_config]: the two intervals are
    handed to the watcher, which the model does not make wait. *)
Record WatcherConfig : Type := mkWatcherConfig {
  enabled : bool;
  config_max_batch_size : Z
}.

(** One entry of what [get_watcher_status] returns. *)
Record Status : Type := mkStatus {
  st_pending : Z;
  st_processing : bool;
  st_stats : Stats
}.

Section Manager.

Variable cfg : WatcherConfig.
(** The observer threads and the tasks of the loop. *)
Variable World : Type.
(** [ProjectWatcher.start]: the observer is scheduled and started and the
    drain task is created, or something raises. *)
Variable start : ProjectWatcher -> World -> result unit * World.
(** What [ProjectWatcher.stop] does after it has set the flag and
    cancelled the timer: the drain task is cancelled and awaited, the
    observer stopped and joined. *)
Variable stop_rest : ProjectWatcher -> World -> result unit * World.

(** [_watchers] and the world around it.  The dictionary holds the
    watchers themselves: what [stop] writes to a watcher is seen through
    it. *)
Record Manager : Type := mkManager {
  _watchers : PyDict.t ProjectWatcher;
  world : World
}.

(** [ensure_watcher] *)
Definition ensure_watcher (project_root db_path : string) (m : Manager)
  : result (option ProjectWatcher) * Manager :=
  if negb (enabled cfg) then (Ok None, m)
  else
    match PyDict.get project_root (_watchers m) with
    | Some watcher => (Ok (Some watcher), m)
    | None =>
        let watcher := new_watcher project_root db_path (config_max_batch_size cfg) in
        match start watcher (world m) with
        | (Ok _, e) =>
            (Ok (Some watcher),
             mkManager (PyDict.set project_root watcher (_watchers m)) e)
        | (Raise x, e) => (Raise x, mkManager (_watchers m) e)
        end
    end.

(** [ProjectWatcher.stop], on the watcher of one entry. *)
Definition stop (w : ProjectWatcher) (e : World) : result unit * ProjectWatcher * World :=
  let w := with_handle None (with_stopped true w) in
  let '(r, e) := stop_rest w e in (r, w, e).

(** The loop [for watcher in list(_watchers.values())]: the entries with
    their watchers as the loop leaves them. *)
Fixpoint stop_each (entries : list (string * ProjectWatcher)) (e : World)
  : result unit * list (string * ProjectWatcher) * World :=
  match entries with
  | [] => (Ok tt, [], e)
  | (root, w) :: rest =>
      match stop w e with
      | (Ok _, w, e) =>
          let '(r, rest, e) := stop_each rest e in (r, (root, w) :: rest, e)
      | (Raise x, w, e) => (Raise x, (root, w) :: rest, e)
      end
  end.

(** [stop_all_watchers]: the dictionary is cleared when every watcher has
    stopped. *)
Definition stop_all_watchers (m : Manager) : result unit * Manager :=
  match stop_each (_watchers m) (world m) with
  | (Ok _, _, e) => (Ok tt, mkManager [] e)
  | (Raise x, entries, e) => (Raise x, mkManager entries e)
  end.

(** [get_watcher_status] *)
Definition get_watcher_status (m : Manager) : PyDict.t Status :=
  map (fun entry =>
         (fst entry,
          mkStatus (Z.of_nat (List.length (_pending_changes (snd entry))))
                   (_processing (snd entry))
                   (stats (snd entry))))
      (_watchers m).

(** *** Any sequence of calls *)

Inductive call : Type :=
| Ensure (project_root db_path : string)
| StopAll
| Env (e : World).

Definition is_stop_all (c : call) : bool :=
  match c with StopAll => true | _ => false end.

(** A call, whatever it returns or raises. *)
Definition after_call (m : Manager) (c : call) : Manager :=
  match c with
  | Ensure project_root db_path => snd (ensure_watcher project_root db_path m)
  | StopAll => snd (stop_all_watchers m)
  | Env e => mkManager (_watchers m) e
  end.

Definition after_calls (calls : list call) (m : Manager) : Manager :=
  fold_left after_call calls m.

(** Every project has one watcher, under its own root, and no watcher is
    there when watching is disabled. *)
Definition registry_ok (m : Manager) : Prop :=
  PyDict.wf (_watchers m) /\
  (forall root w, In (root, w) (_watchers m) -> project_root w = root) /\
  (enabled cfg = false -> _watchers m = []).

Lemma in_set (root q : string) (w v : ProjectWatcher) (d : PyDict.t ProjectWatcher) :
  In (q, v) (PyDict.set root w d) -> (q = root /\ v = w) \/ In (q, v) d.
Proof.
  induction d as [| [k u] d IH]; cbn.
  - intros [H | []]. injection H as <- <-. now left.
  - destruct (String.eqb root k).
    + intros [H | H]; [injection H as <- <-; now left | right; now right].
    + intros [H | H]; [right; now left |].
      destruct (IH H) as [E | HIn]; [now left | right; now right].
Qed.

Lemma stop_each_keys (entries : list (string * ProjectWatcher)) : forall e,
  let '(_, entries', _) := stop_each entries e in
  map fst entries' = map fst entries /\
  forall root w, In (root, w) entries' ->
                 exists w0, In (root, w0) entries /\ project_root w = project_root w0.
Proof.
  induction entries as [| [root w] entries IH]; intros e; cbn [stop_each].
  - split; [reflexivity | intros ? ? []].
  - unfold stop. destruct (stop_rest _ e) as [[[] | x] e1].
    + specialize (IH e1). destruct (stop_each entries e1) as [[r rest] e2].
      destruct IH as [Hkeys Hroots]. split; [cbn; now rewrite Hkeys |].
      intros q v [H | H].
      * injection H as <- <-. exists w. split; [now left | reflexivity].
      * destruct (Hroots q v H) as (w0 & HIn & E). exists w0. split; [now right | exact E].
    + split; [reflexivity |].
      intros q v [H | H].
      * injection H as <- <-. exists w. split; [now left | reflexivity].
      * exists v. split; [now right | reflexivity].
Qed.

Lemma after_call_ok (m : Manager) (c : call) :
  registry_ok m -> registry_ok (after_call m c).
Proof.
  intros Hm. pose proof Hm as (Hwf & Hroots & Hoff).
  destruct c as [root db | | e]; cbn [after_call].
  - unfold ensure_watcher. destruct (enabled cfg) eqn:Hen; cbn [negb snd];
      [| exact Hm].
    destruct (PyDict.get root (_watchers m)); cbn [snd]; [exact Hm |].
    destruct (start _ (world m)) as [[[] | x] e]; cbn [snd].
    + split; [now apply PyDict.wf_set |]. split; [| rewrite Hen; discriminate].
      intros q v HIn. apply in_set in HIn.
      destruct HIn as [[-> ->] | HIn]; [reflexivity | now apply Hroots].
    + exact Hm.
  - unfold stop_all_watchers.
    pose proof (stop_each_keys (_watchers m) (world m)) as Hstop.
    destruct (stop_each (_watchers m) (world m)) as [[[[] | x] entries] e];
      cbn [snd _watchers].
    + split; [constructor |]. split; [intros ? ? [] | reflexivity].
    + destruct Hstop as [Hkeys Hsame].
      split; [unfold PyDict.wf, PyDict.keys in *; cbn [_watchers]; now rewrite Hkeys |].
      split.
      * intros q v HIn. destruct (Hsame q v HIn) as (w0 & HIn0 & ->).
        now apply Hroots.
      * intros Hen. specialize (Hoff Hen). rewrite Hoff in Hkeys.
        destruct entries; [reflexivity | discriminate].
  - exact Hm.
Qed.

Lemma after_call_keeps (m : Manager) (c : call) (root : string) (w : ProjectWatcher) :
  is_stop_all c = false ->
  PyDict.get root (_watchers m) = Some w ->
  PyDict.get root (_watchers (after_call m c)) = Some w.
Proof.
  intros Hc Hw. destruct c as [q db | | e]; [| discriminate | exact Hw].
  cbn [after_call]. unfold ensure_watcher.
  destruct (enabled cfg); cbn [negb snd]; [| exact Hw].
  destruct (PyDict.get q (_watchers m)) eqn:Hq; cbn [snd]; [exact Hw |].
  destruct (start _ (world m)) as [[[] | x] e]; cbn [snd _watchers]; [| exact Hw].
  rewrite PyDict.get_set_other; [exact Hw |].
  intros ->. congruence.
Qed.

(** X23.  Whatever calls are made to [ensure_watcher] and
    [stop_all_watchers], whether [start] and [stop] return or raise, the
    registry holds at most one watcher for a project, each under its own
    root, and [get_watcher_status] has one entry for each; it holds none when
    watching is disabled.  As long as [stop_all_watchers] is not called, the
    watcher of a project stays the one that was registered first: a later
    call for the same root with another database path changes nothing. *)
Theorem one_watcher_per_project (e : World) (calls : list call) :
  let m := after_calls calls (mkManager [] e) in
  registry_ok m /\
  PyDict.keys (get_watcher_status m) = PyDict.keys (_watchers m) /\
  forall calls' root w,
    forallb (fun c => negb (is_stop_all c)) calls' = true ->
    PyDict.get root (_watchers m) = Some w ->
    PyDict.get root (_watchers (after_calls calls' m)) = Some w.
Proof.
  cbv zeta. split; [| split].
  - assert (Hall : forall cs m, registry_ok m -> registry_ok (after_calls cs m)).
    { induction cs as [| c cs IH]; intros m Hm; [exact Hm |].
      cbn [after_calls fold_left]. apply IH. now apply after_call_ok. }
    apply Hall. split; [constructor |]. split; [intros ? ? [] | reflexivity].
  - unfold get_watcher_status, PyDict.keys. rewrite map_map. reflexivity.
  - intros calls'. generalize (after_calls calls (mkManager [] e)).
    induction calls' as [| c cs IH]; intros m root w Hcs Hw; [exact Hw |].
    cbn [forallb] in Hcs. apply andb_true_iff in Hcs. destruct Hcs as [Hc Hcs].
    cbn [after_calls fold_left]. apply IH; [exact Hcs |].
    apply after_call_keeps; [| exact Hw].
    now destruct (is_stop_all c).
Qed.

(** *** The tool that reports the status (call_tool of src/tools.py) *)

(** [str(n)] and [str(b)], as an f-string writes a number and a flag. *)
Variable str_int : Z -> string.
Variable str_bool : bool -> string.

Definition no_watcher_text : string := "No active file watcher for this project.".

(** The lines of the report, joined by newlines. *)
Definition status_text (st : Status) : string :=
  String.concat (String (Ascii.ascii_of_nat 10) "")
    ["**File Watcher:** active";
     ("**Pending changes:** " ++ str_int (st_pending st))%string;
     ("**Currently processing:** " ++ str_bool (st_processing st))%string;
     "";
     "### Cumulative Stats";
     ("- Files indexed: " ++ str_int (files_indexed (st_stats st)))%string;
     ("- Files deleted: " ++ str_int (files_deleted (st_stats st)))%string;
     ("- Batches processed: " ++ str_int (batches_processed (st_stats st)))%string;
     ("- Errors: " ++ str_int (stat_errors (st_stats st)))%string].

(** [call_tool] for the tool [watcher_status], with a project configured:
    the watcher is ensured, whatever that raises, and the status of the
    project is looked up. *)
Definition call_watcher_status (project_root db : string) (m : Manager)
  : string * Manager :=
  let m := snd (ensure_watcher project_root db m) in
  match PyDict.get project_root (get_watcher_status m) with
  | None => (no_watcher_text, m)
  | Some project_status => (status_text project_status, m)
  end.

Definition status_of (w : ProjectWatcher) : Status :=
  mkStatus (Z.of_nat (List.length (_pending_changes w))) (_processing w) (stats w).

Lemma get_status (root : string) (m : Manager) :
  PyDict.get root (get_watcher_status m) =
  option_map status_of (PyDict.get root (_watchers m)).
Proof.
  unfold get_watcher_status. induction (_watchers m) as [| [k w] d IH]; cbn.
  - reflexivity.
  - destruct (String.eqb root k); [reflexivity | exact IH].
Qed.

Lemma status_text_active (st : Status) : status_text st <> no_watcher_text.
Proof. unfold status_text, no_watcher_text. cbn. discriminate. Qed.

(** X24.  The tool [watcher_status] first ensures the watcher and swallows
    what that raises.  In a registry as the calls above leave it, it
    therefore answers that no watcher is active exactly when watching is
    disabled, or the project had no watcher and [start] raised; a project
    that had a watcher gets the report of that watcher, and a project whose
    watcher was just started gets a report with nothing pending, nothing
    processing and all counters at zero. *)
Theorem watcher_status_after_ensure (project_root db : string) (m : Manager) :
  let answer := fst (call_watcher_status project_root db m) in
  let fresh := new_watcher project_root db (config_max_batch_size cfg) in
  registry_ok m ->
  (answer = no_watcher_text <->
   enabled cfg = false \/
   (PyDict.get project_root (_watchers m) = None /\
    exists x, fst (start fresh (world m)) = Raise x)) /\
  (forall w, PyDict.get project_root (_watchers m) = Some w ->
             answer = status_text (status_of w)) /\
  (enabled cfg = true ->
   PyDict.get project_root (_watchers m) = None ->
   fst (start fresh (world m)) = Ok tt ->
   answer = status_text (mkStatus 0 false (mkStats 0 0 0 0))).
Proof.
  cbv zeta. intros (_ & _ & Hoff). unfold call_watcher_status, ensure_watcher.
  destruct (enabled cfg); cbn [negb snd].
  - destruct (PyDict.get project_root (_watchers m)) as [w |] eqn:Hget.
    + cbn [snd]. rewrite get_status, Hget. cbn [option_map fst].
      split; [| split].
      * split.
        -- intros H. now apply status_text_active in H.
        -- intros [H | [H _]]; discriminate.
      * intros w' H. now injection H as <-.
      * discriminate.
    + destruct (start _ (world m)) as [[[] | x] e]; cbn [snd fst].
      * rewrite get_status. cbn [_watchers]. rewrite PyDict.get_set_same.
        cbn [option_map fst]. split; [| split].
        -- split.
           ++ intros H. now apply status_text_active in H.
           ++ intros [H | [_ [y H]]]; discriminate.
        -- discriminate.
        -- reflexivity.
      * rewrite get_status. cbn [_watchers]. rewrite Hget. cbn [option_map fst].
        split; [| split].
        -- split; [| reflexivity]. intros _. right. split; [reflexivity |]. now exists x.
        -- discriminate.
        -- discriminate.
  - rewrite get_status, (Hoff eq_refl). cbn [PyDict.get option_map fst].
    split; [| split].
    + split; [now left | reflexivity].
    + discriminate.
    + discriminate.
Qed.

End Manager.

(** *** An example *)

Definition demo_config : WatcherConfig := mkWatcherConfig true 100.

Definition demo_start (w : ProjectWatcher) (e : unit) : result unit * unit := (Ok tt, e).

(** The first call for a project, with watching enabled and a watcher that
    starts. *)
Lemma watcher_status_witness :
  fst (call_watcher_status demo_config unit demo_start (fun _ => "0") (fun _ => "False")
         "/p" "/p/.code-rag/milvus.db" (mkManager unit [] tt)) =
  status_text (fun _ => "0") (fun _ => "False") (mkStatus 0 false (mkStats 0 0 0 0)).
Proof.
  apply (watcher_status_after_ensure demo_config unit demo_start
           (fun _ => "0") (fun _ => "False")
           "/p" "/p/.code-rag/milvus.db" (mkManager unit [] tt)).
  - split; [constructor |]. split; [intros ? ? [] | reflexivity].
  - reflexivity.
  - reflexivity.
  - reflexivity.
Defined.

End WatcherManager.

(* ===================================================================== *)
(** ** Grouped search results (src/tools.py) *)
(* ===================================================================== *)

Module Tools.

Import FileWatcher.

Local Open Scope string_scope.
Local Open Scope list_scope.

Section Grouped.

(** A search result, and its [type] when it has that key. *)
Variable R : Type.
Variable r_type : R -> option string.
(** [format_results], which reads more keys and may raise on a missing
    one. *)
Variable format_results : list R -> result string.
(** [s.title()] *)
Variable title : string -> string.

Definition newline : string := String (Ascii.ascii_of_nat 10) "".

(** The loop [for r in results] of [format_results_grouped]. *)
Fixpoint group_loop (results : list R) (grouped : PyDict.t (list R))
  : result (PyDict.t (list R)) :=
  match results with
  | [] => Ok grouped
  | r :: rest =>
      match r_type r with
      | None => Raise OtherException
      | Some t =>
          let grouped :=
            match PyDict.get t grouped with
            | None => PyDict.set t [] grouped
            | Some _ => grouped
            end in
          let grouped :=
            match PyDict.get t grouped with
            | Some members => PyDict.set t (members ++ [r]) grouped
            | None => grouped
            end in
          group_loop rest grouped
      end
  end.

(** The groups that the second loop finds, in its order. *)
Definition sections (grouped : PyDict.t (list R)) : list (string * list R) :=
  flat_map (fun type_name =>
              match PyDict.get type_name grouped with
              | Some members => [(type_name, members)]
              | None => []
              end)
           ["documentation"; "code"; "config"].

(** The second loop. *)
Fixpoint render (secs : list (string * list R)) (output : list string)
  : result (list string) :=
  match secs with
  | [] => Ok output
  | (type_name, members) :: rest =>
      match format_results members with
      | Raise x => Raise x
      | Ok text =>
          render rest
            (output ++ [("## " ++ title type_name ++ " Results" ++ newline)%string; text])
      end
  end.

(** [format_results_grouped] *)
Definition format_results_grouped (results : list R) : result string :=
  match results with
  | [] => Ok "No results found."
  | _ :: _ =>
      match group_loop results [] with
      | Raise x => Raise x
      | Ok grouped =>
          match render (sections grouped) [] with
          | Raise x => Raise x
          | Ok output => Ok (String.concat newline output)
          end
      end
  end.

(** *** What the groups hold *)

Definition has_type (t : string) (r : R) : bool :=
  match r_type r with
  | Some t' => String.eqb t' t
  | None => false
  end.

(** The dictionary holds, for every type met so far, the results of that
    type in the order in which they came. *)
Definition groups_of (seen : list R) (grouped : PyDict.t (list R)) : Prop :=
  forall t,
    PyDict.get t grouped =
    if existsb (has_type t) seen then Some (filter (has_type t) seen) else None.

Lemma group_loop_groups (results : list R) : forall seen grouped out,
  groups_of seen grouped ->
  group_loop results grouped = Ok out ->
  groups_of (seen ++ results) out.
Proof.
  induction results as [| r rest IH]; intros seen grouped out Hg Hrun; cbn in Hrun.
  - injection Hrun as <-. now rewrite app_nil_r.
  - destruct (r_type r) as [t |] eqn:Ht; [| discriminate].
    apply IH with (seen := seen ++ [r]) in Hrun.
    + now rewrite <- app_assoc in Hrun.
    + clear Hrun IH. intros q.
      rewrite existsb_app, filter_app. cbn [existsb filter]. unfold has_type at 2 4.
      rewrite Ht, orb_false_r.
      set (g1 := match PyDict.get t grouped with
                 | None => PyDict.set t [] grouped
                 | Some _ => grouped
                 end).
      assert (H1 : PyDict.get t g1 = Some (filter (has_type t) seen) /\
                   forall q, q <> t -> PyDict.get q g1 = PyDict.get q grouped).
      { subst g1. pose proof (Hg t) as Hgt.
        destruct (PyDict.get t grouped) as [members |] eqn:E.
        - split; [| reflexivity]. rewrite E.
          destruct (existsb (has_type t) seen); [exact Hgt | discriminate].
        - split; [| intros q' Hq'; now apply PyDict.get_set_other].
          rewrite PyDict.get_set_same. f_equal.
          destruct (existsb (has_type t) seen) eqn:Hex; [discriminate |].
          clear - Hex. induction seen as [| a seen IH]; [reflexivity |].
          cbn in *. apply orb_false_iff in Hex. destruct Hex as [-> Hex].
          now apply IH. }
      destruct H1 as [H1t H1o]. rewrite H1t.
      destruct (String.eqb_spec t q) as [<- | Hne].
      * rewrite PyDict.get_set_same, orb_true_r. reflexivity.
      * rewrite PyDict.get_set_other by congruence.
        rewrite H1o by congruence. rewrite orb_false_r, app_nil_r. apply Hg.
Qed.

Lemma filter_none (t : string) (l : list R) :
  existsb (has_type t) l = false -> filter (has_type t) l = [].
Proof.
  induction l as [| a l IH]; [reflexivity |].
  cbn. intros H. apply orb_false_iff in H. destruct H as [-> H]. now apply IH.
Qed.

Lemma three_filters (l : list R) :
  (forall r, In r l ->
             r_type r = Some "documentation" \/ r_type r = Some "code" \/
             r_type r = Some "config") ->
  Permutation
    (filter (has_type "documentation") l ++ filter (has_type "code") l ++
     filter (has_type "config") l)
    l.
Proof.
  induction l as [| a l IH]; intros Hall; [constructor |].
  assert (IH' := IH (fun r Hr => Hall r (or_intror Hr))).
  cbn [filter].
  assert (Ha : forall t, has_type t a =
                         match r_type a with Some t' => String.eqb t' t | None => false end)
    by reflexivity.
  rewrite !Ha.
  destruct (Hall a (or_introl eq_refl)) as [-> | [-> | ->]]; cbn.
  - apply perm_skip. exact IH'.
  - symmetry. apply Permutation_cons_app. symmetry. exact IH'.
  - rewrite app_assoc. symmetry. apply Permutation_cons_app.
    rewrite <- app_assoc. symmetry. exact IH'.
Qed.

Lemma detect_type_range (path language : string) :
  Chunking.detect_type path language = "documentation" \/
  Chunking.detect_type path language = "code" \/
  Chunking.detect_type path language = "config".
Proof.
  unfold Chunking.detect_type.
  destruct (existsb _ _); [now left |].
  destruct (existsb _ _); [right; now right | right; now left].
Qed.

(** *** What is returned *)

(** The first loop returns exactly when every result has a [type]. *)
Lemma group_loop_returns (results : list R) : forall grouped,
  (forall r, In r results -> r_type r <> None) ->
  exists out, group_loop results grouped = Ok out.
Proof.
  induction results as [| r rest IH]; intros grouped Htypes; cbn [group_loop].
  - now exists grouped.
  - destruct (r_type r) as [t |] eqn:Ht.
    + apply IH. intros q Hq. apply Htypes. now right.
    + exfalso. apply (Htypes r); [now left | exact Ht].
Qed.

Lemma group_loop_raises (results : list R) : forall grouped r,
  In r results -> r_type r = None ->
  group_loop results grouped = Raise OtherException.
Proof.
  induction results as [| q rest IH]; intros grouped r HIn Hr; [contradiction |].
  cbn [group_loop]. destruct (r_type q) as [t |] eqn:Ht; [| reflexivity].
  destruct HIn as [-> | HIn]; [congruence |]. now apply IH with (r := r).
Qed.

(** The types that have a section, in the order of the sections. *)
Definition shown (results : list R) : list string :=
  filter (fun type_name => existsb (has_type type_name) results)
         ["documentation"; "code"; "config"].

(** The line above the results of a type. *)
Definition header (type_name : string) : string :=
  "## " ++ title type_name ++ " Results" ++ newline.

(** What the second loop appends for the sections and their texts. *)
Definition section_lines (shown_texts : list (string * string)) : list string :=
  flat_map (fun tx => [header (fst tx); snd tx]) shown_texts.

Lemma sections_shown (results : list R) (grouped : PyDict.t (list R)) :
  groups_of results grouped ->
  sections grouped =
  map (fun type_name => (type_name, filter (has_type type_name) results))
      (shown results).
Proof.
  intros Hg. unfold sections, shown. cbn [flat_map filter]. rewrite !Hg.
  destruct (existsb (has_type "documentation") results);
    destruct (existsb (has_type "code") results);
    destruct (existsb (has_type "config") results); reflexivity.
Qed.

Lemma render_spec (results : list R) (types : list string) : forall output out,
  render (map (fun type_name => (type_name, filter (has_type type_name) results)) types)
         output = Ok out <->
  exists texts,
    Forall2 (fun type_name text =>
               format_results (filter (has_type type_name) results) = Ok text)
            types texts /\
    out = output ++ section_lines (combine types texts).
Proof.
  induction types as [| t types IH]; intros output out; cbn [map render].
  - split.
    + intros H. injection H as <-. exists []. split; [constructor |].
      cbn. now rewrite app_nil_r.
    + intros (texts & Hall & ->). inversion Hall; subst. cbn. now rewrite app_nil_r.
  - destruct (format_results (filter (has_type t) results)) as [text | x] eqn:Ht.
    + rewrite IH. split.
      * intros (texts & Hall & ->). exists (text :: texts).
        split; [now constructor |].
        cbn [combine section_lines flat_map fst snd]. now rewrite <- app_assoc.
      * intros (texts & Hall & ->). inversion Hall as [| ? text' ? texts' Hhead Htail]; subst.
        exists texts'. split; [exact Htail |].
        rewrite Ht in Hhead. injection Hhead as <-.
        cbn [combine section_lines flat_map fst snd]. now rewrite <- app_assoc.
    + split; [discriminate |].
      intros (texts & Hall & _). inversion Hall; subst. congruence.
Qed.

(** X25.  [format_results_grouped] answers a list without results with
    one fixed line.  For other lists it raises when a result has no [type],
    and it returns exactly when every result has one and [format_results]
    returns on every group shown.  The groups shown are those of
    [documentation], [code] and [config] that are not empty, in this order;
    each holds the results of its type in the order in which they came; and
    the text returned is, for each group shown, its header and what
    [format_results] gives for the group, joined by newlines.  When the type
    of every result is one that [detect_type] gives, as for the chunks that
    [chunk_file] makes, the groups shown hold every result once. *)
Theorem grouped_results_lose_nothing (results : list R) :
  (results = [] -> format_results_grouped results = Ok "No results found.") /\
  (results <> [] ->
   (forall r, In r results -> r_type r = None ->
              format_results_grouped results = Raise OtherException) /\
   forall text,
     format_results_grouped results = Ok text <->
     (forall r, In r results -> r_type r <> None) /\
     exists texts,
       Forall2 (fun type_name shown_text =>
                  format_results (filter (has_type type_name) results) = Ok shown_text)
               (shown results) texts /\
       text = String.concat newline (section_lines (combine (shown results) texts))) /\
  (forall type_name,
      In type_name (shown results) <->
      In type_name ["documentation"; "code"; "config"] /\
      filter (has_type type_name) results <> []) /\
  ((forall r, In r results ->
              exists path language,
                r_type r = Some (Chunking.detect_type path language)) ->
   Permutation
     (flat_map (fun type_name => filter (has_type type_name) results) (shown results))
     results).
Proof.
  split; [intros ->; reflexivity |].
  split; [| split].
  - intros Hne. destruct results as [| r0 rest] eqn:Hres; [congruence |].
    rewrite <- Hres in *. clear Hne.
    assert (Hunfold : format_results_grouped results =
                      match group_loop results [] with
                      | Raise x => Raise x
                      | Ok grouped =>
                          match render (sections grouped) [] with
                          | Raise x => Raise x
                          | Ok output => Ok (String.concat newline output)
                          end
                      end) by (rewrite Hres; reflexivity).
    rewrite Hunfold. clear Hunfold Hres r0 rest.
    split.
    + intros r HIn Hr. now rewrite (group_loop_raises results [] r HIn Hr).
    + intros text. destruct (group_loop results []) as [grouped | x] eqn:Hrun.
      * assert (Hg : groups_of results grouped).
        { apply (group_loop_groups results [] [] grouped); [| exact Hrun].
          intros t. reflexivity. }
        assert (Htypes : forall r, In r results -> r_type r <> None).
        { intros r HIn Hr.
          rewrite (group_loop_raises results [] r HIn Hr) in Hrun. discriminate. }
        rewrite (sections_shown results grouped Hg).
        pose proof (render_spec results (shown results) []) as Hrender.
        destruct (render _ []) as [output | x].
        -- split.
           ++ intros H. injection H as <-. split; [exact Htypes |].
              destruct (proj1 (Hrender output) eq_refl) as (texts & Hall & ->).
              exists texts. split; [exact Hall | reflexivity].
           ++ intros (_ & texts & Hall & ->).
              assert (Hout : Ok output =
                             Ok ([] ++ section_lines (combine (shown results) texts))).
              { apply Hrender. exists texts. split; [exact Hall | reflexivity]. }
              injection Hout as ->. reflexivity.
        -- split; [discriminate |].
           intros (_ & texts & Hall & _).
           assert (Hout : @Raise (list string) x =
                          Ok ([] ++ section_lines (combine (shown results) texts))).
           { apply Hrender. exists texts. split; [exact Hall | reflexivity]. }
           discriminate.
      * split; [discriminate |].
        intros (Htypes & _).
        destruct (group_loop_returns results [] Htypes) as (out & Hout).
        congruence.
  - intros t. unfold shown. rewrite filter_In. split.
    + intros [Hname Hex]. split; [exact Hname |].
      apply existsb_exists in Hex. destruct Hex as (r & Hr & Ht).
      intros Hnil.
      assert (HIn : In r (filter (has_type t) results))
        by (apply filter_In; split; assumption).
      rewrite Hnil in HIn. contradiction.
    + intros [Hname Hsome]. split; [exact Hname |].
      destruct (existsb (has_type t) results) eqn:Hex; [reflexivity |].
      now rewrite (filter_none _ _ Hex) in Hsome.
  - intros Htypes.
    assert (Hshown : flat_map (fun type_name => filter (has_type type_name) results)
                              (shown results) =
                     filter (has_type "documentation") results ++
                     filter (has_type "code") results ++
                     filter (has_type "config") results).
    { unfold shown. cbn [filter].
      destruct (existsb (has_type "documentation") results) eqn:H1;
        destruct (existsb (has_type "code") results) eqn:H2;
        destruct (existsb (has_type "config") results) eqn:H3;
        cbn [app flat_map];
        rewrite ?(filter_none _ _ H1), ?(filter_none _ _ H2), ?(filter_none _ _ H3),
          ?app_nil_r;
        reflexivity. }
    rewrite Hshown. apply three_filters.
    intros r Hr. destruct (Htypes r Hr) as (path & language & ->).
    destruct (detect_type_range path language) as [-> | [-> | ->]]; auto.
Qed.

End Grouped.

(** *** An example *)

(** Results that are their own type, a [format_results] that joins them
    with commas, and upper case for a title. *)
Definition demo_results : list string := ["code"; "documentation"; "code"; "config"].

Definition demo_format_results (results : list string) : result string :=
  Ok (String.concat ", " results).

Definition demo_title (type_name : string) : string :=
  if String.eqb type_name "documentation" then "Documentation"
  else if String.eqb type_name "code" then "Code"
  else if String.eqb type_name "config" then "Config"
  else type_name.

(** One result of documentation, two of code and one of configuration:
    three sections, in that order. *)
Lemma grouped_results_witness :
  format_results_grouped string (fun t => Some t) demo_format_results demo_title
    demo_results =
  Ok (String.concat newline
        [("## Documentation Results" ++ newline)%string; "documentation";
         ("## Code Results" ++ newline)%string; "code, code";
         ("## Config Results" ++ newline)%string; "config"]).
Proof.
  destruct (grouped_results_lose_nothing string (fun t => Some t) demo_format_results
              demo_title demo_results) as (_ & Hsome & _).
  destruct (Hsome ltac:(discriminate)) as (_ & Htext).
  apply Htext. split; [discriminate |].
  exists ["documentation"; "code, code"; "config"].
  split; [repeat constructor | reflexivity].
Defined.

End Tools.
